(** * Seating-Orchestrator: the scheduling engine (scheduler.js) in Rocq

    A shallow embedding of the scheduling core of the repository:
    [validateConstraints], [seededShuffle], [greedyPairScheduler],
    [generateRoomSummaries], [formatRollRanges] and [schedule] from
    scheduler.js, and the second [formatRollRanges] kept by the server for
    its printable reports.  Around the engine it covers what feeds it:
    the student file readers of the page ([parseCsv]) and of the server
    ([parseCSV]), the subject tally of the upload page
    ([computeSubjectCounts]), and the handlers that keep the room lists
    of the page and of the React client.

    Modelling conventions.
    - JavaScript numbers are exact integers or NaN ([num]).  Doubles hold
      the integers up to 2^53 exactly; where a property depends on a
      number staying in that range (a seed of the shuffle, the number in
      a roll, the capacities of the rooms) it says so in a hypothesis
      ([seed_exact], [safe_number], [rooms_exact]).
    - A room dimension is a [jsval]: an integer, NaN, [undefined] or
      [null], so that rooms with a missing or non-numeric dimension can be
      written.  Dimensions that are strings, fractions or infinite are
      outside the model.
    - A JavaScript object used as a dictionary is an association list kept
      in the order [Object.keys] reports (array-index keys ascending, then
      the other keys by insertion), for keys that are no names of members
      inherited from [Object.prototype] ([inherited]).  Where the engine
      groups students by subject an inherited name makes it throw, and
      the model throws with it ([group_push]); an assignment under
      ["__proto__"] is dropped ([obj_set]).
    - Strings are compared byte-wise, as [Array.prototype.sort] does for
      the code units of ASCII text; the white space [parseInt] skips and
      [trim] removes is ASCII white space.
    - A [while] loop takes fuel; [run] tells a value from a thrown
      [TypeError] and from fuel running out.
    - [Math.floor((random / 233280) * m)] of the shuffle is IEEE-754 double
      arithmetic; it is a parameter [floorScaled] of the model. *)

From Stdlib Require Import List String Ascii ZArith Lia Bool Arith PeanoNat.
From Stdlib Require Import Permutation Sorted DecimalString.
From Stdlib Require DecimalNat DecimalZ.
Import ListNotations.

Local Open Scope string_scope.
Local Open Scope list_scope.

(** ** JavaScript values and numbers *)

Inductive jsval : Type :=
| JNum (z : Z)
| JNaN
| JUndefined
| JNull.

(** [None] is NaN. *)
Definition num : Type := option Z.

Definition toNumber (v : jsval) : num :=
  match v with
  | JNum z => Some z
  | JNaN => None
  | JUndefined => None
  | JNull => Some 0%Z
  end.

Definition num_of_nat (n : nat) : num := Some (Z.of_nat n).

Definition num_mul (a b : num) : num :=
  match a, b with
  | Some x, Some y => Some (x * y)%Z
  | _, _ => None
  end.

Definition num_add (a b : num) : num :=
  match a, b with
  | Some x, Some y => Some (x + y)%Z
  | _, _ => None
  end.

(** [a < b]; false as soon as one side is NaN. *)
Definition num_ltb (a b : num) : bool :=
  match a, b with
  | Some x, Some y => (x <? y)%Z
  | _, _ => false
  end.

(** [a > b]. *)
Definition num_gtb (a b : num) : bool := num_ltb b a.

(** [a >= b]. *)
Definition num_geb (a b : num) : bool :=
  match a, b with
  | Some x, Some y => (y <=? x)%Z
  | _, _ => false
  end.

(** [a === b] on numbers: NaN equals nothing, itself included. *)
Definition num_eqb (a b : num) : bool :=
  match a, b with
  | Some x, Some y => (x =? y)%Z
  | _, _ => false
  end.

Definition truthy (v : jsval) : bool :=
  match v with
  | JNum z => negb (z =? 0)%Z
  | _ => false
  end.

(** [v || d]. *)
Definition js_or (v d : jsval) : jsval := if truthy v then v else d.

(** [v === n] for a number literal [n]. *)
Definition strict_eq_lit (v : jsval) (n : Z) : bool :=
  match v with
  | JNum z => (z =? n)%Z
  | _ => false
  end.

(** The number of [i = 0, 1, 2, ...] with [i < v]: how often a counting
    [for] loop bounded by [v] can run. *)
Definition loop_bound (v : jsval) : nat :=
  match toNumber v with
  | Some z => Z.to_nat z
  | None => 0
  end.

(** A non-empty string is truthy. *)
Definition str_truthy (s : string) : bool :=
  match s with
  | EmptyString => false
  | String _ _ => true
  end.

(** Template-literal rendering of numbers. *)
Definition show_nat (n : nat) : string := NilZero.string_of_uint (Nat.to_uint n).

Definition show_Z (z : Z) : string := NilZero.string_of_int (Z.to_int z).

Definition show_num (n : num) : string :=
  match n with
  | Some z => show_Z z
  | None => "NaN"
  end.

(** Outcome of running code that may throw or loop. *)
Inductive run (A : Type) : Type :=
| Done (a : A)
| TypeError
| OutOfFuel.

Arguments Done {A} a.
Arguments TypeError {A}.
Arguments OutOfFuel {A}.

Definition bind {A B : Type} (m : run A) (k : A -> run B) : run B :=
  match m with
  | Done a => k a
  | TypeError => TypeError
  | OutOfFuel => OutOfFuel
  end.

Notation "x <- m ;; k" := (bind m (fun x => k))
  (at level 61, m at next level, right associativity).

(** ** Objects used as dictionaries *)

Definition obj (V : Type) : Type := list (string * V).

Definition is_digit (c : ascii) : bool :=
  let n := nat_of_ascii c in ((48 <=? n) && (n <=? 57))%nat.

Fixpoint all_digits (s : string) : bool :=
  match s with
  | EmptyString => true
  | String c s' => is_digit c && all_digits s'
  end.

Fixpoint decimal_value_acc (s : string) (acc : Z) : Z :=
  match s with
  | EmptyString => acc
  | String c s' => decimal_value_acc s' (acc * 10 + (Z.of_nat (nat_of_ascii c) - 48))%Z
  end.

(** An array index is the canonical decimal form of an integer in
    [0, 2^32 - 2]. *)
Definition array_index (k : string) : option Z :=
  match k with
  | EmptyString => None
  | String c rest =>
      if all_digits k
         && (negb (Ascii.eqb c "0") || String.eqb rest "")
         && (decimal_value_acc k 0 <=? 4294967294)%Z
      then Some (decimal_value_acc k 0)
      else None
  end.

Fixpoint obj_get {V : Type} (o : obj V) (k : string) : option V :=
  match o with
  | [] => None
  | (k', v) :: o' => if String.eqb k k' then Some v else obj_get o' k
  end.

(** Where a fresh array-index key [k] (of value [n]) goes. *)
Fixpoint obj_add_index {V : Type} (o : obj V) (n : Z) (k : string) (v : V) : obj V :=
  match o with
  | [] => [(k, v)]
  | (k', v') :: o' =>
      match array_index k' with
      | Some n' => if (n <? n')%Z then (k, v) :: o
                   else (k', v') :: obj_add_index o' n k v
      | None => (k, v) :: o
      end
  end.

(** Creating the property [k], which [o] does not have yet. *)
Definition obj_add {V : Type} (o : obj V) (k : string) (v : V) : obj V :=
  match array_index k with
  | Some n => obj_add_index o n k v
  | None => o ++ [(k, v)]
  end.

Fixpoint obj_update {V : Type} (o : obj V) (k : string) (f : V -> V) : obj V :=
  match o with
  | [] => []
  | (k', v) :: o' =>
      if String.eqb k k' then (k', f v) :: o' else (k', v) :: obj_update o' k f
  end.

Fixpoint obj_delete {V : Type} (o : obj V) (k : string) : obj V :=
  match o with
  | [] => []
  | (k', v) :: o' =>
      if String.eqb k k' then o' else (k', v) :: obj_delete o' k
  end.

Definition obj_keys {V : Type} (o : obj V) : list string := map fst o.

(** ** Sorting *)

(** Stable insertion sort; [before x y] says that [x], which stood
    earlier, stays in front of [y]. *)
Fixpoint insert_by {A : Type} (before : A -> A -> bool) (x : A) (l : list A) : list A :=
  match l with
  | [] => [x]
  | y :: l' => if before x y then x :: l else y :: insert_by before x l'
  end.

Definition sort_by {A : Type} (before : A -> A -> bool) (l : list A) : list A :=
  fold_right (insert_by before) [] l.

(** [array.sort()] on strings. *)
Definition sort_strings (l : list string) : list string := sort_by String.leb l.

(** ** Data model *)

Record Student : Type := mkStudent {
  roll : string;
  name : string;
  subject : string;
  preferred_room : option string
}.

Record Room : Type := mkRoom {
  room_id : string;
  room_name : string;
  num_benches : jsval;
  seats_per_bench : jsval
}.

Record Assignment : Type := mkAssignment {
  a_room_id : string;
  a_room_name : string;
  bench_number : nat;
  position : string;
  student : Student
}.

Inductive ConflictType : Type := validation | infeasible | constraint | overflow.

Record Conflict : Type := mkConflict {
  c_type : ConflictType;
  c_room : option string;
  c_bench_number : option nat;
  c_message : string
}.

Record Diagnostics : Type := mkDiagnostics {
  feasible : bool;
  conflicts : list Conflict;
  suggestions : list string
}.

Record SubjectEntry : Type := mkSubjectEntry {
  se_subject : string;
  se_count : nat;
  se_ranges : string
}.

Record RoomSummary : Type := mkRoomSummary {
  rs_room_id : string;
  rs_room_name : string;
  rs_total : nat;
  rs_subjects : list SubjectEntry;
  rs_subject_counts : obj nat
}.

Record Result : Type := mkResult {
  success : bool;
  assignments : list Assignment;
  diagnostics : Diagnostics;
  room_summaries : list RoomSummary
}.

Record Options : Type := mkOptions {
  algorithm : option string;
  no_same_subject_bench : option bool;
  seed : option Z
}.

(** ** [parseInt] and the pattern [/(\d+)-(\d+)/] *)

Definition is_space (c : ascii) : bool :=
  let n := nat_of_ascii c in
  ((n =? 32) || ((9 <=? n) && (n <=? 13)))%nat.

Fixpoint skip_spaces (s : string) : string :=
  match s with
  | EmptyString => EmptyString
  | String c s' => if is_space c then skip_spaces s' else s
  end.

Definition digit_value (c : ascii) : option Z :=
  let n := nat_of_ascii c in
  if ((48 <=? n) && (n <=? 57))%nat then Some (Z.of_nat n - 48)%Z
  else if ((97 <=? n) && (n <=? 122))%nat then Some (Z.of_nat n - 87)%Z
  else if ((65 <=? n) && (n <=? 90))%nat then Some (Z.of_nat n - 55)%Z
  else None.

(** The longest prefix of digits of the radix; [acc] is [None] until a
    digit has been read. *)
Fixpoint parse_digits (radix : Z) (s : string) (acc : num) : num :=
  match s with
  | EmptyString => acc
  | String c s' =>
      match digit_value c with
      | Some d =>
          if (d <? radix)%Z
          then parse_digits radix s'
                 (Some (match acc with Some a => a | None => 0 end * radix + d)%Z)
          else acc
      | None => acc
      end
  end.

(** [parseInt(s)] without a radix: leading white space, a sign, an
    optional [0x] that selects radix 16, then digits.  The value is the
    exact integer, which is the code's number as long as it stays below
    2^53 ([safe_number]); beyond, the code rounds it. *)
Definition parseInt (s : string) : num :=
  let s1 := skip_spaces s in
  let '(sign, s2) :=
    match s1 with
    | String c r =>
        if Ascii.eqb c "-" then ((-1)%Z, r)
        else if Ascii.eqb c "+" then (1%Z, r)
        else (1%Z, s1)
    | EmptyString => (1%Z, s1)
    end in
  let '(radix, s3) :=
    match s2 with
    | String c (String x r) =>
        if Ascii.eqb c "0" && (Ascii.eqb x "x" || Ascii.eqb x "X")
        then (16%Z, r) else (10%Z, s2)
    | _ => (10%Z, s2)
    end in
  match parse_digits radix s3 None with
  | Some v => Some (sign * v)%Z
  | None => None
  end.

Fixpoint take_digits (s : string) : string :=
  match s with
  | EmptyString => EmptyString
  | String c s' => if is_digit c then String c (take_digits s') else EmptyString
  end.

(** Leftmost match of [/(\d+)-(\d+)/]: [cur] is the run of digits read
    just before the current position.  The result is the two groups. *)
Fixpoint match_dash (s : string) (cur : string) : option (string * string) :=
  match s with
  | EmptyString => None
  | String c s' =>
      if is_digit c then match_dash s' (cur ++ String c EmptyString)
      else if Ascii.eqb c "-" && str_truthy cur && str_truthy (take_digits s')
           then Some (cur, take_digits s')
           else match_dash s' EmptyString
  end.

(** ** [formatRollRanges] of the summary generator (scheduler.js) *)

Definition show_range (first last : num) : string :=
  if num_eqb first last then show_num first
  else show_num first ++ " to " ++ show_num last.

Definition roll_number (r : string) : num :=
  match match_dash r EmptyString with
  | Some (_, digits) => parseInt digits
  | None => parseInt r
  end.

(** The [for] loop over [nums[1..]]: [first], [last] and [ranges] are the
    variables [start], [end] and [ranges]. *)
Fixpoint ranges_loop (nums : list num) (first last : num) (ranges : list string)
  : list string :=
  match nums with
  | [] => ranges ++ [show_range first last]
  | n :: nums' =>
      if num_eqb n (num_add last (Some 1%Z))
      then ranges_loop nums' first n ranges
      else ranges_loop nums' n n (ranges ++ [show_range first last])
  end.

Definition formatRollRanges (rolls : list string) : string :=
  match map roll_number rolls with
  | [] => ""
  | n0 :: nums => String.concat ", " (ranges_loop nums n0 n0 [])
  end.

(** ** [formatRollRanges] of the report renderer (server) *)

Record RollParts : Type := mkRollParts {
  rp_prefix : string;
  rp_num : num;
  rp_full : string
}.

Definition roll_parts (r : string) : RollParts :=
  match match_dash r EmptyString with
  | Some (pre, digits) => mkRollParts pre (parseInt digits) r
  | None => mkRollParts "" (parseInt r) r
  end.

Definition show_report_range (first last : RollParts) : string :=
  if str_truthy (rp_prefix first)
  then if num_eqb (rp_num first) (rp_num last)
       then rp_prefix first ++ "-" ++ show_num (rp_num first)
       else rp_prefix first ++ "-" ++ show_num (rp_num first)
            ++ " to " ++ show_num (rp_num last)
  else if num_eqb (rp_num first) (rp_num last)
       then show_num (rp_num first)
       else show_num (rp_num first) ++ " to " ++ show_num (rp_num last).

Fixpoint report_ranges_loop (nums : list RollParts) (first last : RollParts)
  (ranges : list string) : list string :=
  match nums with
  | [] => ranges ++ [show_report_range first last]
  | n :: nums' =>
      if String.eqb (rp_prefix n) (rp_prefix last)
         && num_eqb (rp_num n) (num_add (rp_num last) (Some 1%Z))
      then report_ranges_loop nums' first n ranges
      else report_ranges_loop nums' n n (ranges ++ [show_report_range first last])
  end.

Definition formatRollRanges_report (rolls : list string) : string :=
  match map roll_parts rolls with
  | [] => ""
  | n0 :: nums => String.concat ", " (report_ranges_loop nums n0 n0 [])
  end.

(** ** [generateRoomSummaries] *)

Definition str_mem (x : string) (l : list string) : bool :=
  existsb (String.eqb x) l.

(** The names of the members that every object literal inherits from
    [Object.prototype]. *)
Definition prototype_members : list string :=
  [ "constructor"; "__defineGetter__"; "__defineSetter__"; "hasOwnProperty";
    "__lookupGetter__"; "__lookupSetter__"; "isPrototypeOf";
    "propertyIsEnumerable"; "toString"; "valueOf"; "__proto__";
    "toLocaleString" ].

(** [k] names an inherited member: on an object literal that has no such
    key of its own, [o[k]] is that member and not [undefined]. *)
Definition inherited (k : string) : bool := str_mem k prototype_members.

(** [if (!o[k]) o[k] = []; o[k].push(x)], for a key that is no inherited
    name. *)
Definition obj_push {V : Type} (o : obj (list V)) (k : string) (x : V) : obj (list V) :=
  match obj_get o k with
  | Some _ => obj_update o k (fun l => l ++ [x])
  | None => obj_add o k [x]
  end.

(** [o[k] = (o[k] || 0) + 1], for a key that is no inherited name. *)
Definition obj_incr (o : obj nat) (k : string) : obj nat :=
  match obj_get o k with
  | Some _ => obj_update o k (fun n => n + 1)
  | None => obj_add o k 1
  end.

(** [o[k]] for a key [k] taken from [Object.keys(o)]. *)
Definition obj_list {V : Type} (o : obj (list V)) (k : string) : list V :=
  match obj_get o k with
  | Some l => l
  | None => []
  end.

Definition room_assignments (assignments : list Assignment) (room : Room)
  : list Assignment :=
  filter (fun a => String.eqb (a_room_id a) (room_id room)) assignments.

Definition subject_ranges (roomAssignments : list Assignment) : obj (list string) :=
  fold_left (fun o a => obj_push o (subject (student a)) (roll (student a)))
            roomAssignments [].

Definition subject_counts (roomAssignments : list Assignment) : obj nat :=
  fold_left (fun o a => obj_incr o (subject (student a))) roomAssignments [].

Definition format_subject (subjectRanges : obj (list string)) (subj : string)
  : SubjectEntry :=
  let rolls := sort_strings (obj_list subjectRanges subj) in
  mkSubjectEntry subj (List.length rolls) (formatRollRanges rolls).

Definition room_summary (assignments : list Assignment) (room : Room) : RoomSummary :=
  let roomAssignments := room_assignments assignments room in
  let subjectRanges := subject_ranges roomAssignments in
  mkRoomSummary (room_id room) (room_name room) (List.length roomAssignments)
    (map (format_subject subjectRanges) (sort_strings (obj_keys subjectRanges)))
    (subject_counts roomAssignments).

(** The summaries of assignments whose subjects are no inherited names.
    The scheduler calls it on the assignments it has made, which are
    such: on an inherited name it has thrown before, while grouping
    ([group_push]). *)
Definition generateRoomSummaries (assignments : list Assignment) (rooms : list Room)
  : list RoomSummary :=
  map (room_summary assignments) rooms.

(** ** [validateConstraints] *)

(** The [forEach] over the students; [seen] is the set [rolls]. *)
Fixpoint duplicate_errors (students : list Student) (seen : list string) : list string :=
  match students with
  | [] => []
  | s :: rest =>
      (if str_mem (roll s) seen then [("Duplicate roll number: " ++ roll s)%string] else [])
      ++ duplicate_errors rest (roll s :: seen)
  end.

Definition validateConstraints (students : list Student) (rooms : list Room)
  : list string :=
  (if (List.length students =? 0)%nat then ["No students provided"] else [])
  ++ (if (List.length rooms =? 0)%nat then ["No rooms provided"] else [])
  ++ duplicate_errors students [].

(** ** [seededShuffle] *)

Fixpoint list_set {A : Type} (l : list A) (i : nat) (x : A) : list A :=
  match l, i with
  | [], _ => []
  | _ :: l', O => x :: l'
  | y :: l', S i' => y :: list_set l' i' x
  end.

(** [t = arr[m]; arr[m] = arr[i]; arr[i] = t].  An index outside the array
    reads [undefined] into slot [m]; the array then holds a hole-value and
    is no list of students any more ([None]). *)
Definition swap {A : Type} (arr : list A) (m : nat) (i : Z) : option (list A) :=
  if ((0 <=? i) && (i <? Z.of_nat (List.length arr)))%Z
  then match nth_error arr m, nth_error arr (Z.to_nat i) with
       | Some t, Some u => Some (list_set (list_set arr m u) (Z.to_nat i) t)
       | _, _ => None
       end
  else None.

(** [random = (random * 9301 + 49297) % 233280]; [%] keeps the sign of the
    dividend.  The code computes in doubles, and this exact value is the
    code's as long as the product and the sum are integers of at most
    2^53 in absolute value: from the second step on [random] lies between
    -233280 and 233280, for the first step see [seed_exact]. *)
Definition lcg_next (random : Z) : Z := Z.rem (random * 9301 + 49297) 233280.

(** The seeds with which the first step of the generator is exact in
    doubles: [|seed| * 9301 + 49297 <= 2^53]. *)
Definition seed_exact (seed : Z) : bool :=
  (Z.abs seed * 9301 + 49297 <=? 9007199254740992)%Z.

(** The [while (m)] loop.  [floorScaled random m] stands for
    [Math.floor((random / 233280) * m)]. *)
Fixpoint shuffle_loop {A : Type} (floorScaled : Z -> nat -> Z)
  (m : nat) (arr : list A) (random : Z) : option (list A) :=
  match m with
  | O => Some arr
  | S m' =>
      let random' := lcg_next random in
      let i := floorScaled random' m in
      match swap arr m' i with
      | Some arr' => shuffle_loop floorScaled m' arr' random'
      | None => None
      end
  end.

Definition seededShuffle {A : Type} (floorScaled : Z -> nat -> Z)
  (array : list A) (seed : Z) : option (list A) :=
  shuffle_loop floorScaled (List.length array) array seed.

(** ** [greedyPairScheduler] *)

(** The grouping of students whose subjects are no inherited names. *)
Definition groupBySubject (students : list Student) : obj (list Student) :=
  fold_left (fun o s => obj_push o (subject s) s) students [].

(** One call of the callback of the scheduler's first [students.forEach]:
    [if (!subjectGroups[s.subject]) subjectGroups[s.subject] = [];
     subjectGroups[s.subject].push(s)].
    Under an inherited name, [subjectGroups[s.subject]] is the inherited
    member (a function, or the prototype itself for "__proto__"): it is
    truthy, so no array is made, and it has no [push], so the call
    throws. *)
Definition group_push (subjectGroups : obj (list Student)) (s : Student)
  : run (obj (list Student)) :=
  if inherited (subject s) then TypeError
  else Done (obj_push subjectGroups (subject s) s).

Fixpoint group_loop (students : list Student) (subjectGroups : obj (list Student))
  : run (obj (list Student)) :=
  match students with
  | [] => Done subjectGroups
  | s :: rest =>
      subjectGroups' <- group_push subjectGroups s ;;
      group_loop rest subjectGroups'
  end.

(** The [subjectGroups] the scheduler builds before anything else. *)
Definition groupStudents (students : list Student) : run (obj (list Student)) :=
  group_loop students [].

Definition room_capacity (r : Room) : num :=
  num_mul (toNumber (num_benches r)) (toNumber (seats_per_bench r)).

Definition totalCapacity (rooms : list Room) : num :=
  fold_left (fun sum r => num_add sum (room_capacity r)) rooms (Some 0%Z).

(** [Math.max(...xs)]. *)
Inductive jsmax : Type :=
| NegInfinity
| Finite (n : nat).

Definition math_max (xs : list nat) : jsmax :=
  match xs with
  | [] => NegInfinity
  | x :: rest => Finite (fold_left Nat.max rest x)
  end.

(** [Math.max(...subjects.map(s => subjectGroups[s].length))]. *)
Definition max_count (subjectGroups : obj (list Student)) : jsmax :=
  math_max (map (fun s => List.length (obj_list subjectGroups s)) (obj_keys subjectGroups)).

Definition maxSubjectCount (students : list Student) : jsmax :=
  let subjectGroups := groupBySubject students in
  math_max (map (fun s => List.length (obj_list subjectGroups s)) (obj_keys subjectGroups)).

(** [Math.ceil(n / 2)]. *)
Definition ceil_half (n : nat) : nat := (n + 1) / 2.

Record RoomAlloc : Type := mkRoomAlloc {
  ra_room : Room;
  ra_students : list Student;
  ra_capacity : num
}.

Definition initial_allocs (rooms : list Room) : list RoomAlloc :=
  map (fun r => mkRoomAlloc r [] (room_capacity r)) rooms.

Definition has_space (ra : RoomAlloc) : bool :=
  num_ltb (num_of_nat (List.length (ra_students ra))) (ra_capacity ra).

Definition is_full (ra : RoomAlloc) : bool :=
  num_geb (num_of_nat (List.length (ra_students ra))) (ra_capacity ra).

Definition push_student (ra : RoomAlloc) (s : Student) : RoomAlloc :=
  mkRoomAlloc (ra_room ra) (ra_students ra ++ [s]) (ra_capacity ra).

Fixpoint find_index {A : Type} (f : A -> bool) (l : list A) : option nat :=
  match l with
  | [] => None
  | x :: l' => if f x then Some 0
               else match find_index f l' with
                    | Some i => Some (S i)
                    | None => None
                    end
  end.

Definition matches_preference (p : string) (ra : RoomAlloc) : bool :=
  String.eqb (room_name (ra_room ra)) p || String.eqb (room_id (ra_room ra)) p.

(** One call of the callback of the first [students.forEach]: the state
    is [roomAssignments] and [unassignedStudents]. *)
Definition prefer_step (st : list RoomAlloc * list Student) (s : Student)
  : list RoomAlloc * list Student :=
  let '(ras, unassigned) := st in
  match preferred_room s with
  | Some p =>
      if str_truthy p
      then match find_index (matches_preference p) ras with
           | Some j =>
               match nth_error ras j with
               | Some ra =>
                   if has_space ra
                   then (list_set ras j (push_student ra s), unassigned)
                   else (ras, unassigned ++ [s])
               | None => (ras, unassigned ++ [s])
               end
           | None => (ras, unassigned ++ [s])
           end
      else (ras, unassigned ++ [s])
  | None => (ras, unassigned ++ [s])
  end.

Definition prefer_pass (students : list Student) (ras : list RoomAlloc)
  : list RoomAlloc * list Student :=
  fold_left prefer_step students (ras, []).

(** The [while] loop that skips full rooms; reading a field of
    [roomAssignments[roomIdx]] throws when there is no such entry. *)
Fixpoint skip_full (fuel : nat) (ras : list RoomAlloc) (roomIdx : nat) : run nat :=
  match fuel with
  | O => OutOfFuel
  | S fuel' =>
      match nth_error ras roomIdx with
      | None => TypeError
      | Some ra =>
          if is_full ra
          then skip_full fuel' ras ((roomIdx + 1) mod List.length ras)
          else Done roomIdx
      end
  end.

(** The second [forEach]; every run of the inner [while] gets [fuel]. *)
Fixpoint round_robin (fuel : nat) (unassigned : list Student)
  (ras : list RoomAlloc) (roomIdx : nat) : run (list RoomAlloc) :=
  match unassigned with
  | [] => Done ras
  | s :: rest =>
      j <- skip_full fuel ras roomIdx ;;
      match nth_error ras j with
      | None => TypeError
      | Some ra =>
          round_robin fuel rest (list_set ras j (push_student ra s))
                      ((j + 1) mod List.length ras)
      end
  end.

Definition distribute (fuel : nat) (students : list Student) (rooms : list Room)
  : run (list RoomAlloc) :=
  let '(ras, unassigned) := prefer_pass students (initial_allocs rooms) in
  round_robin fuel unassigned ras 0.

(** *** The seat assigner of one room *)

Definition getSortedSubjects (groups : obj (list Student)) : list string :=
  sort_by
    (fun a b =>
       (List.length (obj_list groups b) <=? List.length (obj_list groups a))%nat)
    (filter (fun subj => (0 <? List.length (obj_list groups subj))%nat)
            (obj_keys groups)).

(** Splits a list into all but its last element, and the last. *)
Fixpoint unsnoc {A : Type} (l : list A) : option (list A * A) :=
  match l with
  | [] => None
  | x :: l' =>
      match unsnoc l' with
      | None => Some ([], x)
      | Some (init, z) => Some (x :: init, z)
      end
  end.

(** [groups[chosen].pop()], then [delete groups[chosen]] when the group
    is used up.  Popping nothing yields [undefined], whose [subject] is
    read right after. *)
Definition pop_student (groups : obj (list Student)) (chosen : string)
  : run (Student * obj (list Student)) :=
  match obj_get groups chosen with
  | None => TypeError
  | Some l =>
      match unsnoc l with
      | None => TypeError
      | Some ([], s) => Done (s, obj_delete groups chosen)
      | Some (init, s) => Done (s, obj_update groups chosen (fun _ => init))
      end
  end.

(** [availableSubjects.find(s => !benchSubjects.has(s))], with the
    fallback to [availableSubjects[0]] taken whenever the found value is
    falsy; the boolean is [respectedConstraint]. *)
Definition choose_subject (available benchSubjects : list string) (first : string)
  : string * bool :=
  match find (fun subj => negb (str_mem subj benchSubjects)) available with
  | Some subj => if str_truthy subj then (subj, true) else (first, false)
  | None => (first, false)
  end.

Definition seatsPerBench (room : Room) : jsval :=
  js_or (seats_per_bench room) (JNum 2).

Definition positionLabels (room : Room) : option (list string) :=
  if strict_eq_lit (seatsPerBench room) 2 then Some ["left"; "right"] else None.

Definition seat_label (seatIdx : nat) : string :=
  "seat_" ++ show_nat (seatIdx + 1).

Definition position_label (room : Room) (seatIdx : nat) : string :=
  match positionLabels room with
  | Some labels =>
      match nth_error labels seatIdx with
      | Some l => if str_truthy l then l else seat_label seatIdx
      | None => seat_label seatIdx
      end
  | None => seat_label seatIdx
  end.

Record SeatState : Type := mkSeatState {
  ss_groups : obj (list Student);
  ss_remaining : nat;
  ss_assignments : list Assignment;
  ss_conflicts : list Conflict
}.

Definition constraint_conflict (room : Room) (benchIdx : nat) (s : Student) : Conflict :=
  mkConflict constraint (Some (room_name room)) (Some (benchIdx + 1))
    ("Had to seat two " ++ subject s ++ " students on bench "
     ++ show_nat (benchIdx + 1) ++ " in " ++ room_name room).

Definition overflow_conflict (room : Room) : Conflict :=
  mkConflict overflow (Some (room_name room)) None
    ("Not enough benches in " ++ room_name room).

(** The body of the seat loop once a subject list is at hand. *)
Definition seat_step (room : Room) (benchIdx seatIdx : nat)
  (benchSubjects : list string) (st : SeatState) (available : list string)
  (first : string) : run (SeatState * list string) :=
  let '(chosen, respected) := choose_subject available benchSubjects first in
  popped <- pop_student (ss_groups st) chosen ;;
  let '(stu, groups') := popped in
  let a := mkAssignment (room_id room) (room_name room) (benchIdx + 1)
                        (position_label room seatIdx) stu in
  Done (mkSeatState groups' (ss_remaining st - 1) (ss_assignments st ++ [a])
          (if respected then ss_conflicts st
           else ss_conflicts st ++ [constraint_conflict room benchIdx stu]),
        if respected then subject stu :: benchSubjects else benchSubjects).

(** The inner [for]: [k] seats of the bench are still to be tried. *)
Fixpoint seat_loop (room : Room) (benchIdx : nat) (k seatIdx : nat)
  (benchSubjects : list string) (st : SeatState) : run SeatState :=
  match k with
  | O => Done st
  | S k' =>
      if (0 <? ss_remaining st)%nat
      then match getSortedSubjects (ss_groups st) with
           | [] => Done st
           | (first :: _) as available =>
               next <- seat_step room benchIdx seatIdx benchSubjects st available first ;;
               let '(st', benchSubjects') := next in
               seat_loop room benchIdx k' (seatIdx + 1) benchSubjects' st'
           end
      else Done st
  end.

(** The outer [for]: [b] benches are still to be tried. *)
Fixpoint bench_loop (room : Room) (b benchIdx : nat) (st : SeatState) : run SeatState :=
  match b with
  | O => Done st
  | S b' =>
      if (0 <? ss_remaining st)%nat
      then match getSortedSubjects (ss_groups st) with
           | [] => Done st
           | _ :: _ =>
               st' <- seat_loop room benchIdx (loop_bound (seatsPerBench room)) 0 [] st ;;
               bench_loop room b' (benchIdx + 1) st'
           end
      else Done st
  end.

(** One call of the callback of [roomAssignments.forEach]; the state is
    the pair of [assignments] and [diagnostics.conflicts]. *)
Definition assign_room (acc : list Assignment * list Conflict) (ra : RoomAlloc)
  : run (list Assignment * list Conflict) :=
  let room := ra_room ra in
  roomSubjectGroups <- groupStudents (ra_students ra) ;;
  let st0 := mkSeatState roomSubjectGroups
                         (List.length (ra_students ra)) (fst acc) (snd acc) in
  st <- bench_loop room (loop_bound (num_benches room)) 0 st0 ;;
  Done (ss_assignments st,
        if (0 <? ss_remaining st)%nat
        then ss_conflicts st ++ [overflow_conflict room]
        else ss_conflicts st).

Fixpoint assign_rooms (ras : list RoomAlloc) (acc : list Assignment * list Conflict)
  : run (list Assignment * list Conflict) :=
  match ras with
  | [] => Done acc
  | ra :: rest => acc' <- assign_room acc ra ;; assign_rooms rest acc'
  end.

Definition capacity_message (n : nat) (total : num) : string :=
  "Not enough capacity. Need " ++ show_nat n ++ " seats but have "
  ++ show_num total ++ ".".

Definition infeasible_message (maxCount n : nat) : string :=
  "Subject with " ++ show_nat maxCount
  ++ " students cannot be seated with bench constraint. Maximum allowed: "
  ++ show_nat (ceil_half n).

(** [maxSubjectCount > Math.ceil(requiredSeats / 2)]. *)
Definition over_half (m : jsmax) (n : nat) : bool :=
  match m with
  | NegInfinity => false
  | Finite k => (ceil_half n <? k)%nat
  end.

Definition jsmax_value (m : jsmax) : nat :=
  match m with
  | NegInfinity => 0
  | Finite k => k
  end.

Definition greedyPairScheduler (fuel : nat) (students : list Student)
  (rooms : list Room) : run Result :=
  subjectGroups <- groupStudents students ;;
  let total := totalCapacity rooms in
  if num_gtb (num_of_nat (List.length students)) total
  then Done (mkResult false []
               (mkDiagnostics false []
                  [capacity_message (List.length students) total]) [])
  else
    let maxCount := max_count subjectGroups in
    let requiredSeats := List.length students in
    if over_half maxCount requiredSeats
    then Done (mkResult false []
                 (mkDiagnostics false
                    [mkConflict infeasible None None
                       (infeasible_message (jsmax_value maxCount) requiredSeats)]
                    []) [])
    else
      ras <- distribute fuel students rooms ;;
      placed <- assign_rooms ras ([], []) ;;
      let '(assigned, found) := placed in
      Done (mkResult (true && (List.length found =? 0)%nat) assigned
              (mkDiagnostics true found [])
              (generateRoomSummaries assigned rooms)).

(** ** [schedule] *)

Definition validation_failure (errors : list string) : Result :=
  mkResult false []
    (mkDiagnostics false (map (fun e => mkConflict validation None None e) errors) [])
    [].

(** [processedStudents]: the copy of the students, shuffled when a seed
    is given. *)
(** The options give no seed, or one of [seed_exact]. *)
Definition seed_in_range (options : Options) : bool :=
  match seed options with
  | Some sd => seed_exact sd
  | None => true
  end.

Definition processedStudents (floorScaled : Z -> nat -> Z)
  (students : list Student) (options : Options) : option (list Student) :=
  match seed options with
  | Some sd => seededShuffle floorScaled students sd
  | None => Some students
  end.

(** A shuffle that read outside the array leaves [undefined] among the
    students, and the scheduler throws on its first look at it. *)
Definition schedule (floorScaled : Z -> nat -> Z) (fuel : nat)
  (students : list Student) (rooms : list Room) (options : Options) : run Result :=
  let validationErrors := validateConstraints students rooms in
  if (0 <? List.length validationErrors)%nat
  then Done (validation_failure validationErrors)
  else
    match processedStudents floorScaled students options with
    | None => TypeError
    | Some processedStudents =>
        match algorithm options with
        | Some "greedy" => greedyPairScheduler fuel processedStudents rooms
        | _ => greedyPairScheduler fuel processedStudents rooms
        end
    end.

(** Exact-arithmetic stand-in for the double computation of the shuffle
    index, used to run examples. *)
Definition floorScaled_exact (random : Z) (m : nat) : Z :=
  (random * Z.of_nat m / 233280)%Z.

Definition no_options : Options := mkOptions None None None.

Definition sampleStudents : list Student :=
  [ mkStudent "1043-1" "Ajay" "BBA" None;
    mkStudent "1043-2" "Vijay" "BBA" None;
    mkStudent "1043-3" "Sanjay" "BBA" None;
    mkStudent "1076-1" "Rahul" "BCom" None;
    mkStudent "1076-2" "Rohit" "BCom" None;
    mkStudent "1061-1" "Neha" "BCA" None;
    mkStudent "1061-2" "Priya" "BCA" None;
    mkStudent "1061-3" "Sneha" "BCA" None ].

Definition sampleRooms : list Room :=
  [ mkRoom "R1" "Room 1" (JNum 4) (JNum 2) ].

(** ** Notions used to state the properties *)

(** Rooms as the data model wants them: both dimensions positive integers. *)
Definition room_ok (r : Room) : bool :=
  match num_benches r, seats_per_bench r with
  | JNum b, JNum k => ((0 <? b) && (0 <? k))%Z
  | _, _ => false
  end.

(** Rooms whose capacities the code adds up exactly: every dimension
    that is a number is at most 2^53 in absolute value, and so is the sum
    of the absolute values of the products [num_benches * seats_per_bench],
    so that no product and no partial sum leaves the integers a double
    holds exactly. *)
Definition dimension_size (v : jsval) : Z :=
  match v with
  | JNum z => Z.abs z
  | _ => 0%Z
  end.

Definition rooms_exact (rooms : list Room) : bool :=
  forallb (fun r =>
             (dimension_size (num_benches r) <=? 9007199254740992)%Z &&
             (dimension_size (seats_per_bench r) <=? 9007199254740992)%Z) rooms &&
  (fold_right (fun r total =>
                 (dimension_size (num_benches r) * dimension_size (seats_per_bench r)
                  + total)%Z) 0%Z rooms
   <=? 9007199254740992)%Z.

Definition capacity_nat (r : Room) : nat :=
  loop_bound (num_benches r) * loop_bound (seats_per_bench r).

Definition count_subject (subj : string) (students : list Student) : nat :=
  List.length (filter (fun s => String.eqb (subject s) subj) students).

(** The size of the largest subject group. *)
Definition largest_group (students : list Student) : nat :=
  list_max (map (fun s => count_subject (subject s) students) students).

Definition all_students (groups : obj (list Student)) : list Student :=
  List.concat (map snd groups).

Definition placed_students (ras : list RoomAlloc) : list Student :=
  List.concat (map ra_students ras).

Definition seat_key (a : Assignment) : string * nat * string :=
  (a_room_id a, bench_number a, position a).

Definition a_subject (a : Assignment) : string := subject (student a).

Definition same_bench (a b : Assignment) : Prop :=
  a_room_id a = a_room_id b /\ bench_number a = bench_number b.

(** Every two entries of the list satisfy [R], whichever comes first. *)
Fixpoint pairwise {A : Type} (R : A -> A -> Prop) (l : list A) : Prop :=
  match l with
  | [] => True
  | x :: l' => Forall (R x) l' /\ pairwise R l'
  end.

Definition bench_compatible (a b : Assignment) : Prop :=
  same_bench a b -> a_subject a <> a_subject b.

Definition has_type (t : ConflictType) (c : Conflict) : bool :=
  match t, c_type c with
  | validation, validation => true
  | infeasible, infeasible => true
  | constraint, constraint => true
  | overflow, overflow => true
  | _, _ => false
  end.

(** *** The compaction rule in the words of the specification *)










Definition spec_show_span (sp : Z * Z) : string :=
  if (fst sp =? snd sp)%Z then show_Z (fst sp)
  else show_Z (fst sp) ++ " to " ++ show_Z (snd sp).




Definition has_dash_pattern (r : string) : bool :=
  match match_dash r EmptyString with
  | Some _ => true
  | None => false
  end.

(** *** Invariants of the seat assigner *)

(** Every group is non-empty and holds students of its own subject. *)
Definition groups_ok (groups : obj (list Student)) : Prop :=
  Forall (fun kv => snd kv <> [] /\ Forall (fun s => subject s = fst kv) (snd kv))
         groups.

(** The state is as the loops keep it: [remainingStudents] counts the
    students still grouped. *)
Definition state_ok (st : SeatState) : Prop :=
  groups_ok (ss_groups st) /\
  ss_remaining st = List.length (all_students (ss_groups st)).

(** What a stretch of the seat loops of [room] turns [st] into: it
    appends the assignments [new] and the conflicts [extra]. *)
Record seats_added (room : Room) (st st' : SeatState)
  (new : list Assignment) (extra : list Conflict) : Prop := mkSeatsAdded {
  sa_assignments : ss_assignments st' = ss_assignments st ++ new;
  sa_conflicts : ss_conflicts st' = ss_conflicts st ++ extra;
  sa_state : state_ok st';
  sa_students :
    Permutation (all_students (ss_groups st))
                (map student new ++ all_students (ss_groups st'));
  sa_room :
    Forall (fun a => a_room_id a = room_id room /\ a_room_name a = room_name room) new;
  sa_constraint : Forall (fun c => c_type c = constraint) extra
}.

Definition bench_key (a : Assignment) : nat * string :=
  (bench_number a, position a).

Definition subjects_differ_on_bench (a b : Assignment) : Prop :=
  bench_number a = bench_number b -> a_subject a <> a_subject b.

Definition benches_of (room : Room) : nat := loop_bound (num_benches room).

Definition seats_of (room : Room) : nat := loop_bound (seatsPerBench room).

(** What the seat assigner does with one room: the assignments [new] and
    the conflicts [extra] it appends. *)
Definition room_seated (ra : RoomAlloc) (new : list Assignment)
  (extra : list Conflict) : Prop :=
  Forall (fun a => a_room_id a = room_id (ra_room ra) /\
                   a_room_name a = room_name (ra_room ra)) new /\
  NoDup (map bench_key new) /\
  (exists left, Permutation (ra_students ra) (map student new ++ left)) /\
  List.length new =
    Nat.min (benches_of (ra_room ra) * seats_of (ra_room ra))
            (List.length (ra_students ra)) /\
  (List.length (ra_students ra) <= benches_of (ra_room ra) * seats_of (ra_room ra) ->
   Forall (fun c => c_type c = constraint) extra) /\
  (extra = [] ->
   pairwise subjects_differ_on_bench new /\
   List.length new = List.length (ra_students ra)) /\
  Forall (fun c => c_type c = constraint \/ c_type c = overflow) extra.

(** *** Invariants of the room distributor *)

(** [ras] are the allocations of [rooms], room by room. *)
Definition allocs_of (rooms : list Room) (ras : list RoomAlloc) : Prop :=
  map ra_room ras = rooms /\
  Forall (fun ra => ra_capacity ra = room_capacity (ra_room ra)) ras.

(** The room holds no more students than its capacity. *)
Definition fits (ra : RoomAlloc) : bool :=
  num_geb (ra_capacity ra) (num_of_nat (List.length (ra_students ra))).

Definition total_seats (rooms : list Room) : nat :=
  list_sum (map capacity_nat rooms).

(** *** Example inputs *)

Definition emptyResult : Result := mkResult false [] (mkDiagnostics false [] []) [].

Definition result_of (x : run Result) : Result :=
  match x with
  | Done r => r
  | _ => emptyResult
  end.

(** The run of the test suite's basic scenario. *)
Definition sampleResult : Result :=
  Eval vm_compute in
    result_of (schedule floorScaled_exact 1 sampleStudents sampleRooms no_options).

(** Two rooms entered under the same identifier. *)
Definition twinRooms : list Room :=
  [ mkRoom "R1" "Room 1" (JNum 1) (JNum 2);
    mkRoom "R1" "Room 2" (JNum 1) (JNum 2) ].

Definition twinStudents : list Student :=
  [ mkStudent "1" "A" "BBA" None;
    mkStudent "2" "B" "BBA" None;
    mkStudent "3" "C" "BCom" None;
    mkStudent "4" "D" "BCom" None ].

Definition twinResult : Result :=
  Eval vm_compute in
    result_of (schedule floorScaled_exact 2 twinStudents twinRooms no_options).

(** Ten students of one subject and one of another (the imbalance
    scenario), in a room with twelve seats. *)
Definition imbalancedStudents : list Student :=
  map (fun i => mkStudent (show_nat i) ("S" ++ show_nat i) "BBA" None) (seq 0 10)
  ++ [mkStudent "100" "Sole" "BCom" None].

Definition largeRoom : list Room :=
  [ mkRoom "R1" "Room 1" (JNum 6) (JNum 2) ].

Definition imbalancedResult : Result :=
  Eval vm_compute in
    result_of (schedule floorScaled_exact 1 imbalancedStudents largeRoom no_options).



(** A room whose [num_benches] is missing. *)
Definition brokenRooms : list Room :=
  [ mkRoom "R1" "Room 1" JUndefined (JNum 2) ].

Definition loneStudent : list Student :=
  [ mkStudent "1" "A" "BBA" None ].

Definition brokenResult : Result :=
  Eval vm_compute in
    result_of (schedule floorScaled_exact 1 loneStudent brokenRooms no_options).


Definition exampleAssignments : list Assignment :=
  [ mkAssignment "R1" "Room 1" 1 "left" (mkStudent "10-5" "D" "BBA" None);
    mkAssignment "R1" "Room 1" 2 "left" (mkStudent "10-2" "B" "BBA" None);
    mkAssignment "R1" "Room 1" 3 "left" (mkStudent "10-1" "A" "BBA" None);
    mkAssignment "R1" "Room 1" 4 "left" (mkStudent "10-3" "C" "BBA" None) ].

Definition exampleSummary : RoomSummary :=
  Eval vm_compute in room_summary exampleAssignments (hd (mkRoom "" "" JNaN JNaN) sampleRooms).


(** The test of the preferred-room lookup, on a room. *)
Definition matches_room (p : string) (r : Room) : bool :=
  String.eqb (room_name r) p || String.eqb (room_id r) p.

(** The preferred-room scenario of the test suite. *)
Definition studentsWithPreference : list Student :=
  [ mkStudent "1" "A" "BBA" (Some "Room 1");
    mkStudent "2" "B" "BCom" (Some "Room 1") ].

Definition multiRooms : list Room :=
  [ mkRoom "R1" "Room 1" (JNum 2) (JNum 2);
    mkRoom "R2" "Room 2" (JNum 2) (JNum 2) ].

Definition preferenceResult : Result :=
  Eval vm_compute in
    result_of (schedule floorScaled_exact 2 studentsWithPreference multiRooms no_options).

(** Two rooms called "Hall", the first with a single seat, and a room in
    between. *)
Definition hallRooms : list Room :=
  [ mkRoom "R1" "Hall" (JNum 1) (JNum 1);
    mkRoom "R2" "Annex" (JNum 1) (JNum 2);
    mkRoom "R3" "Hall" (JNum 1) (JNum 2) ].

Definition hallStudents : list Student :=
  [ mkStudent "1" "A" "BBA" (Some "Hall");
    mkStudent "2" "B" "BCom" (Some "Hall") ].

Definition hallResult : Result :=
  Eval vm_compute in
    result_of (schedule floorScaled_exact 3 hallStudents hallRooms no_options).

(** *** The two results of a failed feasibility check *)

Definition capacity_failure (n : nat) (total : num) : Result :=
  mkResult false [] (mkDiagnostics false [] [capacity_message n total]) [].

Definition subject_failure (maxCount n : nat) : Result :=
  mkResult false []
    (mkDiagnostics false
       [mkConflict infeasible None None (infeasible_message maxCount n)] [])
    [].

(** *** The seats of a room *)

(** [a] sits on one of the benches of [room], on one of the seats of
    that bench, under the label of that seat. *)
Definition seat_in_room (room : Room) (a : Assignment) : Prop :=
  1 <= bench_number a <= benches_of room /\
  exists seatIdx, seatIdx < seats_of room /\
    position a = (if strict_eq_lit (seatsPerBench room) 2
                  then nth seatIdx ["left"; "right"] ""
                  else seat_label seatIdx).

(** What else the seat assigner does with one room: where it seats, when
    it reports an overflow, and what it makes of an empty subject. *)
Definition room_layout (ra : RoomAlloc) (new : list Assignment)
  (extra : list Conflict) : Prop :=
  Forall (seat_in_room (ra_room ra)) new /\
  existsb (has_type overflow) extra
    = (List.length new <? List.length (ra_students ra))%nat /\
  (extra = [] -> Forall (fun a => a_subject a <> "") new).

(** A student whose subject was left empty, alone in a room. *)
Definition unlabelledStudents : list Student :=
  [ mkStudent "1" "A" "" None ].

Definition unlabelledResult : Result :=
  Eval vm_compute in
    result_of (schedule floorScaled_exact 1 unlabelledStudents sampleRooms no_options).

(** *** Groups that two-seat benches can take *)

(** The groups of a room are [balanced] when each subject has its own
    group, no subject is empty and no group holds more than half of the
    students, rounded up. *)
Definition balanced (groups : obj (list Student)) : Prop :=
  NoDup (obj_keys groups) /\ ~ In "" (obj_keys groups) /\
  forall k, 2 * count_subject k (all_students groups)
            <= List.length (all_students groups) + 1.

(** ** The pages around the engine *)

(** *** The subject tally of the upload page (app.js) *)

(** [student.subject || 'Unknown']. *)
Definition display_subject (s : Student) : string :=
  if str_truthy (subject s) then subject s else "Unknown".

Definition computeSubjectCounts (students : list Student) : obj nat :=
  fold_left (fun acc s => obj_incr acc (display_subject s)) students [].

(** *** The room list of the page (app.js) *)

(** The submit handler of the room form, from the room it has read off
    the form: it gives up when the id or the name is empty, replaces the
    room that has the id, and appends the room otherwise. *)
Definition submitRoom (rooms : list Room) (room : Room) : list Room :=
  if negb (str_truthy (room_id room)) || negb (str_truthy (room_name room))
  then rooms
  else match find_index (fun r => String.eqb (room_id r) (room_id room)) rooms with
       | Some existingIndex => list_set rooms existingIndex room
       | None => rooms ++ [room]
       end.

Definition handleRoomRemoval (rooms : list Room) (roomId : string) : list Room :=
  filter (fun room => negb (String.eqb (room_id room) roomId)) rooms.

(** What the user does to the room list. *)
Inductive RoomAction : Type :=
| SubmitRoom (room : Room)
| RemoveRoom (roomId : string).

Definition room_action (rooms : list Room) (act : RoomAction) : list Room :=
  match act with
  | SubmitRoom room => submitRoom rooms room
  | RemoveRoom roomId => handleRoomRemoval rooms roomId
  end.

(** *** The room list of the React client *)

(** [array.filter((x, i) => f(x, i))], from index [i] on. *)
Fixpoint filter_index {A : Type} (f : A -> nat -> bool) (l : list A) (i : nat)
  : list A :=
  match l with
  | [] => []
  | x :: l' => if f x i then x :: filter_index f l' (i + 1)
               else filter_index f l' (i + 1)
  end.

Definition handleAddRoom (rooms : list Room) : list Room :=
  rooms ++ [mkRoom ("R" ++ show_nat (List.length rooms + 1))
                   ("Room " ++ show_nat (List.length rooms + 1))
                   (JNum 11) (JNum 2)].

Definition handleRemoveRoom (rooms : list Room) (index : nat) : list Room :=
  filter_index (fun _ i => negb (i =? index)%nat) rooms 0.

(** *** Reading the student list (parseCsv of app.js, parseCSV of the server) *)

(** [s.trim()], for ASCII white space: [skip_spaces] is the trimming of
    the front. *)
Fixpoint trim_end (s : string) : string :=
  match s with
  | EmptyString => EmptyString
  | String c s' =>
      match trim_end s' with
      | EmptyString => if is_space c then EmptyString else String c EmptyString
      | t => String c t
      end
  end.

Definition trim (s : string) : string := trim_end (skip_spaces s).

(** Puts [c] in front of the first piece. *)
Definition extend_piece (c : ascii) (pieces : list string) : list string :=
  match pieces with
  | [] => [String c EmptyString]
  | w :: ws => String c w :: ws
  end.

(** [s.split(sep)] for a separator of one character. *)
Fixpoint split_on (sep : ascii) (s : string) : list string :=
  match s with
  | EmptyString => [EmptyString]
  | String c s' =>
      if Ascii.eqb c sep then EmptyString :: split_on sep s'
      else extend_piece c (split_on sep s')
  end.

(** [s.split(/\r?\n/)]: a line ends at a line feed, or at a carriage
    return that a line feed follows. *)
Fixpoint split_lines (s : string) : list string :=
  match s with
  | EmptyString => [EmptyString]
  | String c s' =>
      if Ascii.eqb c "010" then EmptyString :: split_lines s'
      else
        match s' with
        | String c' s'' =>
            if Ascii.eqb c "013" && Ascii.eqb c' "010"
            then EmptyString :: split_lines s''
            else extend_piece c (split_lines s')
        | EmptyString => [String c EmptyString]
        end
  end.

(** [o[k] = v] for a value [v] that is a string: under the name
    ["__proto__"] the assignment goes to the setter the object inherits,
    which drops a value that is no object; under any other name it makes
    or overwrites the object's own field. *)
Definition obj_set {V : Type} (o : obj V) (k : string) (v : V) : obj V :=
  if String.eqb k "__proto__" then o
  else
    match obj_get o k with
    | Some _ => obj_update o k (fun _ => v)
    | None => obj_add o k v
    end.

(** [headers.forEach((header, idx) => { entry[header] = values[idx] || '' })]
    on a fresh [entry]. *)
Definition csv_entry (headers values : list string) : obj string :=
  fold_left (fun entry hi => obj_set entry (fst hi) (nth (snd hi) values ""))
            (combine headers (seq 0 (List.length headers))) [].

(** [entry.key || '']. *)
Definition entry_field (entry : obj string) (key : string) : string :=
  match obj_get entry key with
  | Some v => v
  | None => ""
  end.

(** The student read off an entry; [roll], [name] and [subject] are
    columns of every entry that gets this far. *)
Definition entry_student (entry : obj string) : Student :=
  mkStudent (entry_field entry "roll") (entry_field entry "name")
            (entry_field entry "subject") (Some (entry_field entry "preferred_room")).

Inductive parsed (A : Type) : Type :=
| Parsed (a : A)
| ParseError (message : string).

Arguments Parsed {A} a.
Arguments ParseError {A} message.

Definition requiredColumns : list string := ["roll"; "name"; "subject"].

Definition parseCsv (content : string) : parsed (list Student) :=
  let lines := split_lines (trim content) in
  if (List.length lines <? 2)%nat
  then ParseError "CSV must include headers and at least one data row."
  else
    let headers := map trim (split_on "," (hd "" lines)) in
    let missing := filter (fun key => negb (str_mem key headers)) requiredColumns in
    if (0 <? List.length missing)%nat
    then ParseError ("Missing required columns: " ++ String.concat ", " missing)
    else
      Parsed
        (fold_left
           (fun records l =>
              let line := trim l in
              if str_truthy line
              then records ++ [entry_student
                                 (csv_entry headers (map trim (split_on "," line)))]
              else records)
           (tl lines) []).

(** The server's parser: it checks nothing and returns the entries. *)
Definition parseCSV (content : string) : list (obj string) :=
  let lines := split_on "010" (trim content) in
  let headers := map trim (split_on "," (hd "" lines)) in
  fold_left
    (fun data l =>
       if String.eqb (trim l) ""
       then data
       else data ++ [csv_entry headers (map trim (split_on "," l))])
    (tl lines) [].

Definition crlf : string := String "013" (String "010" "").

(** The text of a student file, with a blank line and Windows line ends. *)
Definition sampleCsv : string :=
  (String "010" " roll , name,subject,preferred_room" ++ crlf
   ++ "1043-1, Ajay ,BBA,Room 1" ++ crlf ++ crlf
   ++ "1076-1,Rahul,BCom" ++ String "010" "  ")%string.

Definition sampleCsvStudents : list Student :=
  [ mkStudent "1043-1" "Ajay" "BBA" (Some "Room 1");
    mkStudent "1076-1" "Rahul" "BCom" (Some "") ].


(** * Properties *)

(** ** Lists *)

Section ListFacts.

Context {A : Type}.

Lemma list_set_length (l : list A) (i : nat) (x : A) :
  List.length (list_set l i x) = List.length l.
Proof.
  revert i; induction l as [|y l IH]; intros [|i]; simpl; auto.
Qed.

Lemma nth_error_list_set_same (l : list A) (i : nat) (x : A) :
  i < List.length l -> nth_error (list_set l i x) i = Some x.
Proof.
  revert i; induction l as [|y l IH]; intros [|i] H; simpl in *; try lia; auto.
  apply IH; lia.
Qed.

Lemma nth_error_list_set_other (l : list A) (i j : nat) (x : A) :
  i <> j -> nth_error (list_set l i x) j = nth_error l j.
Proof.
  revert i j; induction l as [|y l IH]; intros [|i] [|j] H; simpl; auto;
    try congruence.
Qed.

Lemma list_set_perm_cons (l : list A) (i : nat) (u t : A) :
  nth_error l i = Some u -> Permutation (t :: l) (u :: list_set l i t).
Proof.
  revert i; induction l as [|y l IH]; intros [|i] H; simpl in *; try discriminate.
  - injection H as ->. apply perm_swap.
  - rewrite perm_swap. rewrite (IH i H). apply perm_swap.
Qed.

Lemma list_set_swap_perm (l : list A) (m i : nat) (t u : A) :
  nth_error l m = Some t -> nth_error l i = Some u ->
  Permutation l (list_set (list_set l m u) i t).
Proof.
  revert m i; induction l as [|y l IH]; intros [|m] [|i] Hm Hi; simpl in *;
    try discriminate.
  - injection Hm as ->. injection Hi as ->. reflexivity.
  - injection Hm as ->. now apply list_set_perm_cons.
  - injection Hi as ->. now apply list_set_perm_cons.
  - constructor. now apply IH.
Qed.

Lemma list_set_concat_perm (f : A -> list Student) (l : list A) (i : nat) (x y : A)
  (s : Student) :
  nth_error l i = Some x -> f y = f x ++ [s] ->
  Permutation (List.concat (map f (list_set l i y))) (s :: List.concat (map f l)).
Proof.
  revert i; induction l as [|z l IH]; intros [|i] H E; simpl in *; try discriminate.
  - injection H as ->. rewrite E, <- app_assoc. simpl.
    symmetry. apply Permutation_middle.
  - rewrite (IH i H E). symmetry. apply Permutation_middle.
Qed.

Lemma unsnoc_spec (l init : list A) (z : A) :
  unsnoc l = Some (init, z) -> l = init ++ [z].
Proof.
  revert init; induction l as [|x l IH]; intros init H; simpl in H; try discriminate.
  destruct (unsnoc l) as [[i0 z0]|] eqn:E.
  - injection H as <- <-. simpl. f_equal. now apply IH.
  - injection H as <- <-. destruct l; [reflexivity|].
    simpl in E. destruct (unsnoc l) as [[? ?]|]; discriminate.
Qed.

Lemma unsnoc_none (l : list A) : unsnoc l = None -> l = [].
Proof.
  destruct l as [|x l]; simpl; auto.
  destruct (unsnoc l) as [[? ?]|]; discriminate.
Qed.

Lemma insert_by_perm (before : A -> A -> bool) (x : A) (l : list A) :
  Permutation (insert_by before x l) (x :: l).
Proof.
  induction l as [|y l IH]; simpl; auto.
  destruct (before x y); auto.
  rewrite IH. apply perm_swap.
Qed.

Lemma sort_by_perm (before : A -> A -> bool) (l : list A) :
  Permutation (sort_by before l) l.
Proof.
  induction l as [|x l IH]; simpl; auto.
  rewrite insert_by_perm. now constructor.
Qed.

Lemma pairwise_app (R : A -> A -> Prop) (l1 l2 : list A) :
  pairwise R (l1 ++ l2) <->
  pairwise R l1 /\ pairwise R l2 /\ (forall a b, In a l1 -> In b l2 -> R a b).
Proof.
  induction l1 as [|x l1 IH]; simpl.
  - intuition.
  - rewrite Forall_app, IH. split.
    + intros [[H1 H2] (H3 & H4 & H5)]. repeat split; auto.
      intros a b [<-|Ha] Hb; auto.
      rewrite Forall_forall in H2. auto.
    + intros ([H1 H2] & H3 & H4). repeat split; auto.
      rewrite Forall_forall. auto.
Qed.

Lemma pairwise_split (R : A -> A -> Prop) (l l1 l2 l3 : list A) (a b : A) :
  pairwise R l -> l = l1 ++ a :: l2 ++ b :: l3 -> R a b.
Proof.
  intros H ->. apply pairwise_app in H as (_ & H & _).
  simpl in H. destruct H as [H _].
  rewrite Forall_forall in H. apply H, in_or_app. right. now left.
Qed.

End ListFacts.

(** ** Objects *)

Section ObjFacts.

Context {V : Type}.

Lemma obj_add_index_perm (o : obj V) (n : Z) (k : string) (v : V) :
  Permutation (obj_add_index o n k v) ((k, v) :: o).
Proof.
  induction o as [|[k' v'] o IH]; simpl; auto.
  destruct (array_index k'); auto.
  destruct (n <? z)%Z; auto.
  rewrite IH. apply perm_swap.
Qed.

Lemma obj_add_perm (o : obj V) (k : string) (v : V) :
  Permutation (obj_add o k v) ((k, v) :: o).
Proof.
  unfold obj_add. destruct (array_index k).
  - apply obj_add_index_perm.
  - symmetry. apply Permutation_cons_append.
Qed.

Lemma obj_get_add_index (o : obj V) (n : Z) (k k' : string) (v : V) :
  obj_get o k = None ->
  obj_get (obj_add_index o n k v) k' =
  if String.eqb k' k then Some v else obj_get o k'.
Proof.
  induction o as [|[k1 v1] o IH]; simpl; intros H; auto.
  destruct (String.eqb k k1) eqn:E1; [discriminate|].
  destruct (array_index k1) as [n1|]; simpl; auto.
  destruct (n <? n1)%Z; simpl; auto.
  rewrite (IH H).
  destruct (String.eqb k' k1) eqn:E2; auto.
  apply String.eqb_eq in E2. subst k1.
  destruct (String.eqb k' k) eqn:E3; auto.
  apply String.eqb_eq in E3. subst k'. rewrite String.eqb_refl in E1. discriminate.
Qed.

Lemma obj_get_app (o1 o2 : obj V) (k : string) :
  obj_get (o1 ++ o2) k =
  match obj_get o1 k with Some v => Some v | None => obj_get o2 k end.
Proof.
  induction o1 as [|[k1 v1] o1 IH]; simpl; auto.
  destruct (String.eqb k k1); auto.
Qed.

Lemma obj_get_add (o : obj V) (k k' : string) (v : V) :
  obj_get o k = None ->
  obj_get (obj_add o k v) k' =
  if String.eqb k' k then Some v else obj_get o k'.
Proof.
  intros H. unfold obj_add. destruct (array_index k).
  - now apply obj_get_add_index.
  - rewrite obj_get_app. simpl.
    destruct (String.eqb k' k) eqn:E.
    + apply String.eqb_eq in E. subst k'. now rewrite H.
    + now destruct (obj_get o k').
Qed.

Lemma obj_get_update (o : obj V) (k k' : string) (f : V -> V) :
  obj_get (obj_update o k f) k' =
  if String.eqb k' k then option_map f (obj_get o k) else obj_get o k'.
Proof.
  induction o as [|[k1 v1] o IH]; simpl.
  - now destruct (String.eqb k' k).
  - destruct (String.eqb k k1) eqn:E1; simpl.
    + apply String.eqb_eq in E1. subst k1.
      now destruct (String.eqb k' k).
    + rewrite IH. destruct (String.eqb k' k1) eqn:E2; auto.
      apply String.eqb_eq in E2. subst k1.
      rewrite String.eqb_sym, E1. reflexivity.
Qed.

Lemma obj_keys_update (o : obj V) (k : string) (f : V -> V) :
  obj_keys (obj_update o k f) = obj_keys o.
Proof.
  unfold obj_keys. induction o as [|[k1 v1] o IH]; simpl; auto.
  destruct (String.eqb k k1); simpl; congruence.
Qed.

Lemma obj_get_In (o : obj V) (k : string) (v : V) :
  obj_get o k = Some v -> In (k, v) o.
Proof.
  induction o as [|[k1 v1] o IH]; simpl; try discriminate.
  destruct (String.eqb k k1) eqn:E; intros H.
  - apply String.eqb_eq in E. injection H as ->. subst. now left.
  - right. now apply IH.
Qed.

Lemma obj_get_None (o : obj V) (k : string) :
  obj_get o k = None <-> ~ In k (obj_keys o).
Proof.
  unfold obj_keys. induction o as [|[k1 v1] o IH]; simpl.
  - intuition.
  - destruct (String.eqb k k1) eqn:E.
    + apply String.eqb_eq in E. subst. split; [discriminate|]. intros H. exfalso. auto.
    + apply String.eqb_neq in E. rewrite IH. intuition congruence.
Qed.

Lemma obj_keys_In (o : obj V) (k : string) :
  In k (obj_keys o) -> exists v, obj_get o k = Some v.
Proof.
  intros H. destruct (obj_get o k) eqn:E; eauto.
  apply obj_get_None in E. contradiction.
Qed.

End ObjFacts.

(** ** Subject groups *)

Lemma perm_snoc_middle {A : Type} (a l p : list A) (s : A) :
  Permutation (a ++ (l ++ [s]) ++ p) (s :: a ++ l ++ p).
Proof.
  rewrite <- app_assoc. simpl.
  transitivity (a ++ s :: l ++ p).
  - apply Permutation_app_head. symmetry. apply Permutation_middle.
  - symmetry. apply Permutation_middle.
Qed.

Lemma obj_split {V : Type} (o : obj V) (k : string) (v : V) :
  obj_get o k = Some v ->
  exists pre post,
    o = pre ++ (k, v) :: post /\
    (forall f, obj_update o k f = pre ++ (k, f v) :: post) /\
    obj_delete o k = pre ++ post.
Proof.
  induction o as [|[k1 v1] o IH]; simpl; try discriminate.
  destruct (String.eqb k k1) eqn:E; intros H.
  - apply String.eqb_eq in E. subst k1. injection H as ->.
    exists [], o. repeat split; auto.
  - destruct (IH H) as (pre & post & -> & Hu & Hd).
    exists ((k1, v1) :: pre), post. simpl. repeat split.
    + intros f. now rewrite Hu.
    + now rewrite Hd.
Qed.

Lemma all_students_app (g1 g2 : obj (list Student)) :
  all_students (g1 ++ g2) = all_students g1 ++ all_students g2.
Proof.
  unfold all_students. now rewrite map_app, concat_app.
Qed.

Lemma all_students_perm (g1 g2 : obj (list Student)) :
  Permutation g1 g2 -> Permutation (all_students g1) (all_students g2).
Proof.
  unfold all_students. induction 1; simpl; auto.
  - now apply Permutation_app_head.
  - rewrite !app_assoc. apply Permutation_app_tail, Permutation_app_comm.
  - etransitivity; eauto.
Qed.

Lemma obj_push_students (g : obj (list Student)) (s : Student) :
  Permutation (all_students (obj_push g (subject s) s)) (s :: all_students g).
Proof.
  unfold obj_push. destruct (obj_get g (subject s)) as [l|] eqn:E.
  - destruct (obj_split _ _ _ E) as (pre & post & -> & Hu & _).
    rewrite Hu, !all_students_app.
    change (all_students ((subject s, l ++ [s]) :: post))
      with ((l ++ [s]) ++ all_students post).
    change (all_students ((subject s, l) :: post)) with (l ++ all_students post).
    apply perm_snoc_middle.
  - rewrite (all_students_perm _ _ (obj_add_perm g (subject s) [s])).
    reflexivity.
Qed.

Lemma obj_push_groups_ok (g : obj (list Student)) (s : Student) :
  groups_ok g -> groups_ok (obj_push g (subject s) s).
Proof.
  unfold groups_ok, obj_push. intros H.
  destruct (obj_get g (subject s)) as [l|] eqn:E.
  - destruct (obj_split _ _ _ E) as (pre & post & -> & Hu & _).
    rewrite Hu. apply Forall_app in H as [H1 H2].
    apply Forall_app. split; auto.
    inversion H2 as [|? ? [_ Hk] H3]; subst. constructor; auto. simpl in *.
    split.
    + now destruct l.
    + apply Forall_app. split; auto.
  - eapply Permutation_Forall.
    + symmetry. apply obj_add_perm.
    + constructor; auto. simpl. split; [discriminate|]. auto.
Qed.

Lemma groupBySubject_fold (students : list Student) (g : obj (list Student)) :
  groups_ok g ->
  groups_ok (fold_left (fun o s => obj_push o (subject s) s) students g) /\
  Permutation
    (all_students (fold_left (fun o s => obj_push o (subject s) s) students g))
    (all_students g ++ students).
Proof.
  revert g; induction students as [|s l IH]; simpl; intros g H.
  - now rewrite app_nil_r.
  - destruct (IH _ (obj_push_groups_ok g s H)) as [H1 H2]. split; auto.
    rewrite H2, obj_push_students. simpl. apply Permutation_middle.
Qed.

Lemma groupBySubject_ok (students : list Student) :
  groups_ok (groupBySubject students) /\
  Permutation (all_students (groupBySubject students)) students.
Proof.
  apply (groupBySubject_fold students []). constructor.
Qed.

(** The grouping returns exactly when no subject is an inherited name,
    and throws otherwise. *)
Lemma group_loop_ok (students : list Student) :
  forall o,
  Forall (fun s => inherited (subject s) = false) students ->
  group_loop students o = Done (fold_left (fun o s => obj_push o (subject s) s) students o).
Proof.
  induction students as [|s l IH]; intros o H; [reflexivity|].
  inversion H as [|? ? Hs Hl]; subst.
  cbn [group_loop fold_left]. unfold group_push. rewrite Hs. cbn [bind]. now apply IH.
Qed.

Lemma group_loop_done (students : list Student) :
  forall o g,
  group_loop students o = Done g ->
  g = fold_left (fun o s => obj_push o (subject s) s) students o /\
  Forall (fun s => inherited (subject s) = false) students.
Proof.
  induction students as [|s l IH]; intros o g; cbn [group_loop fold_left].
  - intros [= <-]. split; [reflexivity|constructor].
  - unfold group_push. destruct (inherited (subject s)) eqn:Hs; [discriminate|].
    cbn [bind]. intros H. destruct (IH _ _ H) as [-> Hl]. split; auto.
Qed.

Lemma group_loop_throws (students : list Student) (s : Student) :
  In s students -> inherited (subject s) = true ->
  forall o, group_loop students o = TypeError.
Proof.
  intros Hin Hs. induction students as [|x l IH]; [contradiction|]. intros o.
  cbn [group_loop]. unfold group_push.
  destruct (inherited (subject x)) eqn:Hx; [reflexivity|]. cbn [bind].
  destruct Hin as [->|Hin]; [congruence|]. now apply IH.
Qed.

Lemma groupStudents_ok (students : list Student) :
  Forall (fun s => inherited (subject s) = false) students ->
  groupStudents students = Done (groupBySubject students).
Proof.
  apply group_loop_ok.
Qed.

Lemma groupStudents_done (students : list Student) (g : obj (list Student)) :
  groupStudents students = Done g ->
  g = groupBySubject students /\
  Forall (fun s => inherited (subject s) = false) students.
Proof.
  apply group_loop_done.
Qed.

Lemma groupStudents_throws (students : list Student) (s : Student) :
  In s students -> inherited (subject s) = true ->
  groupStudents students = TypeError.
Proof.
  intros Hin Hs. now apply (group_loop_throws students s).
Qed.

(** Whether some student's subject is an inherited name. *)
Lemma inherited_subjects_dec (students : list Student) :
  Forall (fun s => inherited (subject s) = false) students \/
  exists s, In s students /\ inherited (subject s) = true.
Proof.
  induction students as [|x l [IH|(s & Hin & Hs)]].
  - left. constructor.
  - destruct (inherited (subject x)) eqn:Hx.
    + right. exists x. split; [now left|exact Hx].
    + left. now constructor.
  - right. exists s. split; [now right|exact Hs].
Qed.

(** Unfolds a run of the scheduler that returned: its first grouping
    went through. *)
Ltac past_grouping students :=
  unfold greedyPairScheduler;
  let Hgroups := fresh "Hgroups" in
  let Hnames := fresh "Hnames" in
  destruct (groupStudents students) as [?groups| |] eqn:Hgroups;
    cbn [bind]; try discriminate;
  apply groupStudents_done in Hgroups; destruct Hgroups as [-> Hnames];
  change (max_count (groupBySubject students)) with (maxSubjectCount students).

(** Unfolds a run of the scheduler on subjects known to be no inherited
    names. *)
Ltac run_grouping H :=
  unfold greedyPairScheduler;
  rewrite (groupStudents_ok _ H); cbn [bind];
  match goal with
  | |- context [max_count (groupBySubject ?l)] =>
      change (max_count (groupBySubject l)) with (maxSubjectCount l)
  end.

Lemma getSortedSubjects_In (g : obj (list Student)) (x : string) :
  In x (getSortedSubjects g) <->
  In x (obj_keys g) /\ obj_list g x <> [].
Proof.
  unfold getSortedSubjects. split.
  - intros H. eapply Permutation_in in H; [|apply sort_by_perm].
    apply filter_In in H as [H1 H2]. split; auto.
    intros E. rewrite E in H2. discriminate.
  - intros [H1 H2]. eapply Permutation_in; [symmetry; apply sort_by_perm|].
    apply filter_In. split; auto.
    destruct (obj_list g x); [contradiction|reflexivity].
Qed.

Lemma getSortedSubjects_nonempty (g : obj (list Student)) :
  groups_ok g -> all_students g <> [] -> getSortedSubjects g <> [].
Proof.
  intros H Hne. destruct g as [|[k l] g]; [now elim Hne|].
  assert (In k (getSortedSubjects ((k, l) :: g))) as Hin.
  { apply getSortedSubjects_In. split; [now left|].
    unfold obj_list. simpl. rewrite String.eqb_refl.
    inversion H as [|? ? [Hl _] _]; subst. exact Hl. }
  intros E. rewrite E in Hin. contradiction.
Qed.

Lemma pop_student_spec (g : obj (list Student)) (chosen : string) :
  groups_ok g -> In chosen (getSortedSubjects g) ->
  exists s g',
    pop_student g chosen = Done (s, g') /\
    subject s = chosen /\
    groups_ok g' /\
    Permutation (all_students g) (s :: all_students g').
Proof.
  intros Hok Hin. apply getSortedSubjects_In in Hin as [_ Hne].
  unfold obj_list in Hne. unfold pop_student.
  destruct (obj_get g chosen) as [l|] eqn:E; [|now elim Hne].
  destruct (unsnoc l) as [[init s]|] eqn:U.
  2:{ apply unsnoc_none in U. contradiction. }
  apply unsnoc_spec in U. subst l.
  destruct (obj_split _ _ _ E) as (pre & post & -> & Hu & Hd).
  unfold groups_ok in Hok. apply Forall_app in Hok as [H1 H2].
  inversion H2 as [|? ? [_ Hk] H3]; subst. simpl in Hk.
  apply Forall_app in Hk as [Hk1 Hk2].
  exists s. destruct init as [|i0 init].
  - exists (pre ++ post). rewrite Hd. repeat split.
    + now inversion Hk2.
    + apply Forall_app. now split.
    + rewrite !all_students_app.
      change (all_students ((chosen, [] ++ [s]) :: post))
        with (s :: all_students post).
      symmetry. apply Permutation_middle.
  - exists (pre ++ (chosen, i0 :: init) :: post). rewrite Hu. repeat split.
    + now inversion Hk2.
    + apply Forall_app. split; auto. constructor; auto. simpl.
      split; [discriminate|auto].
    + rewrite !all_students_app.
      change (all_students ((chosen, (i0 :: init) ++ [s]) :: post))
        with (((i0 :: init) ++ [s]) ++ all_students post).
      change (all_students ((chosen, i0 :: init) :: post))
        with ((i0 :: init) ++ all_students post).
      apply perm_snoc_middle.
Qed.

(** ** Seat labels *)

Lemma to_uint_nonnil (n : nat) : Nat.to_uint n <> Decimal.Nil.
Proof.
  rewrite <- (DecimalNat.Unsigned.of_to n) at 1.
  rewrite DecimalNat.Unsigned.to_of. unfold Decimal.unorm.
  destruct (Decimal.nzhead (Nat.to_uint n)); discriminate.
Qed.

Lemma show_nat_inj (n m : nat) : show_nat n = show_nat m -> n = m.
Proof.
  unfold show_nat. intros H.
  apply DecimalNat.Unsigned.to_uint_inj.
  assert (Some (Nat.to_uint n) = Some (Nat.to_uint m)) as E.
  { rewrite <- (NilZero.usu _ (to_uint_nonnil n)),
            <- (NilZero.usu _ (to_uint_nonnil m)).
    now rewrite H. }
  now injection E.
Qed.

Lemma seat_label_inj (i j : nat) : seat_label i = seat_label j -> i = j.
Proof.
  unfold seat_label. intros H. simpl in H.
  injection H as H. apply show_nat_inj in H. lia.
Qed.

Lemma position_label_cases (room : Room) (i : nat) :
  position_label room i = seat_label i \/
  (i = 0 /\ position_label room i = "left") \/
  (i = 1 /\ position_label room i = "right").
Proof.
  unfold position_label. destruct (positionLabels room) as [labels|] eqn:E; auto.
  unfold positionLabels in E. destruct (strict_eq_lit _ _); [|discriminate].
  injection E as <-.
  destruct i as [|[|i]]; simpl; auto.
  destruct i; simpl; auto.
Qed.

Lemma position_label_inj (room : Room) (i j : nat) :
  position_label room i = position_label room j -> i = j.
Proof.
  intros H.
  destruct (position_label_cases room i) as [Ei|[[-> Ei]|[-> Ei]]];
  destruct (position_label_cases room j) as [Ej|[[-> Ej]|[-> Ej]]];
    auto; rewrite Ei, Ej in H; try discriminate.
  now apply seat_label_inj.
Qed.

Lemma NoDup_map_injective {A B : Type} (f : A -> B) (l : list A) :
  (forall x y, f x = f y -> x = y) -> NoDup l -> NoDup (map f l).
Proof.
  intros Hf. induction 1 as [|x l Hx Hl IH]; simpl; constructor; auto.
  intros Hin. apply in_map_iff in Hin as (y & E & Hy).
  apply Hf in E. subst. contradiction.
Qed.

(** ** The seat loops *)

Lemma choose_subject_spec (available bs : list string) (first chosen : string)
  (respected : bool) :
  In first available ->
  choose_subject available bs first = (chosen, respected) ->
  In chosen available /\ (respected = true -> ~ In chosen bs).
Proof.
  unfold choose_subject. intros Hf.
  destruct (find _ available) as [subj|] eqn:E.
  - apply find_some in E as [E1 E2].
    destruct (str_truthy subj); intros [= <- <-]; split; auto; try discriminate.
    intros _ Hin. apply negb_true_iff in E2.
    unfold str_mem in E2.
    assert (existsb (String.eqb subj) bs = true) as X.
    { apply existsb_exists. exists subj. split; auto. apply String.eqb_refl. }
    congruence.
  - intros [= <- <-]. split; auto. discriminate.
Qed.

Lemma seats_added_refl (room : Room) (st : SeatState) :
  state_ok st -> seats_added room st st [] [].
Proof.
  intros H. constructor; auto; now rewrite ?app_nil_r.
Qed.

Lemma seats_added_trans (room : Room) (st1 st2 st3 : SeatState)
  (new1 new2 : list Assignment) (extra1 extra2 : list Conflict) :
  seats_added room st1 st2 new1 extra1 ->
  seats_added room st2 st3 new2 extra2 ->
  seats_added room st1 st3 (new1 ++ new2) (extra1 ++ extra2).
Proof.
  intros [A1 C1 S1 P1 R1 T1] [A2 C2 S2 P2 R2 T2]. constructor; auto.
  - now rewrite A2, A1, app_assoc.
  - now rewrite C2, C1, app_assoc.
  - rewrite P1, P2, map_app, app_assoc. reflexivity.
  - apply Forall_app. now split.
  - apply Forall_app. now split.
Qed.

(** One seat: the step never throws from a good state, seats one student
    of the chosen subject, and either respects the bench or reports it. *)
Lemma seat_step_spec (room : Room) (benchIdx seatIdx : nat) (bs : list string)
  (st : SeatState) (first : string) :
  state_ok st -> 0 < ss_remaining st ->
  In first (getSortedSubjects (ss_groups st)) ->
  exists st' bs' a extra,
    seat_step room benchIdx seatIdx bs st (getSortedSubjects (ss_groups st)) first
      = Done (st', bs') /\
    seats_added room st st' [a] extra /\
    ss_remaining st' = ss_remaining st - 1 /\
    bench_number a = benchIdx + 1 /\
    position a = position_label room seatIdx /\
    ((extra = [] /\ bs' = a_subject a :: bs /\ ~ In (a_subject a) bs) \/
     (exists c, extra = [c] /\ bs' = bs)).
Proof.
  intros [Hg Hr] Hpos Hfirst. unfold seat_step.
  destruct (choose_subject _ bs first) as [chosen respected] eqn:Ec.
  destruct (choose_subject_spec _ _ _ _ _ Hfirst Ec) as [Hin Hresp].
  destruct (pop_student_spec _ _ Hg Hin) as (s & g' & -> & Hs & Hg' & Hp).
  simpl.
  set (a := mkAssignment (room_id room) (room_name room) (benchIdx + 1)
                         (position_label room seatIdx) s).
  exists (mkSeatState g' (ss_remaining st - 1) (ss_assignments st ++ [a])
            (if respected then ss_conflicts st
             else ss_conflicts st ++ [constraint_conflict room benchIdx s])),
         (if respected then subject s :: bs else bs), a,
         (if respected then [] else [constraint_conflict room benchIdx s]).
  split; [reflexivity|].
  assert (ss_remaining st - 1 = List.length (all_students g')) as Hlen.
  { rewrite Hr. apply Permutation_length in Hp. simpl in Hp. lia. }
  split; [|split; [|split; [|split]]]; simpl; auto.
  - constructor; simpl; auto.
    + destruct respected; now rewrite ?app_nil_r.
    + split; auto.
    + destruct respected; repeat constructor.
  - destruct respected.
    + left. unfold a_subject. simpl. rewrite Hs. auto.
    + right. eauto.
Qed.

Lemma NoDup_map_pairwise {A B : Type} (f : A -> B) (l : list A) :
  NoDup (map f l) -> pairwise (fun a b => f a <> f b) l.
Proof.
  induction l as [|x l IH]; simpl; auto.
  intros H. inversion H as [|? ? Hx Hl]; subst. split; auto.
  apply Forall_forall. intros y Hy E. apply Hx. rewrite E. now apply in_map.
Qed.

Lemma pairwise_impl {A : Type} (R R' : A -> A -> Prop) (l : list A) :
  (forall a b, R a b -> R' a b) -> pairwise R l -> pairwise R' l.
Proof.
  intros HR. induction l as [|x l IH]; simpl; auto.
  intros [H1 H2]. split; auto.
  eapply Forall_impl; [|exact H1]. auto.
Qed.

(** The loop leaves the state as it is. *)
Ltac loop_stops st :=
  exists st, (@nil Assignment), (@nil Conflict);
  split; [reflexivity|];
  split; [now apply seats_added_refl|];
  repeat split; auto; try constructor; cbn [List.length]; try lia.

Lemma seat_loop_spec (room : Room) (benchIdx k : nat) :
  forall (seatIdx : nat) (bs : list string) (st : SeatState),
  state_ok st ->
  exists st' new extra,
    seat_loop room benchIdx k seatIdx bs st = Done st' /\
    seats_added room st st' new extra /\
    List.length new = Nat.min k (ss_remaining st) /\
    ss_remaining st' = ss_remaining st - List.length new /\
    Forall (fun a => bench_number a = benchIdx + 1) new /\
    map position new = map (position_label room) (seq seatIdx (List.length new)) /\
    (extra = [] ->
     NoDup (map a_subject new) /\ Forall (fun a => ~ In (a_subject a) bs) new).
Proof.
  induction k as [|k IH]; intros seatIdx bs st Hst; cbn [seat_loop].
  - loop_stops st.
  - destruct (0 <? ss_remaining st)%nat eqn:Hpos.
    2:{ apply Nat.ltb_ge in Hpos. loop_stops st. }
    apply Nat.ltb_lt in Hpos.
    assert (getSortedSubjects (ss_groups st) <> []) as Hne.
    { destruct Hst as [Hg Hr]. apply getSortedSubjects_nonempty; auto.
      intros E. rewrite E in Hr. simpl in Hr. lia. }
    pose proof (seat_step_spec room benchIdx seatIdx bs st) as Hstep.
    destruct (getSortedSubjects (ss_groups st)) as [|first rest]; [now elim Hne|].
    destruct (Hstep first Hst Hpos (or_introl eq_refl))
      as (st1 & bs1 & a & extra0 & -> & Hadd & Hrem & Hb & Hp & Hcase).
    cbn [bind].
    destruct (IH (seatIdx + 1) bs1 st1 (sa_state _ _ _ _ _ Hadd))
      as (st2 & new & extra1 & -> & Hadd2 & Hlen & Hrem2 & Hb2 & Hp2 & Hsub).
    exists st2, ([a] ++ new), (extra0 ++ extra1).
    split; [reflexivity|]. split; [eapply seats_added_trans; eauto|].
    split; [cbn [List.length app]; lia|]. split; [cbn [List.length app]; lia|].
    split; [constructor; auto|].
    split.
    { simpl. rewrite Hp, Hp2. now rewrite Nat.add_1_r. }
    intros E. apply app_eq_nil in E as [E0 E1].
    destruct Hcase as [(_ & -> & Hnot)|(c & Ec & _)]; [|congruence].
    destruct (Hsub E1) as [Hnd Hall]. simpl. split.
    + constructor; auto. intros Hin.
      apply in_map_iff in Hin as (a' & Ea & Ha').
      rewrite Forall_forall in Hall. apply (Hall a' Ha'). left. auto.
    + constructor; auto.
      eapply Forall_impl; [|exact Hall]. simpl. intros a' Ha' Hin. apply Ha'. now right.
Qed.

Lemma bench_loop_spec (room : Room) (b : nat) :
  forall (benchIdx : nat) (st : SeatState),
  state_ok st ->
  exists st' new extra,
    bench_loop room b benchIdx st = Done st' /\
    seats_added room st st' new extra /\
    List.length new = Nat.min (b * seats_of room) (ss_remaining st) /\
    ss_remaining st' = ss_remaining st - List.length new /\
    Forall (fun a => benchIdx < bench_number a) new /\
    NoDup (map bench_key new) /\
    (extra = [] -> pairwise subjects_differ_on_bench new).
Proof.
  induction b as [|b IH]; intros benchIdx st Hst; cbn [bench_loop].
  - loop_stops st.
  - destruct (0 <? ss_remaining st)%nat eqn:Hpos.
    2:{ apply Nat.ltb_ge in Hpos. loop_stops st. }
    apply Nat.ltb_lt in Hpos.
    assert (getSortedSubjects (ss_groups st) <> []) as Hne.
    { destruct Hst as [Hg Hr]. apply getSortedSubjects_nonempty; auto.
      intros E. rewrite E in Hr. simpl in Hr. lia. }
    destruct (getSortedSubjects (ss_groups st)) as [|first rest]; [now elim Hne|].
    destruct (seat_loop_spec room benchIdx (loop_bound (seatsPerBench room)) 0 [] st Hst)
      as (st1 & new1 & extra1 & -> & Hadd1 & Hlen1 & Hrem1 & Hb1 & Hp1 & Hsub1).
    cbn [bind].
    destruct (IH (benchIdx + 1) st1 (sa_state _ _ _ _ _ Hadd1))
      as (st2 & new2 & extra2 & -> & Hadd2 & Hlen2 & Hrem2 & Hb2 & Hk2 & Hsub2).
    exists st2, (new1 ++ new2), (extra1 ++ extra2).
    fold (seats_of room) in Hlen1.
    split; [reflexivity|]. split; [eapply seats_added_trans; eauto|].
    split; [rewrite length_app; lia|]. split; [rewrite length_app; lia|].
    split.
    { apply Forall_app. split.
      - eapply Forall_impl; [|exact Hb1]. simpl. intros; lia.
      - eapply Forall_impl; [|exact Hb2]. simpl. intros; lia. }
    split.
    { rewrite map_app. apply NoDup_app; [|exact Hk2|].
      - assert (NoDup (map position new1)) as Hnd.
        { rewrite Hp1. apply NoDup_map_injective; [apply position_label_inj|].
          apply seq_NoDup. }
        clear - Hnd. induction new1 as [|a l IHl]; simpl in *; [constructor|].
        inversion Hnd; subst. constructor; auto.
        intros Hin. apply in_map_iff in Hin as (a' & E & Ha').
        unfold bench_key in E. injection E as _ E.
        match goal with H : ~ In _ _ |- _ => apply H end.
        rewrite <- E. now apply in_map.
      - intros key H1 H2.
        apply in_map_iff in H1 as (a1 & <- & Ha1).
        apply in_map_iff in H2 as (a2 & E & Ha2).
        rewrite Forall_forall in Hb1, Hb2.
        specialize (Hb1 _ Ha1). specialize (Hb2 _ Ha2).
        unfold bench_key in E. injection E as E _. lia. }
    intros E. apply app_eq_nil in E as [E1 E2].
    apply pairwise_app. split; [|split; auto].
    + destruct (Hsub1 E1) as [Hnd _].
      eapply pairwise_impl; [|exact (NoDup_map_pairwise a_subject new1 Hnd)].
      unfold subjects_differ_on_bench. auto.
    + intros a1 a2 Ha1 Ha2 Hsame.
      rewrite Forall_forall in Hb1, Hb2.
      specialize (Hb1 _ Ha1). specialize (Hb2 _ Ha2). lia.
Qed.

Lemma assign_room_spec (acc : list Assignment * list Conflict) (ra : RoomAlloc) :
  Forall (fun s => inherited (subject s) = false) (ra_students ra) ->
  exists new extra,
    assign_room acc ra = Done (fst acc ++ new, snd acc ++ extra) /\
    room_seated ra new extra.
Proof.
  intros Hnames. unfold assign_room.
  rewrite (groupStudents_ok _ Hnames). cbn [bind].
  set (st0 := mkSeatState (groupBySubject (ra_students ra))
                          (List.length (ra_students ra)) (fst acc) (snd acc)).
  destruct (groupBySubject_ok (ra_students ra)) as [Hg Hp].
  assert (state_ok st0) as Hst.
  { split; simpl; auto. now rewrite (Permutation_length Hp). }
  destruct (bench_loop_spec (ra_room ra) (loop_bound (num_benches (ra_room ra))) 0 st0 Hst)
    as (st & new & extra & -> & Hadd & Hlen & Hrem & Hb & Hk & Hsub).
  destruct Hadd as [HA HC HS HP HR HT]. simpl in *.
  exists new,
    (if (0 <? ss_remaining st)%nat
     then extra ++ [overflow_conflict (ra_room ra)] else extra).
  split.
  { rewrite HA, HC.
    destruct (0 <? ss_remaining st)%nat; now rewrite <- ?app_assoc. }
  unfold room_seated, benches_of.
  split; [exact HR|]. split; [exact Hk|]. split; [|split; [exact Hlen|split]].
  - exists (all_students (ss_groups st)). now rewrite <- Hp, HP.
  - intros Hfit. destruct (0 <? ss_remaining st)%nat eqn:Hpos; auto.
    apply Nat.ltb_lt in Hpos. lia.
  - split.
    + destruct (0 <? ss_remaining st)%nat eqn:Hpos.
      * intros E. now destruct extra.
      * intros E. split; auto. apply Nat.ltb_ge in Hpos. lia.
    + assert (Forall (fun c => c_type c = constraint \/ c_type c = overflow) extra)
        as Hkind.
      { eapply Forall_impl; [|exact HT]. simpl. auto. }
      destruct (0 <? ss_remaining st)%nat; auto.
      apply Forall_app. split; auto.
Qed.

Lemma assign_rooms_spec (ras : list RoomAlloc) :
  Forall (fun s => inherited (subject s) = false) (placed_students ras) ->
  forall acc : list Assignment * list Conflict,
  exists outs : list (list Assignment * list Conflict),
    assign_rooms ras acc =
      Done (fst acc ++ List.concat (map fst outs),
            snd acc ++ List.concat (map snd outs)) /\
    Forall2 (fun ra out => room_seated ra (fst out) (snd out)) ras outs.
Proof.
  unfold placed_students.
  induction ras as [|ra ras IH]; intros Hnames acc; simpl.
  - exists []. simpl. rewrite !app_nil_r. split; [now destruct acc|constructor].
  - simpl in Hnames. apply Forall_app in Hnames as [Hra Hras].
    destruct (assign_room_spec acc ra Hra) as (new & extra & -> & Hroom). simpl.
    destruct (IH Hras (fst acc ++ new, snd acc ++ extra)) as (outs & -> & Houts).
    exists ((new, extra) :: outs). simpl. rewrite <- !app_assoc.
    split; [reflexivity|]. now constructor.
Qed.

(** ** The room distributor *)

Lemma map_list_set {A B : Type} (f : A -> B) (l : list A) (i : nat) (x y : A) :
  nth_error l i = Some x -> f y = f x -> map f (list_set l i y) = map f l.
Proof.
  revert i; induction l as [|z l IH]; intros [|i] H E; simpl in *; try discriminate.
  - injection H as ->. now rewrite E.
  - f_equal. now apply IH.
Qed.

Lemma Forall_list_set {A : Type} (P : A -> Prop) (l : list A) (i : nat) (y : A) :
  Forall P l -> P y -> Forall P (list_set l i y).
Proof.
  intros H Hy. revert i; induction H as [|z l Hz Hl IH]; intros [|i]; simpl;
    constructor; auto.
Qed.

Lemma push_student_allocs (rooms : list Room) (ras : list RoomAlloc) (j : nat)
  (ra : RoomAlloc) (s : Student) :
  nth_error ras j = Some ra -> allocs_of rooms ras ->
  allocs_of rooms (list_set ras j (push_student ra s)).
Proof.
  intros Hj [Hr Hc]. split.
  - now rewrite (map_list_set ra_room ras j ra (push_student ra s) Hj eq_refl).
  - apply Forall_list_set; auto. simpl.
    rewrite Forall_forall in Hc. apply Hc. eapply nth_error_In; eauto.
Qed.

Lemma push_student_placed (ras : list RoomAlloc) (j : nat) (ra : RoomAlloc)
  (s : Student) :
  nth_error ras j = Some ra ->
  Permutation (placed_students (list_set ras j (push_student ra s)))
              (s :: placed_students ras).
Proof.
  intros Hj. unfold placed_students.
  now apply (list_set_concat_perm ra_students ras j ra).
Qed.

Lemma push_student_fits (ras : list RoomAlloc) (j : nat) (ra : RoomAlloc)
  (s : Student) :
  Forall (fun r => fits r = true) ras -> nth_error ras j = Some ra ->
  is_full ra = false ->
  Forall (fun r => fits r = true) (list_set ras j (push_student ra s)).
Proof.
  intros Hall Hj Hfull. apply Forall_list_set; auto.
  rewrite Forall_forall in Hall. specialize (Hall ra (nth_error_In _ _ Hj)).
  unfold fits, is_full, num_geb, num_of_nat in *. simpl.
  destruct (ra_capacity ra) as [c|]; [|discriminate].
  rewrite length_app. simpl.
  apply Z.leb_le. apply Z.leb_le in Hall. apply Z.leb_gt in Hfull. lia.
Qed.

Lemma has_space_not_full (ra : RoomAlloc) : has_space ra = true -> is_full ra = false.
Proof.
  unfold has_space, is_full, num_ltb, num_geb, num_of_nat.
  destruct (ra_capacity ra); [|discriminate].
  intros H. apply Z.ltb_lt in H. apply Z.leb_gt. lia.
Qed.

Lemma prefer_step_inv (rooms : list Room) (ras : list RoomAlloc)
  (un : list Student) (s : Student) :
  allocs_of rooms ras ->
  allocs_of rooms (fst (prefer_step (ras, un) s)) /\
  (Forall (fun r => fits r = true) ras ->
   Forall (fun r => fits r = true) (fst (prefer_step (ras, un) s))) /\
  Permutation (placed_students (fst (prefer_step (ras, un) s))
               ++ snd (prefer_step (ras, un) s))
              (placed_students ras ++ un ++ [s]).
Proof.
  intros Ha. unfold prefer_step.
  destruct (preferred_room s) as [p|]; [|now auto].
  destruct (str_truthy p); [|now auto].
  destruct (find_index _ ras) as [j|]; [|now auto].
  destruct (nth_error ras j) as [ra|] eqn:Hj; [|now auto].
  destruct (has_space ra) eqn:Hs; [|now auto].
  simpl. split; [|split].
  - now apply push_student_allocs.
  - intros Hf. apply push_student_fits; auto. now apply has_space_not_full.
  - rewrite (push_student_placed _ _ _ s Hj).
    rewrite app_assoc. apply Permutation_cons_append.
Qed.

Lemma prefer_pass_fold (rooms : list Room) (students : list Student) :
  forall (ras : list RoomAlloc) (un : list Student),
  allocs_of rooms ras ->
  allocs_of rooms (fst (fold_left prefer_step students (ras, un))) /\
  (Forall (fun r => fits r = true) ras ->
   Forall (fun r => fits r = true) (fst (fold_left prefer_step students (ras, un)))) /\
  Permutation (placed_students (fst (fold_left prefer_step students (ras, un)))
               ++ snd (fold_left prefer_step students (ras, un)))
              (placed_students ras ++ un ++ students).
Proof.
  induction students as [|s l IH]; intros ras un Ha; cbn [fold_left fst snd].
  - rewrite app_nil_r. auto.
  - destruct (prefer_step_inv rooms ras un s Ha) as (H1 & H2 & H3).
    destruct (prefer_step (ras, un) s) as [ras1 un1]. simpl in *.
    destruct (IH ras1 un1 H1) as (K1 & K2 & K3).
    split; [exact K1|]. split; [intros Hf; apply K2, H2, Hf|].
    etransitivity; [exact K3|].
    rewrite app_assoc, H3, <- !app_assoc. reflexivity.
Qed.

Lemma initial_allocs_of (rooms : list Room) : allocs_of rooms (initial_allocs rooms).
Proof.
  unfold allocs_of, initial_allocs. split.
  - rewrite map_map. simpl. apply map_id.
  - apply Forall_forall. intros ra H. apply in_map_iff in H as (r & <- & _).
    reflexivity.
Qed.

Lemma initial_placed (rooms : list Room) : placed_students (initial_allocs rooms) = [].
Proof.
  unfold placed_students, initial_allocs. induction rooms; simpl; auto.
Qed.

Lemma skip_full_spec (fuel : nat) (ras : list RoomAlloc) :
  forall i j : nat,
  skip_full fuel ras i = Done j ->
  exists ra, nth_error ras j = Some ra /\ is_full ra = false.
Proof.
  induction fuel as [|fuel IH]; intros i j; simpl; try discriminate.
  destruct (nth_error ras i) as [ra|] eqn:E; try discriminate.
  destruct (is_full ra) eqn:F.
  - apply IH.
  - intros [= <-]. eauto.
Qed.

Lemma round_robin_inv (rooms : list Room) (fuel : nat) (un : list Student) :
  forall (ras : list RoomAlloc) (idx : nat) (ras' : list RoomAlloc),
  round_robin fuel un ras idx = Done ras' ->
  allocs_of rooms ras ->
  allocs_of rooms ras' /\
  (Forall (fun r => fits r = true) ras -> Forall (fun r => fits r = true) ras') /\
  Permutation (placed_students ras') (placed_students ras ++ un).
Proof.
  induction un as [|s rest IH]; intros ras idx ras'; simpl.
  - intros [= <-] Ha. rewrite app_nil_r. auto.
  - destruct (skip_full fuel ras idx) as [j| |] eqn:Hskip; simpl; try discriminate.
    destruct (skip_full_spec _ _ _ _ Hskip) as (ra & Hj & Hfull).
    rewrite Hj. intros Hrr Ha.
    destruct (IH _ _ _ Hrr (push_student_allocs _ _ _ _ s Hj Ha)) as (H1 & H2 & H3).
    split; auto. split.
    + intros Hf. apply H2. now apply push_student_fits.
    + rewrite H3, (push_student_placed _ _ _ s Hj). simpl.
      apply Permutation_middle.
Qed.

Lemma distribute_spec (fuel : nat) (students : list Student) (rooms : list Room)
  (ras : list RoomAlloc) :
  distribute fuel students rooms = Done ras ->
  allocs_of rooms ras /\ Permutation (placed_students ras) students.
Proof.
  unfold distribute, prefer_pass.
  destruct (prefer_pass_fold rooms students (initial_allocs rooms) []
              (initial_allocs_of rooms)) as (H1 & _ & H3).
  destruct (fold_left prefer_step students (initial_allocs rooms, [])) as [ras1 un1].
  simpl in *. intros Hrr.
  destruct (round_robin_inv rooms _ _ _ _ _ Hrr H1) as (K1 & _ & K3).
  split; auto. rewrite K3, H3, initial_placed. reflexivity.
Qed.

(** ** The shuffle *)

Lemma swap_perm {A : Type} (arr arr' : list A) (m : nat) (i : Z) :
  swap arr m i = Some arr' -> Permutation arr arr'.
Proof.
  unfold swap. destruct (_ && _)%bool; try discriminate.
  destruct (nth_error arr m) as [t|] eqn:Em; try discriminate.
  destruct (nth_error arr (Z.to_nat i)) as [u|] eqn:Ei; try discriminate.
  intros [= <-]. now apply list_set_swap_perm.
Qed.

Lemma shuffle_loop_perm {A : Type} (floorScaled : Z -> nat -> Z) (m : nat) :
  forall (arr arr' : list A) (random : Z),
  shuffle_loop floorScaled m arr random = Some arr' -> Permutation arr arr'.
Proof.
  induction m as [|m IH]; intros arr arr' random; simpl.
  - now intros [= <-].
  - destruct (swap arr m _) as [arr1|] eqn:E; try discriminate.
    intros H. rewrite (swap_perm _ _ _ _ E). eapply IH; eauto.
Qed.

Lemma seededShuffle_perm {A : Type} (floorScaled : Z -> nat -> Z)
  (array shuffled : list A) (sd : Z) :
  seededShuffle floorScaled array sd = Some shuffled -> Permutation array shuffled.
Proof.
  apply shuffle_loop_perm.
Qed.

(** ** What a run of the scheduler is made of *)

(** A run that reaches the seat assigner. *)
Lemma greedy_placement (fuel : nat) (students : list Student) (rooms : list Room)
  (r : Result) :
  greedyPairScheduler fuel students rooms = Done r ->
  feasible (diagnostics r) = true ->
  exists ras outs,
    distribute fuel students rooms = Done ras /\
    Forall2 (fun ra out => room_seated ra (fst out) (snd out)) ras outs /\
    assignments r = List.concat (map fst outs) /\
    conflicts (diagnostics r) = List.concat (map snd outs) /\
    success r = (List.length (conflicts (diagnostics r)) =? 0)%nat /\
    room_summaries r = generateRoomSummaries (assignments r) rooms.
Proof.
  past_grouping students.
  destruct (num_gtb _ _); [intros [= <-]; discriminate|].
  destruct (over_half _ _); [intros [= <-]; discriminate|].
  destruct (distribute fuel students rooms) as [ras| |] eqn:Hd; simpl;
    try discriminate.
  assert (Forall (fun s => inherited (subject s) = false) (placed_students ras))
    as Hplaced.
  { destruct (distribute_spec _ _ _ _ Hd) as [_ Hp].
    eapply Permutation_Forall; [symmetry; exact Hp|exact Hnames]. }
  destruct (assign_rooms_spec ras Hplaced ([], [])) as (outs & -> & Houts). simpl.
  intros [= <-] _. simpl. exists ras, outs. repeat split; auto.
Qed.

Lemma success_feasible (fuel : nat) (students : list Student) (rooms : list Room)
  (r : Result) :
  greedyPairScheduler fuel students rooms = Done r ->
  success r = (feasible (diagnostics r)
               && (List.length (conflicts (diagnostics r)) =? 0)%nat)%bool.
Proof.
  past_grouping students.
  destruct (num_gtb _ _); [now intros [= <-]|].
  destruct (over_half _ _); [now intros [= <-]|].
  destruct (distribute fuel students rooms) as [ras| |]; simpl; try discriminate.
  destruct (assign_rooms ras ([], [])) as [[assigned found]| |]; simpl;
    try discriminate.
  now intros [= <-].
Qed.

(** Every algorithm tag selects the greedy scheduler. *)
Lemma algorithm_switch {A : Type} (alg : option string) (x : A) :
  match alg with
  | Some "greedy" => x
  | _ => x
  end = x.
Proof.
  destruct alg as [s|]; auto.
  repeat (match goal with
          | |- context [match ?s with _ => _ end] => destruct s
          end; auto).
Qed.

(** A run of [schedule] that got past validation is a run of the greedy
    scheduler on a rearrangement of the students. *)
Lemma schedule_runs_greedy (floorScaled : Z -> nat -> Z) (fuel : nat)
  (students : list Student) (rooms : list Room) (options : Options) (r : Result) :
  schedule floorScaled fuel students rooms options = Done r ->
  (validateConstraints students rooms <> [] /\
   r = validation_failure (validateConstraints students rooms)) \/
  (validateConstraints students rooms = [] /\
   exists processed,
     Permutation students processed /\
     greedyPairScheduler fuel processed rooms = Done r).
Proof.
  unfold schedule.
  destruct (validateConstraints students rooms) as [|e errors] eqn:Ev.
  2:{ simpl. intros [= <-]. left. split; [discriminate|reflexivity]. }
  simpl. intros H. right. split; auto.
  destruct (processedStudents floorScaled students options) as [ps|] eqn:Es;
    try discriminate.
  rewrite algorithm_switch in H. exists ps. split; auto.
  unfold processedStudents in Es. destruct (seed options) as [sd|].
  - now apply seededShuffle_perm in Es.
  - now injection Es as <-.
Qed.

Lemma concat_nil_Forall {A : Type} (ls : list (list A)) :
  List.concat ls = [] -> Forall (fun l => l = []) ls.
Proof.
  induction ls as [|l ls IH]; simpl; intros H; constructor.
  - now apply app_eq_nil in H.
  - apply IH. now apply app_eq_nil in H.
Qed.

Section SeatedRooms.

Let seated := Forall2 (fun (ra : RoomAlloc) (out : list Assignment * list Conflict) =>
                         room_seated ra (fst out) (snd out)).

Lemma seated_room_ids (ras : list RoomAlloc)
  (outs : list (list Assignment * list Conflict)) (a : Assignment) :
  seated ras outs ->
  In a (List.concat (map fst outs)) ->
  exists ra, In ra ras /\ a_room_id a = room_id (ra_room ra) /\
             a_room_name a = room_name (ra_room ra).
Proof.
  induction 1 as [|ra out ras' outs' Hroom _ IH]; simpl; [contradiction|].
  intros H. apply in_app_or in H as [H|H].
  - destruct Hroom as (Hr & _). rewrite Forall_forall in Hr.
    exists ra. split; [now left|]. now apply Hr.
  - destruct (IH H) as (ra' & Hin & E). exists ra'. split; [now right|auto].
Qed.

Lemma seated_other_room (ras : list RoomAlloc)
  (outs : list (list Assignment * list Conflict)) (ra : RoomAlloc)
  (a1 a2 : Assignment) :
  seated ras outs ->
  ~ In (room_id (ra_room ra)) (map (fun ra => room_id (ra_room ra)) ras) ->
  a_room_id a1 = room_id (ra_room ra) ->
  In a2 (List.concat (map fst outs)) ->
  a_room_id a1 <> a_room_id a2.
Proof.
  intros Hs Hnot E1 Ha2 E.
  destruct (seated_room_ids _ _ _ Hs Ha2) as (ra' & Hin & E2 & _).
  apply Hnot. apply in_map_iff. exists ra'. split; auto. congruence.
Qed.

Lemma seated_keys_distinct (ras : list RoomAlloc)
  (outs : list (list Assignment * list Conflict)) :
  seated ras outs ->
  NoDup (map (fun ra => room_id (ra_room ra)) ras) ->
  NoDup (map seat_key (List.concat (map fst outs))).
Proof.
  induction 1 as [|ra out ras' outs' Hroom Hrest IH]; simpl; [constructor|].
  intros Hnd. inversion Hnd as [|? ? Hnot Hnd']; subst.
  rewrite map_app. apply NoDup_app.
  - destruct Hroom as (Hr & Hk & _). clear - Hk.
    induction (fst out) as [|a l IHl]; simpl in *; [constructor|].
    inversion Hk; subst. constructor; auto.
    intros Hin. apply in_map_iff in Hin as (a' & E & Ha').
    unfold seat_key in E. injection E as _ E1 E2.
    match goal with H : ~ In _ _ |- _ => apply H end.
    apply in_map_iff. exists a'. split; auto. unfold bench_key. congruence.
  - now apply IH.
  - intros key H1 H2.
    apply in_map_iff in H1 as (a1 & <- & Ha1).
    apply in_map_iff in H2 as (a2 & E & Ha2).
    destruct Hroom as (Hr & _). rewrite Forall_forall in Hr.
    destruct (Hr _ Ha1) as [E1 _].
    apply (seated_other_room _ _ _ a1 a2 Hrest Hnot E1 Ha2).
    unfold seat_key in E. now injection E as E _ _.
Qed.

Lemma seated_all (ras : list RoomAlloc)
  (outs : list (list Assignment * list Conflict)) :
  seated ras outs ->
  Forall (fun out => snd out = []) outs ->
  List.length (List.concat (map fst outs)) = List.length (placed_students ras).
Proof.
  unfold placed_students.
  induction 1 as [|ra out ras' outs' Hroom _ IH]; simpl; auto.
  intros H. inversion H as [|? ? He Hes]; subst.
  rewrite !length_app, (IH Hes).
  destruct Hroom as (_ & _ & _ & _ & _ & Hsucc & _).
  destruct (Hsucc He) as [_ ->]. reflexivity.
Qed.

Lemma seated_benches (ras : list RoomAlloc)
  (outs : list (list Assignment * list Conflict)) :
  seated ras outs ->
  NoDup (map (fun ra => room_id (ra_room ra)) ras) ->
  Forall (fun out => snd out = []) outs ->
  pairwise bench_compatible (List.concat (map fst outs)).
Proof.
  induction 1 as [|ra out ras' outs' Hroom Hrest IH]; simpl; [auto|].
  intros Hnd H. inversion Hnd as [|? ? Hnot Hnd']; subst.
  inversion H as [|? ? He Hes]; subst.
  apply pairwise_app. split; [|split].
  - destruct Hroom as (_ & _ & _ & _ & _ & Hsucc & _).
    destruct (Hsucc He) as [Hp _].
    eapply pairwise_impl; [|exact Hp].
    unfold subjects_differ_on_bench, bench_compatible, same_bench. intuition.
  - now apply IH.
  - intros a1 a2 Ha1 Ha2 [E _].
    destruct Hroom as (Hr & _). rewrite Forall_forall in Hr.
    destruct (Hr _ Ha1) as [E1 _].
    exfalso. exact (seated_other_room _ _ _ a1 a2 Hrest Hnot E1 Ha2 E).
Qed.

End SeatedRooms.

(** ** Successful runs *)

(** A successful run placed a rearrangement of the students room by room
    and met no conflict in any room. *)
Lemma successful_run (floorScaled : Z -> nat -> Z) (fuel : nat)
  (students : list Student) (rooms : list Room) (options : Options) (r : Result) :
  schedule floorScaled fuel students rooms options = Done r ->
  success r = true ->
  exists ras outs,
    map ra_room ras = rooms /\
    Permutation (placed_students ras) students /\
    Forall2 (fun ra out => room_seated ra (fst out) (snd out)) ras outs /\
    assignments r = List.concat (map fst outs) /\
    Forall (fun out => snd out = []) outs.
Proof.
  intros Hrun Hs.
  destruct (schedule_runs_greedy _ _ _ _ _ _ Hrun)
    as [[_ ->]|(_ & ps & Hperm & Hg)]; [discriminate|].
  pose proof (success_feasible _ _ _ _ Hg) as E. rewrite Hs in E.
  symmetry in E. apply andb_true_iff in E as [Ef Ec].
  destruct (greedy_placement _ _ _ _ Hg Ef)
    as (ras & outs & Hd & Hseat & Ha & Hc & _).
  destruct (distribute_spec _ _ _ _ Hd) as [[Hrooms _] Hplaced].
  exists ras, outs. repeat split; auto.
  - now rewrite Hplaced, Hperm.
  - apply Nat.eqb_eq in Ec. rewrite Hc in Ec.
    apply length_zero_iff_nil, concat_nil_Forall in Ec.
    now rewrite Forall_map in Ec.
Qed.

Lemma room_ids_of_allocs (ras : list RoomAlloc) :
  map (fun ra => room_id (ra_room ra)) ras = map room_id (map ra_room ras).
Proof.
  now rewrite map_map.
Qed.

(** C1, as amended: when the rooms carry pairwise distinct [room_id]s and
    [schedule] returns [success = true], two different entries of the
    assignments with the same [room_id] and [bench_number] never have
    students of the same subject. *)
Theorem bench_constraint_on_success (floorScaled : Z -> nat -> Z) (fuel : nat)
  (students : list Student) (rooms : list Room) (options : Options) (r : Result)
  (l1 l2 l3 : list Assignment) (a b : Assignment) :
  NoDup (map room_id rooms) ->
  schedule floorScaled fuel students rooms options = Done r ->
  success r = true ->
  assignments r = l1 ++ a :: l2 ++ b :: l3 ->
  same_bench a b ->
  a_subject a <> a_subject b.
Proof.
  intros Hnd Hrun Hs Hsplit Hsame.
  destruct (successful_run _ _ _ _ _ _ Hrun Hs)
    as (ras & outs & Hrooms & _ & Hseat & Ha & Hc).
  assert (pairwise bench_compatible (assignments r)) as Hp.
  { rewrite Ha. apply (seated_benches ras outs); auto.
    now rewrite room_ids_of_allocs, Hrooms. }
  exact (pairwise_split _ _ _ _ _ _ _ Hp Hsplit Hsame).
Qed.

(** C2, as amended: when [schedule] returns [success = true] there is
    exactly one assignment per student, and, if the rooms carry pairwise
    distinct [room_id]s, no (room_id, bench_number, position) triple
    occurs twice. *)
Theorem conservation_on_success (floorScaled : Z -> nat -> Z) (fuel : nat)
  (students : list Student) (rooms : list Room) (options : Options) (r : Result) :
  schedule floorScaled fuel students rooms options = Done r ->
  success r = true ->
  List.length (assignments r) = List.length students /\
  (NoDup (map room_id rooms) -> NoDup (map seat_key (assignments r))).
Proof.
  intros Hrun Hs.
  destruct (successful_run _ _ _ _ _ _ Hrun Hs)
    as (ras & outs & Hrooms & Hplaced & Hseat & Ha & Hc).
  rewrite Ha. split.
  - rewrite (seated_all ras outs Hseat Hc). now apply Permutation_length.
  - intros Hnd. apply (seated_keys_distinct ras outs Hseat).
    now rewrite room_ids_of_allocs, Hrooms.
Qed.

(** C1 as stated fails: with two rooms under one [room_id] the run
    succeeds, yet bench 1 of "R1" shows two students of subject BBA. *)
Lemma same_subject_on_shared_room_id :
  schedule floorScaled_exact 2 twinStudents twinRooms no_options = Done twinResult /\
  success twinResult = true /\
  exists l1 a l2 b l3,
    assignments twinResult = l1 ++ a :: l2 ++ b :: l3 /\
    same_bench a b /\ a_subject a = a_subject b.
Proof.
  split; [vm_compute; reflexivity|]. split; [reflexivity|].
  eexists [], _, [_], _, _. split; [reflexivity|]. split; [split|]; reflexivity.
Qed.

(** C2 as stated fails on the same input: the seat ("R1", 1, "left") is
    given out twice. *)
Lemma seat_repeats_on_shared_room_id :
  schedule floorScaled_exact 2 twinStudents twinRooms no_options = Done twinResult /\
  success twinResult = true /\
  ~ NoDup (map seat_key (assignments twinResult)).
Proof.
  split; [vm_compute; reflexivity|]. split; [reflexivity|].
  intros H. vm_compute in H.
  inversion H as [|? ? Hnot _]; subst. apply Hnot. right. now left.
Qed.

Lemma sample_rooms_distinct : NoDup (map room_id sampleRooms).
Proof.
  simpl. constructor; [intros []|constructor].
Defined.

Lemma bench_constraint_on_success_witness :
  match assignments sampleResult with
  | a :: b :: _ => a_subject a <> a_subject b
  | _ => False
  end.
Proof.
  cbv beta iota delta [sampleResult assignments].
  eapply (bench_constraint_on_success floorScaled_exact 1 sampleStudents sampleRooms
            no_options sampleResult [] []).
  - exact sample_rooms_distinct.
  - vm_compute. reflexivity.
  - reflexivity.
  - reflexivity.
  - split; reflexivity.
Defined.

Lemma conservation_on_success_witness :
  List.length (assignments sampleResult) = List.length sampleStudents /\
  (NoDup (map room_id sampleRooms) -> NoDup (map seat_key (assignments sampleResult))).
Proof.
  apply (conservation_on_success floorScaled_exact 1 sampleStudents sampleRooms
           no_options sampleResult).
  - vm_compute. reflexivity.
  - reflexivity.
Defined.

(** ** Rooms with positive integer dimensions *)

Lemma room_ok_capacity (r : Room) :
  room_ok r = true ->
  room_capacity r = Some (Z.of_nat (capacity_nat r)) /\
  benches_of r * seats_of r = capacity_nat r /\
  0 < capacity_nat r.
Proof.
  unfold room_ok, room_capacity, capacity_nat, benches_of, seats_of, seatsPerBench,
    js_or, loop_bound.
  destruct (num_benches r) as [b| | |]; try discriminate.
  destruct (seats_per_bench r) as [k| | |]; try discriminate.
  intros H. apply andb_true_iff in H as [Hb Hk].
  apply Z.ltb_lt in Hb. apply Z.ltb_lt in Hk. simpl.
  destruct (k =? 0)%Z eqn:E; [apply Z.eqb_eq in E; lia|]. simpl.
  repeat split.
  - f_equal. rewrite Nat2Z.inj_mul, !Z2Nat.id; lia.
  - apply Nat.mul_pos_pos; lia.
Qed.

Lemma totalCapacity_fold (rooms : list Room) (acc : nat) :
  Forall (fun r => room_ok r = true) rooms ->
  fold_left (fun sum r => num_add sum (room_capacity r)) rooms (Some (Z.of_nat acc))
  = Some (Z.of_nat (acc + total_seats rooms)).
Proof.
  unfold total_seats. revert acc.
  induction rooms as [|r rooms IH]; intros acc H; simpl.
  - now rewrite Nat.add_0_r.
  - inversion H as [|? ? Hr Hrs]; subst.
    destruct (room_ok_capacity r Hr) as (-> & _ & _). simpl.
    rewrite <- Nat2Z.inj_add, (IH _ Hrs). f_equal. lia.
Qed.

Lemma totalCapacity_ok (rooms : list Room) :
  Forall (fun r => room_ok r = true) rooms ->
  totalCapacity rooms = Some (Z.of_nat (total_seats rooms)).
Proof.
  intros H. apply (totalCapacity_fold rooms 0 H).
Qed.

Lemma capacity_check_ok (students : list Student) (rooms : list Room) :
  Forall (fun r => room_ok r = true) rooms ->
  num_gtb (num_of_nat (List.length students)) (totalCapacity rooms) = false ->
  List.length students <= total_seats rooms.
Proof.
  intros H. rewrite (totalCapacity_ok rooms H).
  unfold num_gtb, num_ltb, num_of_nat. intros E. apply Z.ltb_ge in E. lia.
Qed.

Section GoodRooms.

Variable rooms : list Room.
Hypothesis rooms_ok : Forall (fun r => room_ok r = true) rooms.

Lemma alloc_capacity (ras : list RoomAlloc) (ra : RoomAlloc) :
  allocs_of rooms ras -> In ra ras ->
  ra_capacity ra = Some (Z.of_nat (capacity_nat (ra_room ra))).
Proof.
  intros [Hr Hc] Hin. rewrite Forall_forall in Hc. rewrite (Hc ra Hin).
  apply room_ok_capacity. rewrite Forall_forall in rooms_ok. apply rooms_ok.
  rewrite <- Hr. now apply in_map.
Qed.

Lemma alloc_fits (ras : list RoomAlloc) (ra : RoomAlloc) :
  allocs_of rooms ras -> In ra ras ->
  fits ra = true <-> List.length (ra_students ra) <= capacity_nat (ra_room ra).
Proof.
  intros Ha Hin. unfold fits. rewrite (alloc_capacity ras ra Ha Hin).
  unfold num_geb, num_of_nat. rewrite Z.leb_le. lia.
Qed.

Lemma alloc_not_full (ras : list RoomAlloc) (ra : RoomAlloc) :
  allocs_of rooms ras -> In ra ras ->
  is_full ra = false <-> List.length (ra_students ra) < capacity_nat (ra_room ra).
Proof.
  intros Ha Hin. unfold is_full. rewrite (alloc_capacity ras ra Ha Hin).
  unfold num_geb, num_of_nat. rewrite Z.leb_gt. lia.
Qed.

Lemma alloc_total (ras : list RoomAlloc) :
  allocs_of rooms ras ->
  list_sum (map (fun ra => capacity_nat (ra_room ra)) ras) = total_seats rooms.
Proof.
  intros [<- _]. unfold total_seats. now rewrite map_map.
Qed.

End GoodRooms.

(** As long as fewer students are placed than there are seats, some room
    has a free seat. *)
Lemma some_room_has_space (cap : RoomAlloc -> nat) (ras : list RoomAlloc) :
  Forall (fun ra => List.length (ra_students ra) <= cap ra) ras ->
  List.length (placed_students ras) < list_sum (map cap ras) ->
  exists j ra, nth_error ras j = Some ra /\ List.length (ra_students ra) < cap ra.
Proof.
  unfold placed_students.
  induction 1 as [|ra ras Hra Hras IH]; simpl; [lia|].
  rewrite length_app. intros Hlt.
  destruct (Nat.lt_ge_cases (List.length (ra_students ra)) (cap ra)) as [Hlt'|Hge].
  - exists 0, ra. auto.
  - destruct IH as (j & ra' & Hj & Hs); [lia|]. exists (S j), ra'. auto.
Qed.

(** Scanning cyclically from [i], the loop stops at the first room with a
    free seat, after at most as many tests as its distance [d] plus one. *)
Lemma skip_full_finds (ras : list RoomAlloc) (fuel : nat) :
  forall i : nat,
  i < List.length ras ->
  (exists d ra, d < fuel /\
     nth_error ras ((i + d) mod List.length ras) = Some ra /\ is_full ra = false) ->
  exists j, skip_full fuel ras i = Done j /\ j < List.length ras.
Proof.
  induction fuel as [|fuel IH]; intros i Hi (d & ra & Hd & Hnth & Hfree); [lia|].
  simpl. destruct (nth_error ras i) as [ra0|] eqn:E0.
  2:{ apply nth_error_None in E0. lia. }
  destruct (is_full ra0) eqn:F0; [|eauto].
  assert (0 < List.length ras) as Hpos by lia.
  destruct d as [|d].
  - rewrite Nat.add_0_r, Nat.mod_small in Hnth by lia. congruence.
  - apply IH.
    + apply Nat.mod_upper_bound. lia.
    + exists d, ra. split; [lia|]. split; auto.
      rewrite Nat.Div0.add_mod_idemp_l.
      now replace (i + 1 + d) with (i + S d) by lia.
Qed.

Lemma cyclic_distance (len i j : nat) :
  i < len -> j < len -> exists d, d < len /\ (i + d) mod len = j.
Proof.
  intros Hi Hj. destruct (Nat.le_gt_cases i j) as [H|H].
  - exists (j - i). split; [lia|].
    replace (i + (j - i)) with j by lia. now apply Nat.mod_small.
  - exists (len + j - i). split; [lia|].
    replace (i + (len + j - i)) with (j + 1 * len) by lia.
    rewrite Nat.Div0.mod_add. now apply Nat.mod_small.
Qed.

(** When every room is full the loop never stops. *)
Lemma skip_full_all_full (ras : list RoomAlloc) (fuel : nat) :
  forall i : nat,
  i < List.length ras ->
  Forall (fun ra => is_full ra = true) ras ->
  skip_full fuel ras i = OutOfFuel.
Proof.
  induction fuel as [|fuel IH]; intros i Hi Hall; simpl; auto.
  destruct (nth_error ras i) as [ra|] eqn:E.
  2:{ apply nth_error_None in E. lia. }
  rewrite Forall_forall in Hall. rewrite (Hall ra (nth_error_In _ _ E)).
  apply IH; [|now apply Forall_forall].
  apply Nat.mod_upper_bound. lia.
Qed.

Lemma round_robin_total (rooms : list Room) (fuel : nat) (un : list Student) :
  Forall (fun r => room_ok r = true) rooms ->
  List.length rooms <= fuel ->
  forall (ras : list RoomAlloc) (idx : nat),
  allocs_of rooms ras ->
  Forall (fun r => fits r = true) ras ->
  (ras <> [] -> idx < List.length ras) ->
  List.length (placed_students ras) + List.length un <= total_seats rooms ->
  exists ras', round_robin fuel un ras idx = Done ras' /\
               Forall (fun r => fits r = true) ras'.
Proof.
  intros Hok Hfuel. induction un as [|s rest IH]; intros ras idx Ha Hfit Hidx Hcount.
  - exists ras. auto.
  - simpl in Hcount. cbn [round_robin].
    assert (List.length ras = List.length rooms) as Hlen.
    { destruct Ha as [<- _]. now rewrite length_map. }
    destruct (some_room_has_space (fun ra => capacity_nat (ra_room ra)) ras)
      as (j0 & ra0 & Hj0 & Hfree).
    { apply Forall_forall. intros ra Hin.
      apply (alloc_fits rooms Hok ras ra Ha Hin).
      rewrite Forall_forall in Hfit. auto. }
    { rewrite (alloc_total rooms Hok ras Ha). lia. }
    assert (j0 < List.length ras) as Hj0lt.
    { apply nth_error_Some. congruence. }
    assert (idx < List.length ras) as Hidx'.
    { apply Hidx. intros ->. simpl in Hj0lt. lia. }
    destruct (cyclic_distance _ _ _ Hidx' Hj0lt) as (d & Hd & Hmod).
    destruct (skip_full_finds ras fuel idx Hidx') as (j & Hskip & Hj).
    { exists d, ra0. split; [lia|]. rewrite Hmod. split; auto.
      apply (alloc_not_full rooms Hok ras ra0 Ha (nth_error_In _ _ Hj0)). exact Hfree. }
    rewrite Hskip. cbn [bind].
    destruct (skip_full_spec _ _ _ _ Hskip) as (ra & Hnth & Hfull).
    rewrite Hnth. apply IH.
    + now apply push_student_allocs.
    + now apply push_student_fits.
    + intros _. rewrite list_set_length. apply Nat.mod_upper_bound. lia.
    + rewrite (Permutation_length (push_student_placed ras j ra s Hnth)).
      simpl. lia.
Qed.

Lemma initial_fits (rooms : list Room) :
  Forall (fun r => room_ok r = true) rooms ->
  Forall (fun r => fits r = true) (initial_allocs rooms).
Proof.
  intros Hok. apply Forall_forall. intros ra Hin.
  apply (alloc_fits rooms Hok _ ra (initial_allocs_of rooms) Hin).
  unfold initial_allocs in Hin. apply in_map_iff in Hin as (r & <- & _).
  simpl. lia.
Qed.

(** With good rooms and enough seats the distributor returns, and no
    room gets more students than it has seats. *)
Lemma distribute_total (fuel : nat) (students : list Student) (rooms : list Room) :
  Forall (fun r => room_ok r = true) rooms ->
  List.length students <= total_seats rooms ->
  List.length rooms <= fuel ->
  exists ras,
    distribute fuel students rooms = Done ras /\
    Forall (fun ra => List.length (ra_students ra) <= capacity_nat (ra_room ra)) ras.
Proof.
  intros Hok Hcount Hfuel. unfold distribute, prefer_pass.
  destruct (prefer_pass_fold rooms students (initial_allocs rooms) []
              (initial_allocs_of rooms)) as (H1 & H2 & H3).
  specialize (H2 (initial_fits rooms Hok)).
  destruct (fold_left prefer_step students (initial_allocs rooms, [])) as [ras1 un1].
  simpl in *. rewrite initial_placed in H3. simpl in H3.
  destruct (round_robin_total rooms fuel un1 Hok Hfuel ras1 0 H1 H2)
    as (ras & Hrr & Hfit).
  - intros Hne. destruct ras1; [congruence|simpl; lia].
  - rewrite <- length_app, (Permutation_length H3). exact Hcount.
  - exists ras. split; auto.
    destruct (round_robin_inv rooms _ _ _ _ _ Hrr H1) as (Ha & _ & _).
    apply Forall_forall. intros ra Hin.
    apply (alloc_fits rooms Hok ras ra Ha Hin).
    rewrite Forall_forall in Hfit. auto.
Qed.


(** A room that got no more students than it has seats seats them all
    and reports no overflow. *)
Lemma room_seated_fits (ra : RoomAlloc) (new : list Assignment)
  (extra : list Conflict) :
  room_seated ra new extra ->
  room_ok (ra_room ra) = true /\
  List.length (ra_students ra) <= capacity_nat (ra_room ra) ->
  Permutation (map student new) (ra_students ra) /\
  Forall (fun c => c_type c = constraint) extra.
Proof.
  intros (_ & _ & (left & Hperm) & Hlen & Hfit & _ & _) [Hok Hle].
  destruct (room_ok_capacity _ Hok) as (_ & Hcap & _). rewrite Hcap in *.
  split; auto.
  rewrite Nat.min_r in Hlen by exact Hle.
  pose proof (Permutation_length Hperm) as E.
  rewrite length_app, length_map in E.
  destruct left; [|simpl in E; lia].
  rewrite app_nil_r in Hperm. now symmetry.
Qed.

(** More fuel does not change what the loops return. *)
Lemma skip_full_mono (ras : list RoomAlloc) (fuel : nat) :
  forall (fuel' i j : nat),
  fuel <= fuel' -> skip_full fuel ras i = Done j -> skip_full fuel' ras i = Done j.
Proof.
  induction fuel as [|fuel IH]; intros fuel' i j Hle; simpl; [discriminate|].
  destruct fuel' as [|fuel']; [lia|]. simpl.
  destruct (nth_error ras i) as [ra|]; auto.
  destruct (is_full ra); auto. apply IH. lia.
Qed.

Lemma round_robin_mono (fuel fuel' : nat) (un : list Student) :
  fuel <= fuel' ->
  forall (ras : list RoomAlloc) (idx : nat) (ras' : list RoomAlloc),
  round_robin fuel un ras idx = Done ras' ->
  round_robin fuel' un ras idx = Done ras'.
Proof.
  intros Hle. induction un as [|s rest IH]; intros ras idx ras'; simpl; auto.
  destruct (skip_full fuel ras idx) as [j| |] eqn:E; simpl; try discriminate.
  rewrite (skip_full_mono ras fuel fuel' idx j Hle E). simpl.
  destruct (nth_error ras j); auto.
Qed.

(** C10: with positive integer room dimensions and no more students than
    seats in total (the capacity pre-check lets the run continue), the
    round-robin loop terminates: some room always has a free seat, so
    each run of its inner [while] tests at most as many rooms as there
    are, and any fuel from that number on gives one and the same
    allocation. *)
Theorem round_robin_terminates (students : list Student) (rooms : list Room) :
  Forall (fun r => room_ok r = true) rooms ->
  num_gtb (num_of_nat (List.length students)) (totalCapacity rooms) = false ->
  exists ras,
    forall fuel, List.length rooms <= fuel ->
    round_robin fuel (snd (prefer_pass students (initial_allocs rooms)))
                (fst (prefer_pass students (initial_allocs rooms))) 0 = Done ras.
Proof.
  intros Hok Hcap.
  destruct (distribute_total (List.length rooms) students rooms Hok
              (capacity_check_ok _ _ Hok Hcap) (le_n _)) as (ras & Hd & _).
  exists ras. intros fuel Hfuel. unfold distribute in Hd.
  destruct (prefer_pass students (initial_allocs rooms)) as [ras1 un1].
  simpl. now apply (round_robin_mono (List.length rooms) fuel).
Qed.



Lemma sample_rooms_ok : Forall (fun r => room_ok r = true) sampleRooms.
Proof.
  repeat constructor.
Defined.

Lemma round_robin_terminates_witness :
  exists ras,
    forall fuel, List.length sampleRooms <= fuel ->
    round_robin fuel (snd (prefer_pass sampleStudents (initial_allocs sampleRooms)))
                (fst (prefer_pass sampleStudents (initial_allocs sampleRooms))) 0
    = Done ras.
Proof.
  apply (round_robin_terminates sampleStudents sampleRooms).
  - exact sample_rooms_ok.
  - reflexivity.
Defined.


(** ** Looking groups up *)

Lemma obj_get_push {V : Type} (o : obj (list V)) (k0 k : string) (x : V) :
  obj_get (obj_push o k0 x) k =
  if String.eqb k k0 then Some (obj_list o k0 ++ [x]) else obj_get o k.
Proof.
  unfold obj_push, obj_list. destruct (obj_get o k0) as [l|] eqn:E.
  - rewrite obj_get_update, E. reflexivity.
  - rewrite (obj_get_add o k0 k [x] E). reflexivity.
Qed.

Lemma obj_list_push {V : Type} (o : obj (list V)) (k0 k : string) (x : V) :
  obj_list (obj_push o k0 x) k =
  if String.eqb k k0 then obj_list o k0 ++ [x] else obj_list o k.
Proof.
  unfold obj_list at 1. rewrite obj_get_push.
  now destruct (String.eqb k k0).
Qed.

Section Grouping.

Context {A V : Type}.
Variables (key : A -> string) (val : A -> V).

Let grouped (l : list A) (o : obj (list V)) : obj (list V) :=
  fold_left (fun o a => obj_push o (key a) (val a)) l o.

Lemma grouped_list (l : list A) (o : obj (list V)) (k : string) :
  obj_list (grouped l o) k =
  obj_list o k ++ map val (filter (fun a => String.eqb (key a) k) l).
Proof.
  unfold grouped. revert o. induction l as [|a l IH]; intros o; simpl.
  - now rewrite app_nil_r.
  - rewrite IH, obj_list_push. rewrite String.eqb_sym.
    destruct (String.eqb (key a) k) eqn:E; simpl; auto.
    apply String.eqb_eq in E. subst k. now rewrite <- app_assoc.
Qed.

Lemma grouped_keys (l : list A) (o : obj (list V)) (k : string) :
  In k (obj_keys (grouped l o)) <->
  In k (obj_keys o) \/ exists a, In a l /\ key a = k.
Proof.
  unfold grouped. revert o. induction l as [|a l IH]; intros o; simpl.
  - split; auto. intros [H|(a & [] & _)]; auto.
  - rewrite IH. split.
    + intros [H|(b & Hb & E)].
      * destruct (obj_get (obj_push o (key a) (val a)) k) eqn:G.
        2:{ apply obj_get_None in G. contradiction. }
        rewrite obj_get_push in G.
        destruct (String.eqb k (key a)) eqn:E.
        -- apply String.eqb_eq in E. right. exists a. auto.
        -- left. apply obj_get_In in G.
           apply (in_map fst) in G. exact G.
      * right. exists b. auto.
    + intros [H|(b & [->|Hb] & E)].
      * left. destruct (obj_keys_In o k H) as (v & G).
        assert (obj_get (obj_push o (key a) (val a)) k <> None) as N.
        { rewrite obj_get_push. destruct (String.eqb k (key a)); congruence. }
        destruct (obj_get (obj_push o (key a) (val a)) k) eqn:G'; [|congruence].
        apply obj_get_In in G'. apply (in_map fst) in G'. exact G'.
      * left. subst k.
        assert (obj_get (obj_push o (key b) (val b)) (key b) <> None) as N.
        { rewrite obj_get_push, String.eqb_refl. congruence. }
        destruct (obj_get (obj_push o (key b) (val b)) (key b)) eqn:G'; [|congruence].
        apply obj_get_In in G'. apply (in_map fst) in G'. exact G'.
      * right. exists b. auto.
Qed.

End Grouping.

Lemma groupBySubject_list (students : list Student) (k : string) :
  obj_list (groupBySubject students) k =
  filter (fun s => String.eqb (subject s) k) students.
Proof.
  unfold groupBySubject.
  rewrite (grouped_list subject (fun s => s) students [] k). simpl.
  now rewrite map_id.
Qed.

Lemma groupBySubject_keys (students : list Student) (k : string) :
  In k (obj_keys (groupBySubject students)) <->
  exists s, In s students /\ subject s = k.
Proof.
  unfold groupBySubject.
  rewrite (grouped_keys subject (fun s => s) students [] k). simpl.
  split; [intros [[]|H]; auto|auto].
Qed.

(** ** The largest subject group *)

Lemma fold_left_max (l : list nat) (x : nat) :
  fold_left Nat.max l x = Nat.max x (list_max l).
Proof.
  revert x. induction l as [|y l IH]; intros x; simpl.
  - lia.
  - rewrite IH. lia.
Qed.

Lemma list_max_incl (l1 l2 : list nat) :
  (forall x, In x l1 -> In x l2) -> list_max l1 <= list_max l2.
Proof.
  intros H. apply list_max_le. apply Forall_forall. intros x Hx.
  assert (Forall (fun y => y <= list_max l2) l2) as F by now apply list_max_le.
  rewrite Forall_forall in F. auto.
Qed.

Lemma maxSubjectCount_largest (students : list Student) :
  students <> [] ->
  maxSubjectCount students = Finite (largest_group students).
Proof.
  intros Hne. unfold maxSubjectCount, largest_group.
  set (counts := map _ (obj_keys (groupBySubject students))).
  assert (counts <> []) as Hc.
  { destruct students as [|s l]; [congruence|].
    assert (In (subject s) (obj_keys (groupBySubject (s :: l)))) as Hin.
    { apply groupBySubject_keys. exists s. split; [now left|reflexivity]. }
    subst counts. destruct (obj_keys (groupBySubject (s :: l))); [contradiction|].
    discriminate. }
  destruct counts as [|x rest] eqn:E; [congruence|].
  unfold math_max. rewrite fold_left_max. f_equal.
  change (Nat.max x (list_max rest)) with (list_max (x :: rest)).
  rewrite <- E. subst counts.
  apply Nat.le_antisymm; apply list_max_incl; intros n Hn.
  - apply in_map_iff in Hn as (k & <- & Hk).
    apply groupBySubject_keys in Hk as (s & Hs & <-).
    apply in_map_iff. exists s. split; auto.
    unfold count_subject. now rewrite groupBySubject_list.
  - apply in_map_iff in Hn as (s & <- & Hs).
    apply in_map_iff. exists (subject s). split.
    + unfold count_subject. now rewrite groupBySubject_list.
    + apply groupBySubject_keys. eauto.
Qed.

Lemma over_half_largest (students : list Student) :
  over_half (maxSubjectCount students) (List.length students) =
  (ceil_half (List.length students) <? largest_group students)%nat.
Proof.
  destruct students as [|s l]; [reflexivity|].
  rewrite maxSubjectCount_largest by discriminate. reflexivity.
Qed.

Lemma jsmax_value_largest (students : list Student) :
  jsmax_value (maxSubjectCount students) = largest_group students.
Proof.
  destruct students as [|s l]; [reflexivity|].
  rewrite maxSubjectCount_largest by discriminate. reflexivity.
Qed.

Lemma count_subject_perm (k : string) (l l' : list Student) :
  Permutation l l' -> count_subject k l = count_subject k l'.
Proof.
  unfold count_subject. induction 1; simpl; auto.
  - destruct (String.eqb (subject x) k); simpl; auto.
  - destruct (String.eqb (subject x) k), (String.eqb (subject y) k); simpl; auto.
  - congruence.
Qed.

Lemma largest_group_perm (l l' : list Student) :
  Permutation l l' -> largest_group l = largest_group l'.
Proof.
  intros H. unfold largest_group.
  apply Nat.le_antisymm; apply list_max_incl; intros n Hn;
    apply in_map_iff in Hn as (s & <- & Hs); apply in_map_iff; exists s.
  - split; [symmetry; now apply count_subject_perm|].
    eapply Permutation_in; eauto.
  - split; [now apply count_subject_perm|].
    eapply Permutation_in; [symmetry|]; eauto.
Qed.

(** ** Validation *)

Lemma str_mem_In (x : string) (l : list string) : str_mem x l = true <-> In x l.
Proof.
  unfold str_mem. rewrite existsb_exists. split.
  - intros (y & Hy & E). apply String.eqb_eq in E. now subst.
  - intros H. exists x. split; auto. apply String.eqb_refl.
Qed.

Lemma duplicate_errors_nil (students : list Student) (seen : list string) :
  duplicate_errors students seen = [] <->
  NoDup (map roll students) /\ forall s, In s students -> ~ In (roll s) seen.
Proof.
  revert seen. induction students as [|s l IH]; intros seen; simpl.
  - split; auto. intros _. split; [constructor|intros ? []].
  - split.
    + intros H. apply app_eq_nil in H as [H1 H2].
      apply IH in H2 as [Hnd Hseen].
      assert (~ In (roll s) seen) as Hs.
      { intros Hin. apply str_mem_In in Hin. now rewrite Hin in H1. }
      split.
      * constructor; auto. intros Hin. apply in_map_iff in Hin as (s' & E & Hs').
        apply (Hseen s' Hs'). left. auto.
      * intros s' [<-|Hs']; auto. intros Hin. apply (Hseen s' Hs'). now right.
    + intros [Hnd Hseen]. inversion Hnd as [|? ? Hnot Hnd']; subst.
      destruct (str_mem (roll s) seen) eqn:M.
      * apply str_mem_In in M. exfalso. apply (Hseen s); auto.
      * simpl. apply IH. split; auto.
        intros s' Hs' [E|Hin].
        -- apply Hnot. rewrite E. now apply in_map.
        -- apply (Hseen s'); auto.
Qed.

Lemma validateConstraints_nil (students : list Student) (rooms : list Room) :
  validateConstraints students rooms = [] <->
  students <> [] /\ rooms <> [] /\ NoDup (map roll students).
Proof.
  unfold validateConstraints. split.
  - intros H. apply app_eq_nil in H as [H1 H]. apply app_eq_nil in H as [H2 H3].
    apply duplicate_errors_nil in H3 as [H3 _].
    repeat split; auto; intros ->; discriminate.
  - intros (H1 & H2 & H3).
    destruct students; [congruence|]. destruct rooms; [congruence|]. simpl.
    apply (duplicate_errors_nil (s :: students) []). split; auto.
Qed.

Lemma greedy_conflict_kinds (fuel : nat) (students : list Student)
  (rooms : list Room) (r : Result) :
  greedyPairScheduler fuel students rooms = Done r ->
  Forall (fun c => has_type validation c = false) (conflicts (diagnostics r)).
Proof.
  intros Hg. destruct (feasible (diagnostics r)) eqn:Ef.
  - destruct (greedy_placement _ _ _ _ Hg Ef) as (ras & outs & _ & Hseat & _ & -> & _).
    apply Forall_concat, Forall_map.
    induction Hseat as [|ra out ras' outs' Hroom _ IH]; constructor; auto.
    destruct Hroom as (_ & _ & _ & _ & _ & _ & Hk).
    eapply Forall_impl; [|exact Hk]. simpl. unfold has_type.
    intros c [-> | ->]; reflexivity.
  - revert Hg Ef. past_grouping students.
    destruct (num_gtb _ _); [intros [= <-] _; constructor|].
    destruct (over_half _ _); [intros [= <-] _; repeat constructor|].
    destruct (distribute fuel students rooms) as [ras| |]; simpl; try discriminate.
    destruct (assign_rooms ras ([], [])) as [[assigned found]| |]; simpl;
      try discriminate.
    intros [= <-]. discriminate.
Qed.

(** C6, as amended: validation looks at the two lists only - it fails
    exactly when there is no student, no room or a repeated roll - and
    [schedule] reports a validation conflict exactly when it fails.  Room
    dimensions are not inspected, whatever they hold. *)
Theorem validation_ignores_dimensions (floorScaled : Z -> nat -> Z) (fuel : nat)
  (students : list Student) (rooms : list Room) (options : Options) (r : Result) :
  schedule floorScaled fuel students rooms options = Done r ->
  (validateConstraints students rooms = [] <->
   students <> [] /\ rooms <> [] /\ NoDup (map roll students)) /\
  (existsb (has_type validation) (conflicts (diagnostics r)) = true <->
   validateConstraints students rooms <> []).
Proof.
  intros Hrun. split; [apply validateConstraints_nil|].
  destruct (schedule_runs_greedy _ _ _ _ _ _ Hrun)
    as [[Hne ->]|(Hnil & ps & _ & Hg)].
  - split; auto. intros _.
    destruct (validateConstraints students rooms); [congruence|reflexivity].
  - split; [|congruence]. intros H.
    apply existsb_exists in H as (c & Hc & Ht).
    pose proof (greedy_conflict_kinds _ _ _ _ Hg) as F.
    rewrite Forall_forall in F. rewrite (F c Hc) in Ht. discriminate.
Qed.

(** C6 as stated fails: a room whose [num_benches] is [undefined] passes
    validation; the capacity becomes NaN, the run goes on and ends with an
    overflow conflict, not a validation one. *)
Lemma broken_room_passes_validation :
  schedule floorScaled_exact 1 loneStudent brokenRooms no_options = Done brokenResult /\
  Forall (fun r => toNumber (num_benches r) = None) brokenRooms /\
  totalCapacity brokenRooms = None /\
  existsb (has_type validation) (conflicts (diagnostics brokenResult)) = false /\
  map c_type (conflicts (diagnostics brokenResult)) = [overflow].
Proof.
  repeat split; try reflexivity. repeat constructor.
Qed.

Lemma validation_ignores_dimensions_witness :
  existsb (has_type validation) (conflicts (diagnostics brokenResult)) = true <->
  validateConstraints loneStudent brokenRooms <> [].
Proof.
  apply (validation_ignores_dimensions floorScaled_exact 1 loneStudent brokenRooms
           no_options brokenResult).
  vm_compute. reflexivity.
Defined.

(** ** Feasibility *)

Lemma greedy_feasible (fuel : nat) (students : list Student) (rooms : list Room)
  (r : Result) :
  greedyPairScheduler fuel students rooms = Done r ->
  feasible (diagnostics r) =
  negb (num_gtb (num_of_nat (List.length students)) (totalCapacity rooms)
        || over_half (maxSubjectCount students) (List.length students)).
Proof.
  past_grouping students.
  destruct (num_gtb _ _); [now intros [= <-]|].
  destruct (over_half _ _); [now intros [= <-]|].
  destruct (distribute fuel students rooms) as [ras| |]; simpl; try discriminate.
  destruct (assign_rooms ras ([], [])) as [[assigned found]| |]; simpl;
    try discriminate.
  now intros [= <-].
Qed.




(** C3, as amended: past validation and the capacity pre-check, with a
    seed (if any) small enough for the generator to be exact and a
    shuffle that stays inside the array, with no subject that is the
    name of a member of [Object.prototype], and with rooms whose
    capacities add up exactly, a largest subject group of
    more than [ceil(n/2)] students makes [schedule] return at once with
    [success = false], [feasible = false], no assignment, and one
    infeasible conflict whose message states the size of that group and
    the maximum allowed [ceil(n/2)]. *)
Theorem subject_distribution_infeasible (floorScaled : Z -> nat -> Z) (fuel : nat)
  (students : list Student) (rooms : list Room) (options : Options) :
  validateConstraints students rooms = [] ->
  seed_in_range options = true ->
  processedStudents floorScaled students options <> None ->
  Forall (fun s => inherited (subject s) = false) students ->
  rooms_exact rooms = true ->
  num_gtb (num_of_nat (List.length students)) (totalCapacity rooms) = false ->
  ceil_half (List.length students) < largest_group students ->
  schedule floorScaled fuel students rooms options =
  Done (mkResult false []
          (mkDiagnostics false
             [mkConflict infeasible None None
                (infeasible_message (largest_group students) (List.length students))]
             [])
          []).
Proof.
  intros Hv _ Hp Hnames _ Hcap Hbig. unfold schedule. rewrite Hv. simpl.
  destruct (processedStudents floorScaled students options) as [ps|] eqn:Es;
    [|congruence].
  assert (Permutation students ps) as Hperm.
  { unfold processedStudents in Es. destruct (seed options).
    - now apply seededShuffle_perm in Es.
    - now injection Es as <-. }
  pose proof (Permutation_Forall Hperm Hnames) as Hps.
  rewrite algorithm_switch. run_grouping Hps.
  rewrite over_half_largest, jsmax_value_largest.
  rewrite <- (largest_group_perm _ _ Hperm), <- (Permutation_length Hperm), Hcap.
  apply Nat.ltb_lt in Hbig. rewrite Hbig. reflexivity.
Qed.

(** C3 as stated fails in one point: the conflict does not name the
    oversized subject.  With ten "BBA" students out of eleven the message
    gives the group size and the bound, and "BBA" occurs nowhere in it. *)
Lemma infeasible_conflict_omits_subject :
  schedule floorScaled_exact 1 imbalancedStudents largeRoom no_options
    = Done imbalancedResult /\
  largest_group imbalancedStudents = 10 /\
  count_subject "BBA" imbalancedStudents = 10 /\
  map c_message (conflicts (diagnostics imbalancedResult)) =
    ["Subject with 10 students cannot be seated with bench constraint. Maximum allowed: 6"] /\
  Forall (fun c => String.index 0 "BBA" (c_message c) = None)
         (conflicts (diagnostics imbalancedResult)).
Proof.
  repeat split; try reflexivity. repeat constructor.
Qed.

Lemma subject_distribution_infeasible_witness :
  schedule floorScaled_exact 1 imbalancedStudents largeRoom no_options =
  Done (mkResult false []
          (mkDiagnostics false
             [mkConflict infeasible None None
                (infeasible_message (largest_group imbalancedStudents)
                                    (List.length imbalancedStudents))]
             [])
          []).
Proof.
  apply (subject_distribution_infeasible floorScaled_exact 1 imbalancedStudents
           largeRoom no_options).
  - reflexivity.
  - reflexivity.
  - discriminate.
  - apply Forall_forall. intros s Hs.
    apply in_app_or in Hs as [Hs|[<-|[]]]; [|reflexivity].
    apply in_map_iff in Hs as (i & <- & _). reflexivity.
  - reflexivity.
  - reflexivity.
  - vm_compute. lia.
Defined.

(** ** The two range formatters *)

Lemma roll_parts_plain (r : string) :
  has_dash_pattern r = false ->
  roll_parts r = mkRollParts "" (roll_number r) r.
Proof.
  unfold has_dash_pattern, roll_parts, roll_number.
  destruct (match_dash r EmptyString) as [[pre digits]|]; [discriminate|reflexivity].
Qed.

Lemma show_report_range_plain (first last : RollParts) :
  rp_prefix first = "" ->
  show_report_range first last = show_range (rp_num first) (rp_num last).
Proof.
  unfold show_report_range, show_range. now intros ->.
Qed.

Lemma report_ranges_loop_plain (parts : list RollParts) :
  forall (first last : RollParts) (ranges : list string),
  Forall (fun p => rp_prefix p = "") parts ->
  rp_prefix first = "" -> rp_prefix last = "" ->
  report_ranges_loop parts first last ranges =
  ranges_loop (map rp_num parts) (rp_num first) (rp_num last) ranges.
Proof.
  induction parts as [|p parts IH]; intros first last ranges Hall Hf Hl; simpl.
  - now rewrite show_report_range_plain.
  - inversion Hall as [|? ? Hp Hps]; subst.
    rewrite Hp, Hl. simpl.
    destruct (num_eqb (rp_num p) (num_add (rp_num last) (Some 1%Z))).
    + now apply IH.
    + rewrite show_report_range_plain by assumption. now apply IH.
Qed.

(** C4, as amended: on rolls none of which contains the pattern
    digits-dash-digits (bare numeric rolls, for instance) the summary
    generator's formatter and the report renderer's return the same
    string. *)
Theorem formatters_agree_without_prefix (rolls : list string) :
  Forall (fun r => has_dash_pattern r = false) rolls ->
  formatRollRanges rolls = formatRollRanges_report rolls.
Proof.
  intros Hall. unfold formatRollRanges, formatRollRanges_report.
  assert (map roll_parts rolls = map (fun r => mkRollParts "" (roll_number r) r) rolls)
    as E.
  { apply map_ext_in. intros r Hr. apply roll_parts_plain.
    rewrite Forall_forall in Hall. auto. }
  rewrite E. destruct rolls as [|r0 rolls]; simpl; auto.
  rewrite report_ranges_loop_plain; simpl; auto.
  - now rewrite map_map.
  - apply Forall_forall. intros p Hp. apply in_map_iff in Hp as (r & <- & _).
    reflexivity.
Qed.

(** C4 as stated fails: on the rolls of the specification's own example
    the summary generator drops the prefix and the report renderer keeps
    it. *)
Lemma formatters_differ_on_prefixed_rolls :
  formatRollRanges ["10-1"; "10-2"; "10-3"; "10-5"] = "1 to 3, 5" /\
  formatRollRanges_report ["10-1"; "10-2"; "10-3"; "10-5"] = "10-1 to 3, 10-5" /\
  formatRollRanges ["10-1"; "10-2"; "10-3"; "10-5"]
    <> formatRollRanges_report ["10-1"; "10-2"; "10-3"; "10-5"].
Proof.
  repeat split; try reflexivity. discriminate.
Qed.

Lemma formatters_agree_without_prefix_witness :
  formatRollRanges ["7"; "8"; "9"; "12"] = formatRollRanges_report ["7"; "8"; "9"; "12"].
Proof.
  apply (formatters_agree_without_prefix ["7"; "8"; "9"; "12"]).
  repeat constructor.
Defined.

(** ** Numbers in rolls *)













(** ** Compaction *)

Lemma show_range_span (first last : Z) :
  show_range (Some first) (Some last) = spec_show_span (first, last).
Proof.
  reflexivity.
Qed.




(** ** Sorting rolls *)




(** ** Room summaries *)







(** ** Preferred rooms *)

Lemma find_index_allocs (p : string) (ras : list RoomAlloc) :
  find_index (matches_preference p) ras =
  find_index (matches_room p) (map ra_room ras).
Proof.
  induction ras as [|ra ras IH]; simpl; auto.
  unfold matches_preference at 1, matches_room at 1.
  destruct (_ || _)%bool; auto. now rewrite IH.
Qed.

Lemma push_keeps (ras : list RoomAlloc) (j k : nat) (ra rk : RoomAlloc)
  (x : Student) :
  nth_error ras j = Some ra -> nth_error ras k = Some rk ->
  exists ra', nth_error (list_set ras k (push_student rk x)) j = Some ra' /\
              incl (ra_students ra) (ra_students ra').
Proof.
  intros Hj Hk. destruct (Nat.eq_dec k j) as [->|Hne].
  - exists (push_student rk x). split.
    + apply nth_error_list_set_same. apply nth_error_Some. congruence.
    + assert (ra = rk) as -> by congruence. simpl. apply incl_appl, incl_refl.
  - exists ra. split; [|apply incl_refl].
    now rewrite nth_error_list_set_other.
Qed.

Lemma prefer_step_keeps (ras : list RoomAlloc) (un : list Student) (x : Student)
  (j : nat) (ra : RoomAlloc) :
  nth_error ras j = Some ra ->
  exists ra', nth_error (fst (prefer_step (ras, un) x)) j = Some ra' /\
              incl (ra_students ra) (ra_students ra').
Proof.
  intros Hj. unfold prefer_step.
  assert (exists ra', nth_error ras j = Some ra' /\
                      incl (ra_students ra) (ra_students ra')) as Hsame.
  { exists ra. split; [exact Hj|apply incl_refl]. }
  destruct (preferred_room x) as [p|]; [|exact Hsame].
  destruct (str_truthy p); [|exact Hsame].
  destruct (find_index _ ras) as [k|]; [|exact Hsame].
  destruct (nth_error ras k) as [rk|] eqn:Hk; [|exact Hsame].
  destruct (has_space rk); [|exact Hsame].
  simpl. now apply push_keeps.
Qed.

Lemma prefer_fold_keeps (l : list Student) :
  forall (ras : list RoomAlloc) (un : list Student) (j : nat) (ra : RoomAlloc),
  nth_error ras j = Some ra ->
  exists ra', nth_error (fst (fold_left prefer_step l (ras, un))) j = Some ra' /\
              incl (ra_students ra) (ra_students ra').
Proof.
  induction l as [|x l IH]; intros ras un j ra Hj; cbn [fold_left].
  - exists ra. split; [exact Hj|apply incl_refl].
  - destruct (prefer_step_keeps ras un x j ra Hj) as (ra1 & H1 & I1).
    destruct (prefer_step (ras, un) x) as [ras1 un1]. simpl in H1.
    destruct (IH ras1 un1 j ra1 H1) as (ra2 & H2 & I2).
    exists ra2. split; auto. eapply incl_tran; eauto.
Qed.

Lemma round_robin_keeps (fuel : nat) (un : list Student) :
  forall (ras : list RoomAlloc) (idx : nat) (ras' : list RoomAlloc) (j : nat)
         (ra : RoomAlloc),
  round_robin fuel un ras idx = Done ras' ->
  nth_error ras j = Some ra ->
  exists ra', nth_error ras' j = Some ra' /\
              incl (ra_students ra) (ra_students ra').
Proof.
  induction un as [|x rest IH]; intros ras idx ras' j ra; simpl.
  - intros [= <-] Hj. exists ra. split; [exact Hj|apply incl_refl].
  - destruct (skip_full fuel ras idx) as [k| |]; simpl; try discriminate.
    destruct (nth_error ras k) as [rk|] eqn:Hk; try discriminate.
    intros Hrr Hj.
    destruct (push_keeps ras j k ra rk x Hj Hk) as (ra1 & H1 & I1).
    destruct (IH _ _ _ _ _ Hrr H1) as (ra2 & H2 & I2).
    exists ra2. split; auto. eapply incl_tran; eauto.
Qed.

(** The preferred-room pass puts a student into the first room that
    matches a non-empty preference, if that room has a free seat. *)
Lemma prefer_step_places (ras : list RoomAlloc) (un : list Student) (s : Student)
  (p : string) (j : nat) (ra : RoomAlloc) :
  preferred_room s = Some p -> str_truthy p = true ->
  find_index (matches_preference p) ras = Some j ->
  nth_error ras j = Some ra -> has_space ra = true ->
  exists ra', nth_error (fst (prefer_step (ras, un) s)) j = Some ra' /\
              In s (ra_students ra').
Proof.
  intros Hp Ht Hf Hj Hs. unfold prefer_step. rewrite Hp, Ht, Hf, Hj, Hs. simpl.
  exists (push_student ra s). split.
  - apply nth_error_list_set_same. apply nth_error_Some. congruence.
  - simpl. apply in_or_app. right. now left.
Qed.

(** Whoever the preferred-room pass put into a room asked for it. *)
Lemma prefer_step_members (rooms : list Room) (ras : list RoomAlloc)
  (un : list Student) (x0 x : Student) (j : nat) (ra : RoomAlloc) :
  allocs_of rooms ras ->
  nth_error (fst (prefer_step (ras, un) x0)) j = Some ra ->
  In x (ra_students ra) ->
  (exists ra0, nth_error ras j = Some ra0 /\ In x (ra_students ra0)) \/
  (x = x0 /\ exists q, preferred_room x0 = Some q /\
                       find_index (matches_room q) rooms = Some j).
Proof.
  intros [Hrooms _]. unfold prefer_step.
  destruct (preferred_room x0) as [q|]; [|simpl; eauto].
  destruct (str_truthy q); [|simpl; eauto].
  destruct (find_index _ ras) as [k|] eqn:Hf; [|simpl; eauto].
  destruct (nth_error ras k) as [rk|] eqn:Hk; [|simpl; eauto].
  destruct (has_space rk); [|simpl; eauto].
  simpl. intros Hj Hin. destruct (Nat.eq_dec k j) as [->|Hne].
  - rewrite nth_error_list_set_same in Hj
      by (apply nth_error_Some; congruence).
    injection Hj as <-. simpl in Hin. apply in_app_or in Hin as [Hin|[<-|[]]].
    + left. eauto.
    + right. split; auto. exists q. split; auto.
      now rewrite <- Hrooms, <- find_index_allocs.
  - rewrite nth_error_list_set_other in Hj by assumption. left. eauto.
Qed.

Lemma prefer_fold_members (rooms : list Room) (l : list Student) :
  forall (ras : list RoomAlloc) (un : list Student) (x : Student) (j : nat)
         (ra : RoomAlloc),
  allocs_of rooms ras ->
  nth_error (fst (fold_left prefer_step l (ras, un))) j = Some ra ->
  In x (ra_students ra) ->
  (exists ra0, nth_error ras j = Some ra0 /\ In x (ra_students ra0)) \/
  (In x l /\ exists q, preferred_room x = Some q /\
                       find_index (matches_room q) rooms = Some j).
Proof.
  induction l as [|x0 l IH]; intros ras un x j ra Ha; cbn [fold_left].
  - simpl. eauto.
  - pose proof (prefer_step_inv rooms ras un x0 Ha) as (Ha1 & _ & _).
    pose proof (prefer_step_members rooms ras un x0 x j) as Hstep.
    destruct (prefer_step (ras, un) x0) as [ras1 un1]. simpl in Ha1, Hstep.
    intros Hj Hin.
    destruct (IH ras1 un1 x j ra Ha1 Hj Hin) as [(ra1 & H1 & In1)|[Hl Hq]].
    + destruct (Hstep ra1 Ha H1 In1) as [Hold|[-> Hq]]; auto.
      right. split; [now left|exact Hq].
    + right. split; [now right|exact Hq].
Qed.

Lemma prefer_pass_members (rooms : list Room) (pre : list Student) (x : Student)
  (j : nat) (ra : RoomAlloc) :
  nth_error (fst (prefer_pass pre (initial_allocs rooms))) j = Some ra ->
  In x (ra_students ra) ->
  In x pre /\ exists q, preferred_room x = Some q /\
                        find_index (matches_room q) rooms = Some j.
Proof.
  unfold prefer_pass. intros Hj Hin.
  destruct (prefer_fold_members rooms pre (initial_allocs rooms) [] x j ra
              (initial_allocs_of rooms) Hj Hin) as [(ra0 & H0 & In0)|H]; auto.
  unfold initial_allocs in H0. rewrite nth_error_map in H0.
  destruct (nth_error rooms j); [|discriminate].
  injection H0 as <-. contradiction.
Qed.

Lemma Forall2_nth {A B : Type} (P : A -> B -> Prop) (l : list A) (l' : list B)
  (j : nat) (x : A) :
  Forall2 P l l' -> nth_error l j = Some x ->
  exists y, nth_error l' j = Some y /\ P x y.
Proof.
  intros H. revert j. induction H as [|a b l l' Hab _ IH]; intros [|j] Hj;
    simpl in *; try discriminate.
  - injection Hj as ->. eauto.
  - now apply IH.
Qed.

(** A run on good rooms that passes both checks. *)
Lemma good_run (fuel : nat) (students : list Student) (rooms : list Room) :
  Forall (fun r => room_ok r = true) rooms ->
  num_gtb (num_of_nat (List.length students)) (totalCapacity rooms) = false ->
  over_half (maxSubjectCount students) (List.length students) = false ->
  List.length rooms <= fuel ->
  Forall (fun s => inherited (subject s) = false) students ->
  exists ras outs r,
    distribute fuel students rooms = Done ras /\
    Forall2 (fun ra out => room_seated ra (fst out) (snd out)) ras outs /\
    Forall (fun ra => room_ok (ra_room ra) = true /\
              List.length (ra_students ra) <= capacity_nat (ra_room ra)) ras /\
    greedyPairScheduler fuel students rooms = Done r /\
    assignments r = List.concat (map fst outs).
Proof.
  intros Hok Hcap Hhalf Hfuel Hnames.
  destruct (distribute_total fuel students rooms Hok
              (capacity_check_ok _ _ Hok Hcap) Hfuel) as (ras & Hd & Hfit).
  destruct (distribute_spec _ _ _ _ Hd) as [[Hrooms _] Hplaced].
  assert (Forall (fun s => inherited (subject s) = false) (placed_students ras))
    as Hras.
  { eapply Permutation_Forall; [symmetry; exact Hplaced|exact Hnames]. }
  destruct (assign_rooms_spec ras Hras ([], [])) as (outs & Hassign & Hseat).
  simpl in Hassign.
  exists ras, outs. eexists. split; [exact Hd|]. split; [exact Hseat|]. split.
  - apply Forall_forall. intros ra Hin. split.
    + rewrite Forall_forall in Hok. apply Hok. rewrite <- Hrooms. now apply in_map.
    + rewrite Forall_forall in Hfit. auto.
  - run_grouping Hnames. rewrite Hcap, Hhalf, Hd. cbn [bind].
    rewrite Hassign. cbn [bind]. split; reflexivity.
Qed.

(** C8, as amended: take a run past validation and both feasibility
    checks, on rooms with positive integer dimensions and students whose
    subjects are no names of members of [Object.prototype], that
    processes the students in the order [pre ++ s :: post] (the input
    order, or the shuffled one under a seed small enough for the
    generator to be exact).  If [s] has a non-empty [preferred_room],
    the first room of the list whose name or id equals it is [room], and
    the preferred-room pass over [pre] has left [room] a free seat - the
    students it holds by then are students of [pre] who asked for it -
    then [s] is seated in [room]: the pass runs over all students, in
    order, before the round-robin starts.  In the scenario of two students
    who both prefer "Room 1", both get [room_name = "Room 1"]. *)
Theorem preferred_room_honoured (floorScaled : Z -> nat -> Z) (fuel : nat)
  (students : list Student) (rooms : list Room) (options : Options)
  (pre post : list Student) (s : Student) (p : string) (j : nat) (room : Room)
  (ra : RoomAlloc) :
  validateConstraints students rooms = [] ->
  seed_in_range options = true ->
  processedStudents floorScaled students options = Some (pre ++ s :: post) ->
  Forall (fun s => inherited (subject s) = false) students ->
  Forall (fun r => room_ok r = true) rooms ->
  num_gtb (num_of_nat (List.length students)) (totalCapacity rooms) = false ->
  largest_group students <= ceil_half (List.length students) ->
  List.length rooms <= fuel ->
  preferred_room s = Some p -> str_truthy p = true ->
  find_index (matches_room p) rooms = Some j ->
  nth_error rooms j = Some room ->
  nth_error (fst (prefer_pass pre (initial_allocs rooms))) j = Some ra ->
  has_space ra = true ->
  (exists r a,
     schedule floorScaled fuel students rooms options = Done r /\
     In a (assignments r) /\ student a = s /\
     a_room_id a = room_id room /\ a_room_name a = room_name room) /\
  (forall x, In x (ra_students ra) ->
     In x pre /\ exists q, preferred_room x = Some q /\
                           find_index (matches_room q) rooms = Some j) /\
  map (fun a => (roll (student a), a_room_name a)) (assignments preferenceResult)
    = [("1", "Room 1"); ("2", "Room 1")].
Proof.
  intros Hv _ Hproc Hnames Hok Hcap Hhalf Hfuel Hp Ht Hfind Hroom Hra Hspace.
  split; [|split; [|reflexivity]].
  2:{ intros x Hx. exact (prefer_pass_members rooms pre x j ra Hra Hx). }
  assert (Permutation students (pre ++ s :: post)) as Hperm.
  { unfold processedStudents in Hproc. destruct (seed options).
    - now apply seededShuffle_perm in Hproc.
    - now injection Hproc as <-. }
  rewrite (Permutation_length Hperm) in Hcap, Hhalf.
  rewrite (largest_group_perm _ _ Hperm) in Hhalf.
  destruct (good_run fuel (pre ++ s :: post) rooms Hok Hcap) as
    (ras & outs & r & Hd & Hseat & Hboth & Hg & Ha); auto.
  { rewrite over_half_largest. apply Nat.ltb_ge. exact Hhalf. }
  { exact (Permutation_Forall Hperm Hnames). }
  destruct (distribute_spec _ _ _ _ Hd) as [[Hrooms4 _] _].
  (* the preferred-room pass places [s] in room [j] *)
  unfold prefer_pass in Hra.
  assert (exists un1,
            fold_left prefer_step pre (initial_allocs rooms, []) =
            (fst (fold_left prefer_step pre (initial_allocs rooms, [])), un1))
    as (un1 & Epre) by (eexists; apply surjective_pairing).
  destruct (prefer_pass_fold rooms pre (initial_allocs rooms) []
              (initial_allocs_of rooms)) as ([Hrooms1 _] & _ & _).
  set (ras1 := fst (fold_left prefer_step pre (initial_allocs rooms, []))) in *.
  destruct (prefer_step_places ras1 un1 s p j ra Hp Ht) as (ra2 & H2 & In2); auto.
  { now rewrite find_index_allocs, Hrooms1. }
  unfold distribute, prefer_pass in Hd.
  rewrite fold_left_app in Hd. cbn [fold_left] in Hd. rewrite Epre in Hd.
  destruct (prefer_step (ras1, un1) s) as [ras2 un2] eqn:E2. simpl in H2.
  destruct (prefer_fold_keeps post ras2 un2 j ra2 H2) as (ra3 & H3 & I3).
  destruct (fold_left prefer_step post (ras2, un2)) as [ras3 un3]. simpl in H3.
  destruct (round_robin_keeps _ _ _ _ _ j ra3 Hd H3) as (ra4 & H4 & I4).
  (* the seat assigner seats everybody of room [j] *)
  destruct (Forall2_nth _ _ _ j ra4 Hseat H4) as (out & Hout & Hseated).
  rewrite Forall_forall in Hboth.
  destruct (room_seated_fits _ _ _ Hseated (Hboth ra4 (nth_error_In _ _ H4)))
    as [Hall _].
  assert (In s (map student (fst out))) as Hin.
  { eapply Permutation_in; [symmetry; exact Hall|]. apply I4, I3, In2. }
  apply in_map_iff in Hin as (a & Ea & Hain).
  destruct Hseated as (Hids & _). rewrite Forall_forall in Hids.
  destruct (Hids a Hain) as [Eid Ename].
  assert (ra_room ra4 = room) as Eroom.
  { rewrite <- Hrooms4 in Hroom. rewrite nth_error_map, H4 in Hroom.
    now injection Hroom. }
  exists r, a. split.
  - unfold schedule. rewrite Hv, Hproc. simpl. now rewrite algorithm_switch.
  - split.
    + rewrite Ha. apply in_concat. exists (fst out). split; auto.
      apply in_map. eapply nth_error_In; eauto.
    + rewrite <- Eroom. auto.
Qed.

(** C8 as stated fails when several rooms match: student "2" prefers
    "Hall"; the third room is called "Hall" and stays empty, but the
    lookup stops at the first "Hall", which is full, and the student is
    seated in "Annex". *)
Lemma later_matching_room_is_ignored :
  schedule floorScaled_exact 3 hallStudents hallRooms no_options = Done hallResult /\
  map preferred_room hallStudents = [Some "Hall"; Some "Hall"] /\
  map (matches_room "Hall") hallRooms = [true; false; true] /\
  map (fun a => (roll (student a), a_room_id a, a_room_name a)) (assignments hallResult)
    = [("1", "R1", "Hall"); ("2", "R2", "Annex")].
Proof.
  repeat split; reflexivity.
Qed.

Lemma preferred_room_honoured_witness :
  (exists r a,
     schedule floorScaled_exact 2 studentsWithPreference multiRooms no_options = Done r /\
     In a (assignments r) /\
     student a = mkStudent "2" "B" "BCom" (Some "Room 1") /\
     a_room_id a = "R1" /\ a_room_name a = "Room 1") /\
  (forall x, In x [mkStudent "1" "A" "BBA" (Some "Room 1")] ->
     In x [mkStudent "1" "A" "BBA" (Some "Room 1")] /\
     exists q, preferred_room x = Some q /\
               find_index (matches_room q) multiRooms = Some 0) /\
  map (fun a => (roll (student a), a_room_name a)) (assignments preferenceResult)
    = [("1", "Room 1"); ("2", "Room 1")].
Proof.
  apply (preferred_room_honoured floorScaled_exact 2 studentsWithPreference
           multiRooms no_options
           [mkStudent "1" "A" "BBA" (Some "Room 1")] []
           (mkStudent "2" "B" "BCom" (Some "Room 1")) "Room 1" 0
           (mkRoom "R1" "Room 1" (JNum 2) (JNum 2))
           (mkRoomAlloc (mkRoom "R1" "Room 1" (JNum 2) (JNum 2))
                        [mkStudent "1" "A" "BBA" (Some "Room 1")] (Some 4%Z)));
    try reflexivity.
  all: repeat constructor.
Defined.

(** * Further properties of the engine *)

(** ** The shuffle and the seed *)

Lemma lcg_next_range (random : Z) :
  (0 <= random)%Z -> (0 <= lcg_next random < 233280)%Z.
Proof.
  intros H. unfold lcg_next. apply Z.rem_bound_pos; lia.
Qed.

Lemma swap_in_range {A : Type} (arr : list A) (m : nat) (i : Z) :
  m < List.length arr -> (0 <= i < Z.of_nat (List.length arr))%Z ->
  exists arr', swap arr m i = Some arr' /\ List.length arr' = List.length arr.
Proof.
  intros Hm Hi. unfold swap.
  assert (((0 <=? i) && (i <? Z.of_nat (List.length arr)))%Z = true) as ->.
  { apply andb_true_iff. split; [apply Z.leb_le|apply Z.ltb_lt]; lia. }
  destruct (nth_error arr m) as [t|] eqn:Em.
  2:{ apply nth_error_None in Em. lia. }
  destruct (nth_error arr (Z.to_nat i)) as [u|] eqn:Ei.
  2:{ apply nth_error_None in Ei. lia. }
  eexists. split; [reflexivity|]. now rewrite !list_set_length.
Qed.

Lemma shuffle_loop_total {A : Type} (floorScaled : Z -> nat -> Z) (m : nat) :
  (forall random k, (0 <= random < 233280)%Z ->
     (0 <= floorScaled random (S k) < Z.of_nat (S k))%Z) ->
  forall (arr : list A) (random : Z),
  m <= List.length arr -> (0 <= random)%Z ->
  exists arr', shuffle_loop floorScaled m arr random = Some arr'.
Proof.
  intros Hfs. induction m as [|m IH]; intros arr random Hm Hr; simpl.
  - eauto.
  - pose proof (lcg_next_range random Hr) as Hn.
    destruct (swap_in_range arr m (floorScaled (lcg_next random) (S m)))
      as (arr1 & -> & Hlen); [lia| |].
    + specialize (Hfs (lcg_next random) m Hn). lia.
    + apply IH; lia.
Qed.

(** X1: for a seed that is not negative and small enough for the first
    step of the generator to be exact in doubles
    ([seed * 9301 + 49297 <= 2^53]), and an index computation that stays
    in [0, m) on the generator's range, [seededShuffle] returns a
    rearrangement of its input. *)
Theorem shuffle_rearranges_for_nonnegative_seed {A : Type}
  (floorScaled : Z -> nat -> Z) (array : list A) (sd : Z) :
  (forall random k, (0 <= random < 233280)%Z ->
     (0 <= floorScaled random (S k) < Z.of_nat (S k))%Z) ->
  (0 <= sd)%Z ->
  seed_exact sd = true ->
  exists shuffled,
    seededShuffle floorScaled array sd = Some shuffled /\
    Permutation array shuffled.
Proof.
  intros Hfs Hsd _. unfold seededShuffle.
  destruct (shuffle_loop_total floorScaled (List.length array) Hfs array sd
              (le_n _) Hsd) as (arr' & E).
  exists arr'. split; auto. now apply shuffle_loop_perm in E.
Qed.

Lemma floorScaled_exact_in_range (random : Z) (k : nat) :
  (0 <= random < 233280)%Z ->
  (0 <= floorScaled_exact random (S k) < Z.of_nat (S k))%Z.
Proof.
  intros H. unfold floorScaled_exact. split.
  - apply Z.div_pos; lia.
  - apply Z.div_lt_upper_bound; nia.
Qed.

Lemma shuffle_rearranges_for_nonnegative_seed_witness :
  exists shuffled,
    seededShuffle floorScaled_exact sampleStudents 42 = Some shuffled /\
    Permutation sampleStudents shuffled.
Proof.
  apply (shuffle_rearranges_for_nonnegative_seed floorScaled_exact sampleStudents 42).
  - exact floorScaled_exact_in_range.
  - lia.
  - reflexivity.
Defined.

(** X2: for a seed small enough for the first step of the generator to
    be exact in doubles ([|seed| * 9301 + 49297 <= 2^53]): when the
    generator's first number is negative (as it is for every such seed
    from -6 down, unless 233280 divides seed * 9301 + 49297) the shuffle
    reads outside the array, and [schedule], past validation, throws. *)
Theorem schedule_throws_on_negative_random (floorScaled : Z -> nat -> Z)
  (fuel : nat) (students : list Student) (rooms : list Room) (options : Options)
  (sd : Z) :
  (forall random k, (random < 0)%Z -> (floorScaled random (S k) < 0)%Z) ->
  validateConstraints students rooms = [] ->
  seed options = Some sd ->
  seed_exact sd = true ->
  (lcg_next sd < 0)%Z ->
  schedule floorScaled fuel students rooms options = TypeError.
Proof.
  intros Hfs Hv Hseed _ Hneg. unfold schedule, processedStudents.
  rewrite Hv, Hseed. simpl.
  apply validateConstraints_nil in Hv as (Hne & _).
  unfold seededShuffle. destruct students as [|s l]; [congruence|].
  cbn [List.length shuffle_loop]. unfold swap.
  specialize (Hfs (lcg_next sd) (List.length l) Hneg).
  assert ((0 <=? floorScaled (lcg_next sd) (S (List.length l)))%Z = false) as ->.
  { apply Z.leb_gt. lia. }
  reflexivity.
Qed.

Lemma floorScaled_exact_negative (random : Z) (k : nat) :
  (random < 0)%Z -> (floorScaled_exact random (S k) < 0)%Z.
Proof.
  intros H. unfold floorScaled_exact. apply Z.div_lt_upper_bound; nia.
Qed.

Lemma schedule_throws_on_negative_random_witness :
  schedule floorScaled_exact 1 sampleStudents sampleRooms
           (mkOptions None None (Some (-42)%Z)) = TypeError.
Proof.
  apply (schedule_throws_on_negative_random floorScaled_exact 1 sampleStudents
           sampleRooms (mkOptions None None (Some (-42)%Z)) (-42)%Z).
  - exact floorScaled_exact_negative.
  - reflexivity.
  - reflexivity.
  - reflexivity.
  - vm_compute. reflexivity.
Defined.

(** ** Failed feasibility checks *)

Lemma processed_perm (floorScaled : Z -> nat -> Z) (students ps : list Student)
  (options : Options) :
  processedStudents floorScaled students options = Some ps ->
  Permutation students ps.
Proof.
  unfold processedStudents. destruct (seed options).
  - apply seededShuffle_perm.
  - now intros [= <-].
Qed.

(** X3: past validation, with a seed (if any) small enough for the
    generator to be exact and a shuffle that stays inside the array, and
    with no subject that is the name of a member of [Object.prototype]
    (the grouping that comes before the check throws on such a subject),
    and with rooms whose capacities add up exactly,
    more students than the rooms have seats make [schedule] return at
    once: no success, not feasible, no assignment, no conflict, no
    summary, and the one suggestion that states the number of students
    and the number of seats. *)
Theorem capacity_shortfall (floorScaled : Z -> nat -> Z) (fuel : nat)
  (students : list Student) (rooms : list Room) (options : Options) :
  validateConstraints students rooms = [] ->
  seed_in_range options = true ->
  processedStudents floorScaled students options <> None ->
  Forall (fun s => inherited (subject s) = false) students ->
  rooms_exact rooms = true ->
  num_gtb (num_of_nat (List.length students)) (totalCapacity rooms) = true ->
  schedule floorScaled fuel students rooms options =
  Done (capacity_failure (List.length students) (totalCapacity rooms)).
Proof.
  intros Hv _ Hp Hnames _ Hcap. unfold schedule. rewrite Hv. simpl.
  destruct (processedStudents floorScaled students options) as [ps|] eqn:Es;
    [|congruence].
  pose proof (processed_perm _ _ _ _ Es) as Hperm.
  pose proof (Permutation_Forall Hperm Hnames) as Hps.
  rewrite algorithm_switch. unfold greedyPairScheduler.
  rewrite (groupStudents_ok _ Hps). cbn [bind].
  now rewrite <- (Permutation_length Hperm), Hcap.
Qed.

Lemma capacity_shortfall_witness :
  schedule floorScaled_exact 1 imbalancedStudents sampleRooms no_options =
  Done (capacity_failure 11 (Some 8%Z)).
Proof.
  apply (capacity_shortfall floorScaled_exact 1 imbalancedStudents sampleRooms
           no_options).
  - reflexivity.
  - reflexivity.
  - discriminate.
  - apply Forall_forall. intros s Hs.
    apply in_app_or in Hs as [Hs|[<-|[]]]; [|reflexivity].
    apply in_map_iff in Hs as (i & <- & _). reflexivity.
  - reflexivity.
  - reflexivity.
Defined.

Lemma greedy_infeasible_result (fuel : nat) (students : list Student)
  (rooms : list Room) (r : Result) :
  greedyPairScheduler fuel students rooms = Done r ->
  feasible (diagnostics r) = false ->
  r = if num_gtb (num_of_nat (List.length students)) (totalCapacity rooms)
      then capacity_failure (List.length students) (totalCapacity rooms)
      else subject_failure (largest_group students) (List.length students).
Proof.
  past_grouping students.
  destruct (num_gtb _ _); [now intros [= <-]|].
  destruct (over_half _ _).
  - intros [= <-] _. now rewrite jsmax_value_largest.
  - destruct (distribute fuel students rooms) as [ras| |]; simpl; try discriminate.
    destruct (assign_rooms ras ([], [])) as [[assigned found]| |]; simpl;
      try discriminate.
    intros [= <-]. discriminate.
Qed.

(** X4: the seed never changes the verdict.  Two runs of [schedule] on
    the same students and rooms, whatever their options, agree on
    [feasible]; and when the run is not feasible they return the same
    result altogether. *)
Theorem seed_cannot_repair_infeasibility (fs1 fs2 : Z -> nat -> Z)
  (fuel1 fuel2 : nat) (students : list Student) (rooms : list Room)
  (o1 o2 : Options) (r1 r2 : Result) :
  schedule fs1 fuel1 students rooms o1 = Done r1 ->
  schedule fs2 fuel2 students rooms o2 = Done r2 ->
  feasible (diagnostics r1) = feasible (diagnostics r2) /\
  (feasible (diagnostics r1) = false -> r1 = r2).
Proof.
  intros H1 H2.
  destruct (schedule_runs_greedy _ _ _ _ _ _ H1) as [[N1 ->]|(V1 & p1 & P1 & G1)];
  destruct (schedule_runs_greedy _ _ _ _ _ _ H2) as [[N2 ->]|(V2 & p2 & P2 & G2)];
    try congruence; auto.
  assert (feasible (diagnostics r1) = feasible (diagnostics r2)) as E.
  { rewrite (greedy_feasible _ _ _ _ G1), (greedy_feasible _ _ _ _ G2).
    rewrite !over_half_largest.
    rewrite <- (Permutation_length P1), <- (Permutation_length P2).
    now rewrite <- (largest_group_perm _ _ P1), <- (largest_group_perm _ _ P2). }
  split; auto. intros F1.
  rewrite (greedy_infeasible_result _ _ _ _ G1 F1).
  rewrite (greedy_infeasible_result _ _ _ _ G2) by congruence.
  rewrite <- (Permutation_length P1), <- (Permutation_length P2).
  now rewrite <- (largest_group_perm _ _ P1), <- (largest_group_perm _ _ P2).
Qed.

Lemma seed_cannot_repair_infeasibility_witness :
  feasible (diagnostics imbalancedResult) = feasible (diagnostics imbalancedResult) /\
  (feasible (diagnostics imbalancedResult) = false -> imbalancedResult = imbalancedResult).
Proof.
  apply (seed_cannot_repair_infeasibility floorScaled_exact floorScaled_exact 1 2
           imbalancedStudents largeRoom no_options (mkOptions None None (Some 7%Z))).
  - vm_compute. reflexivity.
  - vm_compute. reflexivity.
Defined.

(** ** Seats in any run *)

Lemma infeasible_no_assignment (fuel : nat) (students : list Student)
  (rooms : list Room) (r : Result) :
  greedyPairScheduler fuel students rooms = Done r ->
  feasible (diagnostics r) = false ->
  assignments r = [] /\ room_summaries r = [].
Proof.
  intros Hg Hf. rewrite (greedy_infeasible_result _ _ _ _ Hg Hf).
  now destruct (num_gtb _ _).
Qed.

(** X5: whatever the outcome of the run, failed ones included, no seat
    is given out twice: with pairwise distinct [room_id]s the triples
    (room_id, bench_number, position) of the assignments are pairwise
    distinct. *)
Theorem seats_never_double_booked (floorScaled : Z -> nat -> Z) (fuel : nat)
  (students : list Student) (rooms : list Room) (options : Options) (r : Result) :
  NoDup (map room_id rooms) ->
  schedule floorScaled fuel students rooms options = Done r ->
  NoDup (map seat_key (assignments r)).
Proof.
  intros Hnd Hrun.
  destruct (schedule_runs_greedy _ _ _ _ _ _ Hrun)
    as [[_ ->]|(_ & ps & _ & Hg)]; [constructor|].
  destruct (feasible (diagnostics r)) eqn:Ef.
  - destruct (greedy_placement _ _ _ _ Hg Ef) as (ras & outs & Hd & Hseat & -> & _).
    destruct (distribute_spec _ _ _ _ Hd) as [[Hrooms _] _].
    apply (seated_keys_distinct ras outs Hseat).
    now rewrite room_ids_of_allocs, Hrooms.
  - destruct (infeasible_no_assignment _ _ _ _ Hg Ef) as [-> _]. constructor.
Qed.

Lemma seats_never_double_booked_witness :
  NoDup (map seat_key (assignments hallResult)).
Proof.
  apply (seats_never_double_booked floorScaled_exact 3 hallStudents hallRooms
           no_options hallResult).
  - simpl. repeat constructor; simpl; intuition discriminate.
  - vm_compute. reflexivity.
Defined.

(** ** What validation reports *)



(** ** Room summaries *)

Lemma obj_push_keys_NoDup {V : Type} (o : obj (list V)) (k : string) (x : V) :
  NoDup (obj_keys o) -> NoDup (obj_keys (obj_push o k x)).
Proof.
  intros H. unfold obj_push. destruct (obj_get o k) eqn:E.
  - now rewrite obj_keys_update.
  - unfold obj_keys.
    eapply Permutation_NoDup.
    + symmetry. apply Permutation_map. apply obj_add_perm.
    + simpl. constructor; auto. now apply obj_get_None.
Qed.

Lemma grouped_keys_NoDup {A V : Type} (key : A -> string) (val : A -> V)
  (l : list A) :
  forall o : obj (list V),
  NoDup (obj_keys o) ->
  NoDup (obj_keys (fold_left (fun o a => obj_push o (key a) (val a)) l o)).
Proof.
  induction l as [|a l IH]; intros o H; simpl; auto.
  apply IH. now apply obj_push_keys_NoDup.
Qed.


(** The sizes of the classes of [l] under [key] add up to its length. *)
Lemma class_sizes_add_up {A : Type} (key : A -> string) (l : list A)
  (ks : list string) :
  NoDup ks -> (forall x, In x l -> In (key x) ks) ->
  list_sum (map (fun k => List.length (filter (fun x => String.eqb (key x) k) l)) ks)
  = List.length l.
Proof.
  intros Hnd. induction l as [|x l IH]; intros Hin; simpl.
  - clear. induction ks; simpl; auto.
  - rewrite <- IH by (intros y Hy; apply Hin; now right).
    assert (In (key x) ks) as Hx by (apply Hin; now left).
    clear IH Hin. induction ks as [|k ks IHk]; [contradiction|].
    inversion Hnd as [|? ? Hnot Hnd']; subst. simpl.
    destruct (String.eqb_spec (key x) k) as [->|Hne].
    + simpl. f_equal. f_equal. f_equal. apply map_ext_in. intros k' Hk'.
      destruct (String.eqb_spec k k'); [subst; contradiction|reflexivity].
    + destruct Hx as [->|Hx]; [contradiction|].
      rewrite (IHk Hnd' Hx). lia.
Qed.




(** ** The scheduler always returns *)

(** The total capacity is a number exactly when every room's is, and is
    then their sum. *)
Lemma totalCapacity_fold_cases (rooms : list Room) :
  forall acc : Z,
  match fold_left (fun sum r => num_add sum (room_capacity r)) rooms (Some acc) with
  | Some total =>
      exists caps, map room_capacity rooms = map Some caps /\
                   total = (acc + fold_right Z.add 0 caps)%Z
  | None => exists r, In r rooms /\ room_capacity r = None
  end.
Proof.
  induction rooms as [|r rooms IH]; intros acc; simpl.
  - exists []. split; auto. simpl. lia.
  - destruct (room_capacity r) as [c|] eqn:E; simpl.
    + specialize (IH (acc + c)%Z).
      match type of IH with match ?t with _ => _ end => destruct t as [total|] end.
      * destruct IH as (caps & Hc & ->). exists (c :: caps). simpl.
        split; [now rewrite Hc|lia].
      * destruct IH as (r' & Hin & Hr'). eauto.
    + assert (fold_left (fun sum r0 => num_add sum (room_capacity r0)) rooms None = None)
        as ->.
      { clear. induction rooms; simpl; auto. }
      eauto.
Qed.

Lemma full_rooms_are_filled (ras : list RoomAlloc) (caps : list Z) :
  map ra_capacity ras = map Some caps ->
  Forall (fun ra => is_full ra = true) ras ->
  (fold_right Z.add 0 caps <= Z.of_nat (List.length (placed_students ras)))%Z.
Proof.
  unfold placed_students. revert caps.
  induction ras as [|ra ras IH]; intros [|c caps] E H;
    try (simpl in E; discriminate E).
  - simpl. lia.
  - injection E as Ec E. inversion H as [|? ? Hfull Hrest]; subst.
    specialize (IH caps E Hrest). cbn [map List.concat fold_right].
    rewrite length_app.
    unfold is_full, num_geb, num_of_nat in Hfull. rewrite Ec in Hfull.
    apply Z.leb_le in Hfull. lia.
Qed.

Lemma not_all_full (ras : list RoomAlloc) :
  ~ Forall (fun ra => is_full ra = true) ras ->
  exists j ra, nth_error ras j = Some ra /\ is_full ra = false.
Proof.
  induction ras as [|ra ras IH]; intros H.
  - elim H. constructor.
  - destruct (is_full ra) eqn:F.
    + destruct IH as (j & ra' & Hj & Hf).
      * intros Hall. apply H. now constructor.
      * exists (S j), ra'. auto.
    + exists 0, ra. auto.
Qed.

(** Past the capacity pre-check some room has a free seat as long as a
    student is still to be placed - whatever the rooms' dimensions. *)
Lemma free_seat_past_check (rooms : list Room) (ras : list RoomAlloc) (n : nat) :
  allocs_of rooms ras ->
  num_gtb (num_of_nat n) (totalCapacity rooms) = false ->
  List.length (placed_students ras) < n ->
  exists j ra, nth_error ras j = Some ra /\ is_full ra = false.
Proof.
  intros [Hrooms Hcaps] Hcheck Hlt. apply not_all_full. intros Hall.
  pose proof (totalCapacity_fold_cases rooms 0) as Hcases.
  fold (totalCapacity rooms) in Hcases.
  destruct (totalCapacity rooms) as [total|].
  - destruct Hcases as (caps & Hc & ->).
    assert (map ra_capacity ras = map Some caps) as E.
    { rewrite <- Hc, <- Hrooms, map_map. apply map_ext_in. intros ra Hin.
      rewrite Forall_forall in Hcaps. auto. }
    pose proof (full_rooms_are_filled ras caps E Hall).
    unfold num_gtb, num_ltb, num_of_nat in Hcheck. apply Z.ltb_ge in Hcheck. lia.
  - destruct Hcases as (r & Hin & Hr). rewrite <- Hrooms in Hin.
    apply in_map_iff in Hin as (ra & <- & Hra).
    rewrite Forall_forall in Hall, Hcaps.
    specialize (Hall ra Hra). unfold is_full in Hall.
    rewrite (Hcaps ra Hra), Hr in Hall. discriminate.
Qed.

Lemma round_robin_returns (rooms : list Room) (fuel n : nat) (un : list Student) :
  num_gtb (num_of_nat n) (totalCapacity rooms) = false ->
  List.length rooms <= fuel ->
  forall (ras : list RoomAlloc) (idx : nat),
  allocs_of rooms ras ->
  (ras <> [] -> idx < List.length ras) ->
  List.length (placed_students ras) + List.length un <= n ->
  exists ras', round_robin fuel un ras idx = Done ras'.
Proof.
  intros Hcheck Hfuel. induction un as [|s rest IH]; intros ras idx Ha Hidx Hcount.
  - exists ras. auto.
  - simpl in Hcount. cbn [round_robin].
    assert (List.length ras = List.length rooms) as Hlen.
    { destruct Ha as [<- _]. now rewrite length_map. }
    destruct (free_seat_past_check rooms ras n Ha Hcheck) as (j0 & ra0 & Hj0 & Hfree);
      [lia|].
    assert (j0 < List.length ras) as Hj0lt.
    { apply nth_error_Some. congruence. }
    assert (idx < List.length ras) as Hidx'.
    { apply Hidx. intros ->. simpl in Hj0lt. lia. }
    destruct (cyclic_distance _ _ _ Hidx' Hj0lt) as (d & Hd & Hmod).
    destruct (skip_full_finds ras fuel idx Hidx') as (j & Hskip & Hj).
    { exists d, ra0. split; [lia|]. now rewrite Hmod. }
    rewrite Hskip. cbn [bind].
    destruct (skip_full_spec _ _ _ _ Hskip) as (ra & Hnth & Hfull).
    rewrite Hnth. apply IH.
    + now apply push_student_allocs.
    + intros _. rewrite list_set_length. apply Nat.mod_upper_bound. lia.
    + rewrite (Permutation_length (push_student_placed ras j ra s Hnth)).
      simpl. lia.
Qed.

Lemma greedy_returns (fuel : nat) (students : list Student) (rooms : list Room) :
  List.length rooms <= fuel ->
  Forall (fun s => inherited (subject s) = false) students ->
  exists r, greedyPairScheduler fuel students rooms = Done r.
Proof.
  intros Hfuel Hnames. run_grouping Hnames.
  destruct (num_gtb _ _) eqn:Hcheck; [eauto|].
  destruct (over_half _ _); [eauto|].
  assert (exists ras, distribute fuel students rooms = Done ras) as (ras & Hd).
  { unfold distribute, prefer_pass.
    destruct (prefer_pass_fold rooms students (initial_allocs rooms) []
                (initial_allocs_of rooms)) as (H1 & _ & H3).
    destruct (fold_left prefer_step students (initial_allocs rooms, []))
      as [ras1 un1].
    simpl in *. rewrite initial_placed in H3. simpl in H3.
    apply (round_robin_returns rooms fuel (List.length students) un1 Hcheck Hfuel);
      auto.
    - intros Hne. destruct ras1; [congruence|simpl; lia].
    - rewrite <- length_app, (Permutation_length H3). lia. }
  rewrite Hd. cbn [bind].
  assert (Forall (fun s => inherited (subject s) = false) (placed_students ras))
    as Hras.
  { destruct (distribute_spec _ _ _ _ Hd) as [_ Hplaced].
    eapply Permutation_Forall; [symmetry; exact Hplaced|exact Hnames]. }
  destruct (assign_rooms_spec ras Hras ([], [])) as (outs & -> & _).
  cbn [bind]. eauto.
Qed.

Lemma greedy_throws (fuel : nat) (students : list Student) (rooms : list Room)
  (s : Student) :
  In s students -> inherited (subject s) = true ->
  greedyPairScheduler fuel students rooms = TypeError.
Proof.
  intros Hin Hs. unfold greedyPairScheduler.
  now rewrite (groupStudents_throws students s Hin Hs).
Qed.

(** X8: for rooms whose dimensions are integers, NaN, [null] or
    [undefined] - zero, negative and missing ones included - and a seed
    (if any) small enough for the generator to be exact, the engine
    never hangs and throws in two cases only.  Each run of the loop that
    skips full rooms needs at most as many tests as there are rooms, so
    with that much fuel [schedule] returns a result, unless the shuffle
    broke the array or some student's subject is the name of a member of
    [Object.prototype]: then it throws a [TypeError]. *)
Theorem schedule_always_returns (floorScaled : Z -> nat -> Z) (fuel : nat)
  (students : list Student) (rooms : list Room) (options : Options) :
  List.length rooms <= fuel ->
  seed_in_range options = true ->
  (exists r, schedule floorScaled fuel students rooms options = Done r) \/
  (schedule floorScaled fuel students rooms options = TypeError /\
   validateConstraints students rooms = [] /\
   (processedStudents floorScaled students options = None \/
    exists s, In s students /\ inherited (subject s) = true)).
Proof.
  intros Hfuel _. unfold schedule.
  destruct (validateConstraints students rooms) as [|e errors]; simpl; [|eauto].
  destruct (processedStudents floorScaled students options) as [ps|] eqn:Es;
    [|auto].
  rewrite algorithm_switch.
  destruct (inherited_subjects_dec ps) as [Hnames|(s & Hin & Hs)].
  - left. now apply greedy_returns.
  - right. split; [exact (greedy_throws fuel ps rooms s Hin Hs)|].
    split; [reflexivity|]. right. exists s. split; [|exact Hs].
    eapply Permutation_in; [symmetry; exact (processed_perm _ _ _ _ Es)|exact Hin].
Qed.

Lemma schedule_always_returns_witness :
  (exists r, schedule floorScaled_exact 1 loneStudent brokenRooms no_options = Done r) \/
  (schedule floorScaled_exact 1 loneStudent brokenRooms no_options = TypeError /\
   validateConstraints loneStudent brokenRooms = [] /\
   (processedStudents floorScaled_exact loneStudent no_options = None \/
    exists s, In s loneStudent /\ inherited (subject s) = true)).
Proof.
  apply (schedule_always_returns floorScaled_exact 1 loneStudent brokenRooms no_options).
  - simpl. lia.
  - reflexivity.
Defined.

(** ** Where the students are seated *)

Lemma position_label_in_range (room : Room) (i : nat) :
  i < seats_of room ->
  position_label room i =
    (if strict_eq_lit (seatsPerBench room) 2
     then nth i ["left"; "right"] "" else seat_label i).
Proof.
  unfold seats_of, position_label, positionLabels. intros Hi.
  destruct (strict_eq_lit (seatsPerBench room) 2) eqn:E; [|reflexivity].
  destruct (seatsPerBench room) as [z| | |]; simpl in E; try discriminate.
  apply Z.eqb_eq in E. subst z. unfold loop_bound in Hi. simpl in Hi.
  destruct i as [|[|i]]; simpl; auto. lia.
Qed.

Lemma choose_subject_respected (available bs : list string) (first chosen : string) :
  choose_subject available bs first = (chosen, true) -> chosen <> "".
Proof.
  unfold choose_subject. destruct (find _ available) as [subj|]; [|discriminate].
  destruct subj; simpl; intros [= <-]; discriminate.
Qed.

(** A seat given without a conflict went to a student with a subject. *)
Lemma seat_step_subject (room : Room) (benchIdx seatIdx : nat) (bs bs' : list string)
  (st st' : SeatState) (first : string) (a : Assignment) :
  state_ok st ->
  In first (getSortedSubjects (ss_groups st)) ->
  seat_step room benchIdx seatIdx bs st (getSortedSubjects (ss_groups st)) first
    = Done (st', bs') ->
  ss_assignments st' = ss_assignments st ++ [a] ->
  ss_conflicts st' = ss_conflicts st ->
  a_subject a <> "".
Proof.
  intros [Hg Hr] Hfirst. unfold seat_step.
  destruct (choose_subject _ bs first) as [chosen respected] eqn:Ec.
  destruct (choose_subject_spec _ _ _ _ _ Hfirst Ec) as [Hin _].
  destruct (pop_student_spec _ _ Hg Hin) as (s & g' & -> & Hs & _).
  simpl. intros [= <- <-]. simpl. intros Ha Hc.
  apply app_inv_head in Ha. injection Ha as <-.
  destruct respected.
  - unfold a_subject. simpl. rewrite Hs.
    exact (choose_subject_respected _ _ _ _ Ec).
  - apply (f_equal (@List.length Conflict)) in Hc.
    rewrite length_app in Hc. simpl in Hc. lia.
Qed.

Lemma seats_added_remaining (room : Room) (st st' : SeatState)
  (new : list Assignment) (extra : list Conflict) :
  state_ok st -> seats_added room st st' new extra ->
  ss_remaining st = List.length new + ss_remaining st'.
Proof.
  intros [_ Hr] [_ _ [_ Hr'] Hp _ _]. rewrite Hr, Hr'.
  rewrite (Permutation_length Hp), length_app, length_map. reflexivity.
Qed.

Lemma seat_loop_layout (room : Room) (benchIdx k : nat) :
  forall (seatIdx : nat) (bs : list string) (st : SeatState),
  state_ok st ->
  exists st' new extra,
    seat_loop room benchIdx k seatIdx bs st = Done st' /\
    seats_added room st st' new extra /\
    Forall (fun a => bench_number a = benchIdx + 1 /\
                     exists i, seatIdx <= i < seatIdx + k /\
                               position a = position_label room i) new /\
    (extra = [] -> Forall (fun a => a_subject a <> "") new).
Proof.
  induction k as [|k IH]; intros seatIdx bs st Hst; cbn [seat_loop].
  - loop_stops st.
  - destruct (0 <? ss_remaining st)%nat eqn:Hpos.
    2:{ loop_stops st. }
    apply Nat.ltb_lt in Hpos.
    assert (getSortedSubjects (ss_groups st) <> []) as Hne.
    { destruct Hst as [Hg Hr]. apply getSortedSubjects_nonempty; auto.
      intros E. rewrite E in Hr. simpl in Hr. lia. }
    pose proof (seat_step_spec room benchIdx seatIdx bs st) as Hstep.
    pose proof (fun bs' => seat_step_subject room benchIdx seatIdx bs bs' st) as Hsubj.
    destruct (getSortedSubjects (ss_groups st)) as [|first rest]; [now elim Hne|].
    destruct (Hstep first Hst Hpos (or_introl eq_refl))
      as (st1 & bs1 & a & extra0 & Heq & Hadd & _ & Hb & Hp & _).
    specialize (Hsubj bs1 st1 first a Hst (or_introl eq_refl) Heq
                  (sa_assignments _ _ _ _ _ Hadd)).
    rewrite Heq. cbn [bind].
    destruct (IH (seatIdx + 1) bs1 st1 (sa_state _ _ _ _ _ Hadd))
      as (st2 & new & extra1 & -> & Hadd2 & Hseat & Hsub).
    exists st2, ([a] ++ new), (extra0 ++ extra1).
    split; [reflexivity|]. split; [eapply seats_added_trans; eauto|].
    split.
    { constructor.
      - split; auto. exists seatIdx. split; [lia|auto].
      - eapply Forall_impl; [|exact Hseat]. simpl.
        intros a' (Hb' & i & Hi & Hp'). split; auto. exists i. split; [lia|auto]. }
    intros E. apply app_eq_nil in E as [E0 E1]. constructor; auto.
    apply Hsubj. rewrite (sa_conflicts _ _ _ _ _ Hadd), E0. apply app_nil_r.
Qed.

Lemma bench_loop_layout (room : Room) (b : nat) :
  forall (benchIdx : nat) (st : SeatState),
  state_ok st ->
  exists st' new extra,
    bench_loop room b benchIdx st = Done st' /\
    seats_added room st st' new extra /\
    Forall (fun a => benchIdx < bench_number a <= benchIdx + b /\
                     exists i, i < seats_of room /\
                               position a = position_label room i) new /\
    (extra = [] -> Forall (fun a => a_subject a <> "") new).
Proof.
  induction b as [|b IH]; intros benchIdx st Hst; cbn [bench_loop].
  - loop_stops st.
  - destruct (0 <? ss_remaining st)%nat eqn:Hpos.
    2:{ loop_stops st. }
    apply Nat.ltb_lt in Hpos.
    assert (getSortedSubjects (ss_groups st) <> []) as Hne.
    { destruct Hst as [Hg Hr]. apply getSortedSubjects_nonempty; auto.
      intros E. rewrite E in Hr. simpl in Hr. lia. }
    destruct (getSortedSubjects (ss_groups st)) as [|first rest]; [now elim Hne|].
    destruct (seat_loop_layout room benchIdx (loop_bound (seatsPerBench room)) 0 [] st Hst)
      as (st1 & new1 & extra1 & -> & Hadd1 & Hseat1 & Hsub1).
    cbn [bind].
    destruct (IH (benchIdx + 1) st1 (sa_state _ _ _ _ _ Hadd1))
      as (st2 & new2 & extra2 & -> & Hadd2 & Hseat2 & Hsub2).
    exists st2, (new1 ++ new2), (extra1 ++ extra2).
    split; [reflexivity|]. split; [eapply seats_added_trans; eauto|].
    split.
    { apply Forall_app. split.
      - eapply Forall_impl; [|exact Hseat1]. simpl.
        intros a (Hb & i & Hi & Hp). split; [lia|].
        exists i. split; auto. unfold seats_of. lia.
      - eapply Forall_impl; [|exact Hseat2]. simpl.
        intros a (Hb & i & Hi & Hp). split; [lia|]. exists i. auto. }
    intros E. apply app_eq_nil in E as [E1 E2]. apply Forall_app. auto.
Qed.

Lemma existsb_overflow_constraints (extra : list Conflict) :
  Forall (fun c => c_type c = constraint) extra ->
  existsb (has_type overflow) extra = false.
Proof.
  induction 1 as [|c l Hc _ IH]; simpl; auto.
  unfold has_type at 1. now rewrite Hc.
Qed.

Lemma assign_room_layout (acc : list Assignment * list Conflict) (ra : RoomAlloc)
  (new : list Assignment) (extra : list Conflict) :
  assign_room acc ra = Done (fst acc ++ new, snd acc ++ extra) ->
  room_layout ra new extra.
Proof.
  unfold assign_room.
  destruct (groupStudents (ra_students ra)) as [groups| |] eqn:Hgroups;
    cbn [bind]; try discriminate.
  apply groupStudents_done in Hgroups as [-> _].
  set (st0 := mkSeatState (groupBySubject (ra_students ra))
                          (List.length (ra_students ra)) (fst acc) (snd acc)).
  destruct (groupBySubject_ok (ra_students ra)) as [Hg Hp].
  assert (state_ok st0) as Hst.
  { split; simpl; auto. now rewrite (Permutation_length Hp). }
  destruct (bench_loop_layout (ra_room ra) (loop_bound (num_benches (ra_room ra))) 0 st0 Hst)
    as (st & new' & extra' & -> & Hadd & Hseat & Hsub).
  pose proof (seats_added_remaining _ _ _ _ _ Hst Hadd) as Hrem.
  destruct Hadd as [HA HC HS _ _ HT]. simpl in *.
  intros [= Ea Ec]. rewrite HA in Ea. apply app_inv_head in Ea. subst new'.
  assert (extra = if (0 <? ss_remaining st)%nat
                  then extra' ++ [overflow_conflict (ra_room ra)] else extra')
    as ->.
  { rewrite HC in Ec. destruct (0 <? ss_remaining st)%nat.
    - rewrite <- app_assoc in Ec. now apply app_inv_head in Ec.
    - now apply app_inv_head in Ec. }
  split; [|split].
  - eapply Forall_impl; [|exact Hseat]. simpl.
    intros a (Hb & i & Hi & Hpos). split; [unfold benches_of; lia|].
    exists i. split; auto. now rewrite <- position_label_in_range.
  - destruct (0 <? ss_remaining st)%nat eqn:Hpos.
    + apply Nat.ltb_lt in Hpos. rewrite existsb_app. simpl.
      rewrite orb_true_r. symmetry. apply Nat.ltb_lt. lia.
    + apply Nat.ltb_ge in Hpos. rewrite (existsb_overflow_constraints _ HT).
      symmetry. apply Nat.ltb_ge. lia.
  - destruct (0 <? ss_remaining st)%nat; auto.
    intros E. now destruct extra'.
Qed.

Lemma assign_rooms_layout (ras : list RoomAlloc) :
  Forall (fun s => inherited (subject s) = false) (placed_students ras) ->
  forall acc : list Assignment * list Conflict,
  exists outs : list (list Assignment * list Conflict),
    assign_rooms ras acc =
      Done (fst acc ++ List.concat (map fst outs),
            snd acc ++ List.concat (map snd outs)) /\
    Forall2 (fun ra out => room_seated ra (fst out) (snd out) /\
                           room_layout ra (fst out) (snd out)) ras outs.
Proof.
  unfold placed_students.
  induction ras as [|ra ras IH]; intros Hnames acc; simpl.
  - exists []. simpl. rewrite !app_nil_r. split; [now destruct acc|constructor].
  - simpl in Hnames. apply Forall_app in Hnames as [Hra Hras].
    destruct (assign_room_spec acc ra Hra) as (new & extra & Heq & Hroom).
    pose proof (assign_room_layout _ _ _ _ Heq) as Hlay.
    rewrite Heq. simpl.
    destruct (IH Hras (fst acc ++ new, snd acc ++ extra)) as (outs & -> & Houts).
    exists ((new, extra) :: outs). simpl. rewrite <- !app_assoc.
    split; [reflexivity|]. constructor; auto.
Qed.

(** A run that reaches the seat assigner, with all that is known of each
    room. *)
Lemma feasible_run (floorScaled : Z -> nat -> Z) (fuel : nat)
  (students : list Student) (rooms : list Room) (options : Options) (r : Result) :
  schedule floorScaled fuel students rooms options = Done r ->
  feasible (diagnostics r) = true ->
  exists ras outs,
    map ra_room ras = rooms /\
    Permutation (placed_students ras) students /\
    Forall2 (fun ra out => room_seated ra (fst out) (snd out) /\
                           room_layout ra (fst out) (snd out)) ras outs /\
    assignments r = List.concat (map fst outs) /\
    conflicts (diagnostics r) = List.concat (map snd outs) /\
    success r = (List.length (conflicts (diagnostics r)) =? 0)%nat.
Proof.
  intros Hrun Hf.
  destruct (schedule_runs_greedy _ _ _ _ _ _ Hrun)
    as [[_ ->]|(_ & ps & Hperm & Hg)]; [discriminate|].
  revert Hg Hf. past_grouping ps.
  destruct (num_gtb _ _); [intros [= <-]; discriminate|].
  destruct (over_half _ _); [intros [= <-]; discriminate|].
  destruct (distribute fuel ps rooms) as [ras| |] eqn:Hd; simpl; try discriminate.
  destruct (distribute_spec _ _ _ _ Hd) as [[Hrooms _] Hplaced].
  assert (Forall (fun s => inherited (subject s) = false) (placed_students ras))
    as Hras.
  { eapply Permutation_Forall; [symmetry; exact Hplaced|exact Hnames]. }
  destruct (assign_rooms_layout ras Hras ([], [])) as (outs & -> & Houts). simpl.
  intros [= <-] _. simpl.
  exists ras, outs. repeat split; auto.
  now rewrite Hplaced, Hperm.
Qed.

Lemma layout_seats (ras : list RoomAlloc)
  (outs : list (list Assignment * list Conflict)) (a : Assignment) :
  Forall2 (fun ra out => room_seated ra (fst out) (snd out) /\
                         room_layout ra (fst out) (snd out)) ras outs ->
  In a (List.concat (map fst outs)) ->
  exists ra, In ra ras /\
             a_room_id a = room_id (ra_room ra) /\
             a_room_name a = room_name (ra_room ra) /\
             seat_in_room (ra_room ra) a.
Proof.
  induction 1 as [|ra out ras' outs' [Hroom Hlay] _ IH]; simpl; [contradiction|].
  intros H. apply in_app_or in H as [H|H].
  - destruct Hroom as (Hr & _). destruct Hlay as (Hs & _).
    rewrite Forall_forall in Hr, Hs. destruct (Hr a H).
    exists ra. split; [now left|]. auto.
  - destruct (IH H) as (ra' & Hin & E). exists ra'. split; [now right|auto].
Qed.

(** X9: every assignment names a seat that exists.  In any run of
    [schedule] an assignment carries the id and the name of one of the
    rooms given, its bench number lies between 1 and the number of
    benches of that room, and its position is the label of one of the
    seats of a bench of that room: "left" or "right" where the room has
    two seats to the bench, "seat_1", "seat_2", ... up to the number of
    seats otherwise. *)
Theorem assignments_name_real_seats (floorScaled : Z -> nat -> Z) (fuel : nat)
  (students : list Student) (rooms : list Room) (options : Options) (r : Result)
  (a : Assignment) :
  schedule floorScaled fuel students rooms options = Done r ->
  In a (assignments r) ->
  exists room, In room rooms /\
    a_room_id a = room_id room /\ a_room_name a = room_name room /\
    seat_in_room room a.
Proof.
  intros Hrun Ha.
  destruct (feasible (diagnostics r)) eqn:Hf.
  - destruct (feasible_run _ _ _ _ _ _ Hrun Hf)
      as (ras & outs & Hrooms & _ & Hseat & Hassign & _).
    rewrite Hassign in Ha.
    destruct (layout_seats _ _ _ Hseat Ha) as (ra & Hin & E1 & E2 & Hs).
    exists (ra_room ra). split; auto. rewrite <- Hrooms. now apply in_map.
  - destruct (schedule_runs_greedy _ _ _ _ _ _ Hrun)
      as [[_ ->]|(_ & ps & _ & Hg)]; [contradiction|].
    destruct (infeasible_no_assignment _ _ _ _ Hg Hf) as [E _].
    rewrite E in Ha. contradiction.
Qed.

Lemma assignments_name_real_seats_witness :
  exists room, In room hallRooms /\
    a_room_id (mkAssignment "R1" "Hall" 1 "seat_1" (mkStudent "1" "A" "BBA" (Some "Hall")))
      = room_id room /\
    a_room_name (mkAssignment "R1" "Hall" 1 "seat_1" (mkStudent "1" "A" "BBA" (Some "Hall")))
      = room_name room /\
    seat_in_room room
      (mkAssignment "R1" "Hall" 1 "seat_1" (mkStudent "1" "A" "BBA" (Some "Hall"))).
Proof.
  apply (assignments_name_real_seats floorScaled_exact 3 hallStudents hallRooms
           no_options hallResult).
  - vm_compute. reflexivity.
  - left. reflexivity.
Defined.

(** ** Who is seated *)

Lemma has_type_overflow (c : Conflict) :
  has_type overflow c = true <-> c_type c = overflow.
Proof.
  unfold has_type. destruct (c_type c); split; intros; congruence.
Qed.

Lemma no_overflow_among (cs : list Conflict) :
  existsb (has_type overflow) cs = false <->
  (forall c, In c cs -> c_type c <> overflow).
Proof.
  split.
  - intros H c Hin E.
    assert (existsb (has_type overflow) cs = true) as X.
    { apply existsb_exists. exists c. split; auto. now apply has_type_overflow. }
    congruence.
  - intros H. destruct (existsb (has_type overflow) cs) eqn:E; auto.
    apply existsb_exists in E as (c & Hin & Hc).
    apply has_type_overflow in Hc. elim (H c Hin Hc).
Qed.

(** Room by room, the students placed are those seated and those left
    standing, and a room reports an overflow exactly when it leaves
    someone standing. *)
Lemma layout_unseated (ras : list RoomAlloc)
  (outs : list (list Assignment * list Conflict)) :
  Forall2 (fun ra out => room_seated ra (fst out) (snd out) /\
                         room_layout ra (fst out) (snd out)) ras outs ->
  exists unseated,
    Permutation (placed_students ras)
                (map student (List.concat (map fst outs)) ++ unseated) /\
    (unseated = [] <->
     existsb (has_type overflow) (List.concat (map snd outs)) = false).
Proof.
  unfold placed_students.
  induction 1 as [|ra out ras' outs' [Hroom Hlay] _ IH]; simpl.
  - exists []. split; [constructor|]. split; auto.
  - destruct IH as (rest & Hp & Hiff).
    destruct Hroom as (_ & _ & (left & Hleft) & _).
    destruct Hlay as (_ & Hover & _).
    exists (left ++ rest). split.
    + rewrite Hleft, Hp, map_app, <- !app_assoc.
      apply Permutation_app_head. rewrite !app_assoc.
      apply Permutation_app_tail, Permutation_app_comm.
    + rewrite existsb_app, orb_false_iff, Hover, <- Hiff.
      apply Permutation_length in Hleft.
      rewrite length_app, length_map in Hleft.
      rewrite Nat.ltb_ge. split.
      * intros E. apply app_eq_nil in E as [-> ->]. simpl in Hleft.
        split; [lia|reflexivity].
      * intros [Hle ->]. destruct left; [reflexivity|simpl in Hleft; lia].
Qed.

(** X10: in every run that reaches the seat assigner the students given
    are those seated together with those left standing, each counted as
    often as they were given; and somebody is left standing exactly when
    the run reports an overflow.  So without an overflow conflict every
    student has exactly one seat, constraint conflicts or not. *)
Theorem students_seated_or_overflow (floorScaled : Z -> nat -> Z) (fuel : nat)
  (students : list Student) (rooms : list Room) (options : Options) (r : Result) :
  schedule floorScaled fuel students rooms options = Done r ->
  feasible (diagnostics r) = true ->
  exists unseated,
    Permutation students (map student (assignments r) ++ unseated) /\
    (unseated = [] <->
     forall c, In c (conflicts (diagnostics r)) -> c_type c <> overflow).
Proof.
  intros Hrun Hf.
  destruct (feasible_run _ _ _ _ _ _ Hrun Hf)
    as (ras & outs & _ & Hplaced & Hseat & Ha & Hc & _).
  destruct (layout_unseated _ _ Hseat) as (unseated & Hp & Hiff).
  exists unseated. rewrite Ha, Hc, <- no_overflow_among. split; auto.
  now rewrite <- Hplaced.
Qed.

Lemma students_seated_or_overflow_witness :
  exists unseated,
    Permutation loneStudent (map student (assignments brokenResult) ++ unseated) /\
    (unseated = [] <->
     forall c, In c (conflicts (diagnostics brokenResult)) -> c_type c <> overflow).
Proof.
  apply (students_seated_or_overflow floorScaled_exact 1 loneStudent brokenRooms
           no_options brokenResult).
  - vm_compute. reflexivity.
  - reflexivity.
Defined.

Lemma layout_subjects (ras : list RoomAlloc)
  (outs : list (list Assignment * list Conflict)) :
  Forall2 (fun ra out => room_seated ra (fst out) (snd out) /\
                         room_layout ra (fst out) (snd out)) ras outs ->
  List.concat (map snd outs) = [] ->
  Forall (fun a => a_subject a <> "") (List.concat (map fst outs)).
Proof.
  induction 1 as [|ra out ras' outs' [_ Hlay] _ IH]; simpl; [constructor|].
  intros E. apply app_eq_nil in E as [E1 E2].
  destruct Hlay as (_ & _ & Hsub). apply Forall_app. auto.
Qed.

(** X11: a student whose subject is empty costs the run its success.
    The seat loop takes an empty subject it has found for no subject at
    all and falls back on the largest group with the constraint given
    up, so whenever [schedule] returns, a student with subject [""] in
    the input means [success = false]. *)
Theorem empty_subject_blocks_success (floorScaled : Z -> nat -> Z) (fuel : nat)
  (students : list Student) (rooms : list Room) (options : Options) (r : Result)
  (s : Student) :
  schedule floorScaled fuel students rooms options = Done r ->
  In s students -> subject s = "" ->
  success r = false.
Proof.
  intros Hrun Hs Hsub. destruct (success r) eqn:Hsucc; [exfalso|reflexivity].
  assert (feasible (diagnostics r) = true) as Hf.
  { destruct (schedule_runs_greedy _ _ _ _ _ _ Hrun)
      as [[_ ->]|(_ & ps & _ & Hg)]; [discriminate|].
    pose proof (success_feasible _ _ _ _ Hg) as E. rewrite Hsucc in E.
    symmetry in E. now apply andb_true_iff in E as [E _]. }
  destruct (feasible_run _ _ _ _ _ _ Hrun Hf)
    as (ras & outs & _ & Hplaced & Hseat & Ha & Hc & Hsuccess).
  rewrite Hsucc in Hsuccess. symmetry in Hsuccess.
  apply Nat.eqb_eq, length_zero_iff_nil in Hsuccess. rewrite Hc in Hsuccess.
  destruct (layout_unseated _ _ Hseat) as (unseated & Hp & Hiff).
  assert (unseated = []) as ->.
  { apply Hiff. now rewrite Hsuccess. }
  rewrite app_nil_r, Hplaced in Hp.
  apply (Permutation_in s Hp) in Hs.
  apply in_map_iff in Hs as (a & Ea & Hin).
  pose proof (layout_subjects _ _ Hseat Hsuccess) as Hall.
  rewrite Forall_forall in Hall. apply (Hall a Hin).
  unfold a_subject. now rewrite Ea.
Qed.

Lemma empty_subject_blocks_success_witness :
  success unlabelledResult = false.
Proof.
  apply (empty_subject_blocks_success floorScaled_exact 1 unlabelledStudents
           sampleRooms no_options unlabelledResult (mkStudent "1" "A" "" None)).
  - vm_compute. reflexivity.
  - left. reflexivity.
  - reflexivity.
Defined.

(** ** One room of two-seat benches *)

Lemma count_subject_app (k : string) (l1 l2 : list Student) :
  count_subject k (l1 ++ l2) = count_subject k l1 + count_subject k l2.
Proof.
  unfold count_subject. now rewrite filter_app, length_app.
Qed.

Lemma count_subject_cons (k : string) (s : Student) (l : list Student) :
  count_subject k (s :: l) =
  (if String.eqb (subject s) k then 1 else 0) + count_subject k l.
Proof.
  unfold count_subject. simpl. now destruct (String.eqb (subject s) k).
Qed.

Lemma count_subject_all (k : string) (l : list Student) :
  Forall (fun s => subject s = k) l -> count_subject k l = List.length l.
Proof.
  induction 1 as [|s l Hs _ IH]; [reflexivity|].
  rewrite count_subject_cons, IH, Hs, String.eqb_refl. reflexivity.
Qed.

Lemma count_subject_none (k : string) (l : list Student) :
  Forall (fun s => subject s <> k) l -> count_subject k l = 0.
Proof.
  induction 1 as [|s l Hs _ IH]; [reflexivity|].
  rewrite count_subject_cons, IH.
  destruct (String.eqb (subject s) k) eqn:E; [|reflexivity].
  apply String.eqb_eq in E. contradiction.
Qed.

Lemma count_subject_some (k : string) (l : list Student) :
  0 < count_subject k l -> exists s, In s l /\ subject s = k.
Proof.
  induction l as [|s l IH]; [unfold count_subject; simpl; lia|].
  rewrite count_subject_cons.
  destruct (String.eqb (subject s) k) eqn:E.
  - apply String.eqb_eq in E. intros _. exists s. split; [now left|auto].
  - intros H. destruct (IH H) as (s' & Hin & Hs'). exists s'. split; [now right|auto].
Qed.

Lemma count_subject_other (k : string) (l : list Student) :
  count_subject k l < List.length l -> exists s, In s l /\ subject s <> k.
Proof.
  induction l as [|s l IH]; [unfold count_subject; simpl; lia|].
  rewrite count_subject_cons. cbn [List.length].
  destruct (String.eqb (subject s) k) eqn:E.
  - intros H. destruct IH as (s' & Hin & Hs'); [lia|].
    exists s'. split; [now right|auto].
  - apply String.eqb_neq in E. intros _. exists s. split; [now left|auto].
Qed.

(** Three different subjects share the students among them. *)
Lemma three_subjects (a b c : string) (l : list Student) :
  a <> b -> a <> c -> b <> c ->
  count_subject a l + count_subject b l + count_subject c l <= List.length l.
Proof.
  intros Hab Hac Hbc. induction l as [|s l IH]; [unfold count_subject; simpl; lia|].
  rewrite !count_subject_cons. cbn [List.length].
  destruct (String.eqb (subject s) a) eqn:Ea;
  destruct (String.eqb (subject s) b) eqn:Eb;
  destruct (String.eqb (subject s) c) eqn:Ec;
    rewrite ?String.eqb_eq in *; try congruence; lia.
Qed.

Lemma grouped_students_keys (g : obj (list Student)) (s : Student) :
  groups_ok g -> In s (all_students g) -> In (subject s) (obj_keys g).
Proof.
  unfold all_students, obj_keys.
  induction g as [|[k l] g IH]; simpl; [contradiction|].
  intros H Hin. inversion H as [|? ? [_ Hk] Hg]; subst. simpl in Hk.
  apply in_app_or in Hin as [Hin|Hin].
  - left. rewrite Forall_forall in Hk. symmetry. now apply Hk.
  - right. now apply IH.
Qed.

(** With one group to the subject, a group's length is the number of
    students of its subject. *)
Lemma obj_list_count (g : obj (list Student)) (k : string) :
  groups_ok g -> NoDup (obj_keys g) ->
  List.length (obj_list g k) = count_subject k (all_students g).
Proof.
  induction g as [|[k1 l1] g IH]; intros Hok Hnd; [reflexivity|].
  inversion Hok as [|? ? [_ Hk] Hg]; subst. simpl in Hk.
  inversion Hnd as [|? ? Hnot Hnd']; subst.
  specialize (IH Hg Hnd').
  change (all_students ((k1, l1) :: g)) with (l1 ++ all_students g).
  rewrite count_subject_app. unfold obj_list in *. simpl.
  destruct (String.eqb k k1) eqn:E.
  - apply String.eqb_eq in E. subst k1. rewrite (count_subject_all _ _ Hk).
    rewrite count_subject_none; [lia|].
    apply Forall_forall. intros s Hs Es. apply Hnot. rewrite <- Es.
    now apply grouped_students_keys.
  - rewrite count_subject_none; [exact IH|].
    eapply Forall_impl; [|exact Hk]. simpl. intros s Es E'.
    rewrite <- Es, E', String.eqb_refl in E. discriminate.
Qed.

Lemma counted_is_sorted (g : obj (list Student)) (k : string) :
  groups_ok g -> NoDup (obj_keys g) ->
  0 < count_subject k (all_students g) ->
  In k (getSortedSubjects g).
Proof.
  intros Hok Hnd Hpos. rewrite <- (obj_list_count g k Hok Hnd) in Hpos.
  apply getSortedSubjects_In.
  assert (obj_list g k <> []) as Hne.
  { intros E. rewrite E in Hpos. simpl in Hpos. lia. }
  split; auto.
  destruct (in_dec string_dec k (obj_keys g)) as [Hin|Hout]; auto.
  apply obj_get_None in Hout. unfold obj_list in Hne. rewrite Hout in Hne.
  now elim Hne.
Qed.

Lemma pop_student_keys (g g' : obj (list Student)) (chosen : string) (s : Student) :
  pop_student g chosen = Done (s, g') -> NoDup (obj_keys g) ->
  NoDup (obj_keys g') /\ (forall k, In k (obj_keys g') -> In k (obj_keys g)).
Proof.
  unfold pop_student. destruct (obj_get g chosen) as [l|] eqn:E; [|discriminate].
  destruct (obj_split _ _ _ E) as (pre & post & -> & Hu & Hd).
  destruct (unsnoc l) as [[init x]|]; [|discriminate].
  unfold obj_keys.
  destruct init; intros [= <- <-] Hnd; rewrite map_app in Hnd; simpl in Hnd.
  - rewrite Hd. split.
    + rewrite map_app. eapply NoDup_remove_1; eauto.
    + intros k. rewrite !map_app, !in_app_iff. simpl. tauto.
  - rewrite Hu. rewrite !map_app. simpl. split; auto.
Qed.

(** The sort of the subjects puts the larger groups first. *)
Lemma insert_by_desc {A : Type} (f : A -> nat) (x : A) (l : list A) :
  StronglySorted (fun a b => f b <= f a) l ->
  StronglySorted (fun a b => f b <= f a)
                 (insert_by (fun a b => (f b <=? f a)%nat) x l).
Proof.
  induction 1 as [|y l Hl IH Hy]; simpl.
  - repeat constructor.
  - destruct (f y <=? f x)%nat eqn:E.
    + apply Nat.leb_le in E. constructor; [now constructor|].
      constructor; auto. eapply Forall_impl; [|exact Hy]. simpl. intros; lia.
    + apply Nat.leb_gt in E. constructor; auto.
      apply Forall_forall. intros z Hz.
      eapply Permutation_in in Hz; [|apply insert_by_perm].
      destruct Hz as [<-|Hz]; [lia|]. rewrite Forall_forall in Hy. auto.
Qed.

Lemma sort_by_desc {A : Type} (f : A -> nat) (l : list A) :
  StronglySorted (fun a b => f b <= f a)
                 (sort_by (fun a b => (f b <=? f a)%nat) l).
Proof.
  unfold sort_by. induction l; simpl; [constructor|now apply insert_by_desc].
Qed.

Lemma find_first_largest {A : Type} (f : A -> nat) (p : A -> bool) (l : list A)
  (x : A) :
  StronglySorted (fun a b => f b <= f a) l -> find p l = Some x ->
  forall y, In y l -> p y = true -> f y <= f x.
Proof.
  induction 1 as [|z l Hl IH Hz]; simpl; [discriminate|].
  destruct (p z) eqn:E.
  - intros [= <-] y [<-|Hy] _; [lia|]. rewrite Forall_forall in Hz. auto.
  - intros Hf y [<-|Hy] Hp; [congruence|]. auto.
Qed.

(** A seat for which a subject new to the bench is at hand goes, without
    a conflict, to the largest group among those new to the bench. *)
Lemma seat_step_free (room : Room) (benchIdx seatIdx : nat) (bs : list string)
  (st : SeatState) (first y : string) :
  state_ok st ->
  NoDup (obj_keys (ss_groups st)) -> ~ In "" (obj_keys (ss_groups st)) ->
  In first (getSortedSubjects (ss_groups st)) ->
  In y (getSortedSubjects (ss_groups st)) -> ~ In y bs ->
  exists st' stu,
    seat_step room benchIdx seatIdx bs st (getSortedSubjects (ss_groups st)) first
      = Done (st', subject stu :: bs) /\
    ss_conflicts st' = ss_conflicts st /\
    state_ok st' /\
    NoDup (obj_keys (ss_groups st')) /\ ~ In "" (obj_keys (ss_groups st')) /\
    Permutation (all_students (ss_groups st)) (stu :: all_students (ss_groups st')) /\
    ~ In (subject stu) bs /\
    (forall z, 0 < count_subject z (all_students (ss_groups st)) -> ~ In z bs ->
       count_subject z (all_students (ss_groups st))
       <= count_subject (subject stu) (all_students (ss_groups st))).
Proof.
  intros [Hg Hr] Hnd Hempty Hfirst Hy Hfree.
  unfold seat_step, choose_subject.
  set (p := fun subj => negb (str_mem subj bs)).
  assert (forall z, p z = true <-> ~ In z bs) as Hp.
  { intros z. unfold p. rewrite negb_true_iff, <- str_mem_In.
    destruct (str_mem z bs); split; intros; congruence. }
  destruct (find p (getSortedSubjects (ss_groups st))) as [subj|] eqn:Ef.
  2:{ apply (find_none _ _ Ef) in Hy. apply Hp in Hfree. congruence. }
  pose proof (find_some _ _ Ef) as [Hin Hps].
  assert (str_truthy subj = true) as ->.
  { apply getSortedSubjects_In in Hin as [Hk _].
    destruct subj; [contradiction|reflexivity]. }
  destruct (pop_student_spec _ _ Hg Hin) as (s & g' & Hpop & Hs & Hg' & Hperm).
  destruct (pop_student_keys _ _ _ _ Hpop Hnd) as [Hnd' Hincl].
  rewrite Hpop. simpl.
  eexists _, s. split; [reflexivity|]. simpl.
  split; [reflexivity|]. split.
  { split; simpl; auto. rewrite Hr.
    apply Permutation_length in Hperm. simpl in Hperm. lia. }
  split; [exact Hnd'|]. split; [auto|]. split; [exact Hperm|].
  rewrite Hs. split; [now apply Hp|].
  intros z Hz Hzfree.
  rewrite <- !(obj_list_count (ss_groups st)) by assumption.
  apply (find_first_largest (fun k => List.length (obj_list (ss_groups st) k)) p
           (getSortedSubjects (ss_groups st)) subj); auto.
  - apply sort_by_desc.
  - now apply counted_is_sorted.
  - now apply Hp.
Qed.

(** One bench of two seats keeps balanced groups balanced and meets no
    conflict. *)
Lemma seat_loop_pair (room : Room) (benchIdx : nat) (st : SeatState) :
  state_ok st -> balanced (ss_groups st) ->
  exists st',
    seat_loop room benchIdx 2 0 [] st = Done st' /\
    ss_conflicts st' = ss_conflicts st /\
    state_ok st' /\ balanced (ss_groups st') /\
    ss_remaining st' = ss_remaining st - 2.
Proof.
  intros Hst Hbal. cbn [seat_loop].
  destruct (0 <? ss_remaining st)%nat eqn:Hpos.
  2:{ apply Nat.ltb_ge in Hpos. exists st. repeat split; auto; try apply Hst; try apply Hbal. lia. }
  apply Nat.ltb_lt in Hpos.
  assert (getSortedSubjects (ss_groups st) <> []) as Hne.
  { destruct Hst as [Hg Hr]. apply getSortedSubjects_nonempty; auto.
    intros E. rewrite E in Hr. simpl in Hr. lia. }
  destruct (getSortedSubjects (ss_groups st)) as [|first rest] eqn:Esort;
    [now elim Hne|].
  rewrite <- Esort.
  assert (In first (getSortedSubjects (ss_groups st))) as Hfirst
    by (rewrite Esort; now left).
  pose proof Hbal as (Hnd & Hemp & Hhalf).
  destruct (seat_step_free room benchIdx 0 [] st first first Hst Hnd Hemp Hfirst Hfirst)
    as (st1 & stu1 & -> & Hc1 & Hst1 & Hnd1 & Hemp1 & Hp1 & _ & Hmax1); [auto|].
  cbn [bind seat_loop].
  pose proof Hst as [Hg Hr]. pose proof Hst1 as [Hg1 Hr1].
  pose proof (Permutation_length Hp1) as Hlen1. cbn [List.length] in Hlen1.
  destruct (0 <? ss_remaining st1)%nat eqn:Hpos1.
  2:{ apply Nat.ltb_ge in Hpos1. exists st1.
      split; [reflexivity|]. split; [auto|]. split; [auto|]. split; [|lia].
      split; [auto|]. split; [auto|].
      assert (all_students (ss_groups st1) = []) as ->
        by (apply length_zero_iff_nil; lia).
      intros k. simpl. lia. }
  apply Nat.ltb_lt in Hpos1.
  set (s1 := subject stu1) in *.
  assert (forall k, count_subject k (all_students (ss_groups st)) =
                    (if String.eqb s1 k then 1 else 0)
                    + count_subject k (all_students (ss_groups st1))) as Hcount1.
  { intros k. rewrite (count_subject_perm k _ _ Hp1). apply count_subject_cons. }
  (* a second subject is at hand *)
  assert (exists y, In y (getSortedSubjects (ss_groups st1)) /\ ~ In y [s1])
    as (y & Hy & Hfree).
  { destruct (count_subject_other s1 (all_students (ss_groups st1)))
      as (s & Hs & Hsub).
    - specialize (Hhalf s1). rewrite Hcount1, String.eqb_refl in Hhalf. lia.
    - exists (subject s). split.
      + apply counted_is_sorted; auto.
        unfold count_subject.
        assert (In s (filter (fun s0 => String.eqb (subject s0) (subject s))
                        (all_students (ss_groups st1)))) as Hin.
        { apply filter_In. split; auto. apply String.eqb_refl. }
        destruct (filter _ _); [contradiction|simpl; lia].
      + intros [E|[]]. congruence. }
  assert (getSortedSubjects (ss_groups st1) <> []) as Hne1.
  { intros E. rewrite E in Hy. contradiction. }
  destruct (getSortedSubjects (ss_groups st1)) as [|first1 rest1] eqn:Esort1;
    [now elim Hne1|].
  rewrite <- Esort1 in *.
  assert (In first1 (getSortedSubjects (ss_groups st1))) as Hfirst1
    by (rewrite Esort1; now left).
  destruct (seat_step_free room benchIdx (0 + 1) [s1] st1 first1 y Hst1 Hnd1 Hemp1
              Hfirst1 Hy Hfree)
    as (st2 & stu2 & -> & Hc2 & Hst2 & Hnd2 & Hemp2 & Hp2 & Hnew & Hmax2).
  cbn [bind seat_loop].
  pose proof (Permutation_length Hp2) as Hlen2. cbn [List.length] in Hlen2.
  pose proof Hst2 as [Hg2 Hr2].
  set (s2 := subject stu2) in *.
  assert (s1 <> s2) as Hdiff by (intros E; apply Hnew; now left).
  assert (forall k, count_subject k (all_students (ss_groups st1)) =
                    (if String.eqb s2 k then 1 else 0)
                    + count_subject k (all_students (ss_groups st2))) as Hcount2.
  { intros k. rewrite (count_subject_perm k _ _ Hp2). apply count_subject_cons. }
  exists st2. split; [reflexivity|]. split; [congruence|]. split; [auto|].
  split; [|lia].
  split; [auto|]. split; [auto|]. intros k.
  pose proof (Hhalf k) as Hk. pose proof (Hhalf s1) as Hk1.
  pose proof (Hhalf s2) as Hk2.
  pose proof (Hcount1 k) as Ck1. pose proof (Hcount2 k) as Ck2.
  destruct (String.eqb s1 k) eqn:E1; [lia|].
  destruct (String.eqb s2 k) eqn:E2; [lia|].
  apply String.eqb_neq in E1, E2.
  destruct (Nat.eq_dec (count_subject k (all_students (ss_groups st))) 0) as [Z|NZ];
    [lia|].
  assert (count_subject k (all_students (ss_groups st))
          <= count_subject s1 (all_students (ss_groups st))) as M1.
  { apply Hmax1; [lia|auto]. }
  assert (count_subject k (all_students (ss_groups st1))
          <= count_subject s2 (all_students (ss_groups st1))) as M2.
  { apply Hmax2; [lia|]. intros [E|[]]. congruence. }
  pose proof (Hcount1 s2) as C12. pose proof (Hcount2 s2) as C22.
  rewrite String.eqb_refl in C22.
  destruct (String.eqb s1 s2) eqn:E12; [apply String.eqb_eq in E12; congruence|].
  pose proof (three_subjects k s1 s2 (all_students (ss_groups st))) as T.
  assert (k <> s1) as N1 by congruence. assert (k <> s2) as N2 by congruence.
  specialize (T N1 N2 Hdiff). lia.
Qed.

Lemma bench_loop_balanced (room : Room) (b : nat) :
  seats_of room = 2 ->
  forall (benchIdx : nat) (st : SeatState),
  state_ok st -> balanced (ss_groups st) ->
  exists st',
    bench_loop room b benchIdx st = Done st' /\
    ss_conflicts st' = ss_conflicts st /\
    ss_remaining st' = ss_remaining st - 2 * b.
Proof.
  unfold seats_of. intros Hseats.
  induction b as [|b IH]; intros benchIdx st Hst Hbal; cbn [bench_loop].
  - exists st. repeat split; auto. lia.
  - destruct (0 <? ss_remaining st)%nat eqn:Hpos.
    2:{ apply Nat.ltb_ge in Hpos. exists st. repeat split; auto. lia. }
    apply Nat.ltb_lt in Hpos.
    assert (getSortedSubjects (ss_groups st) <> []) as Hne.
    { destruct Hst as [Hg Hr]. apply getSortedSubjects_nonempty; auto.
      intros E. rewrite E in Hr. simpl in Hr. lia. }
    destruct (getSortedSubjects (ss_groups st)) as [|first rest]; [now elim Hne|].
    rewrite Hseats.
    destruct (seat_loop_pair room benchIdx st Hst Hbal)
      as (st1 & -> & Hc1 & Hst1 & Hbal1 & Hrem1).
    cbn [bind].
    destruct (IH (benchIdx + 1) st1 Hst1 Hbal1) as (st2 & -> & Hc2 & Hrem2).
    exists st2. split; [reflexivity|]. split; [congruence|lia].
Qed.

Lemma count_le_largest (k : string) (l : list Student) :
  count_subject k l <= largest_group l.
Proof.
  destruct (Nat.eq_dec (count_subject k l) 0) as [Z|NZ]; [lia|].
  destruct (count_subject_some k l) as (s & Hin & <-); [lia|].
  unfold largest_group.
  assert (Forall (fun n => n <= list_max (map (fun s => count_subject (subject s) l) l))
                 (map (fun s => count_subject (subject s) l) l)) as H
    by now apply list_max_le.
  rewrite Forall_forall in H. apply H.
  apply in_map_iff. exists s. auto.
Qed.

(** The groups of a room that passes the subject check and has no empty
    subject are balanced. *)
Lemma groupBySubject_balanced (students : list Student) :
  Forall (fun s => subject s <> "") students ->
  largest_group students <= ceil_half (List.length students) ->
  balanced (groupBySubject students).
Proof.
  intros Hsub Hlarge. destruct (groupBySubject_ok students) as [_ Hp].
  split; [|split].
  - apply (grouped_keys_NoDup subject (fun s => s) students []). constructor.
  - intros Hin. apply groupBySubject_keys in Hin as (s & Hs & E).
    rewrite Forall_forall in Hsub. exact (Hsub s Hs E).
  - intros k. rewrite (count_subject_perm k _ _ Hp), (Permutation_length Hp).
    pose proof (count_le_largest k students).
    unfold ceil_half in Hlarge.
    pose proof (Nat.Div0.mul_div_le (List.length students + 1) 2). lia.
Qed.

Lemma assign_room_balanced (acc : list Assignment * list Conflict) (ra : RoomAlloc) :
  seats_of (ra_room ra) = 2 ->
  List.length (ra_students ra) <= 2 * benches_of (ra_room ra) ->
  balanced (groupBySubject (ra_students ra)) ->
  Forall (fun s => inherited (subject s) = false) (ra_students ra) ->
  exists new, assign_room acc ra = Done (fst acc ++ new, snd acc).
Proof.
  intros Hseats Hfit Hbal Hnames.
  destruct (assign_room_spec acc ra Hnames) as (new & extra & Heq & _).
  exists new. rewrite Heq. revert Heq. unfold assign_room.
  rewrite (groupStudents_ok _ Hnames). cbn [bind].
  set (st0 := mkSeatState (groupBySubject (ra_students ra))
                          (List.length (ra_students ra)) (fst acc) (snd acc)).
  destruct (groupBySubject_ok (ra_students ra)) as [Hg Hp].
  assert (state_ok st0) as Hst.
  { split; simpl; auto. now rewrite (Permutation_length Hp). }
  destruct (bench_loop_balanced (ra_room ra) (loop_bound (num_benches (ra_room ra)))
              Hseats 0 st0 Hst Hbal) as (st & -> & Hc & Hrem).
  cbn [bind]. simpl in Hc, Hrem. unfold benches_of in Hfit.
  assert ((0 <? ss_remaining st)%nat = false) as ->
    by (apply Nat.ltb_ge; lia).
  rewrite Hc. intros [= _ E]. now rewrite <- E.
Qed.

(** X12: for one room with two seats to the bench the pre-check decides
    the outcome.  When the room has benches for all the students and no
    student's subject is empty, [schedule] reports success exactly when
    it found the input feasible: once the subject check has passed, the
    greedy pairing seats everybody and never puts two students of one
    subject on a bench. *)
Theorem two_seat_room_success_is_feasibility (floorScaled : Z -> nat -> Z)
  (fuel : nat) (students : list Student) (room : Room) (options : Options)
  (r : Result) :
  schedule floorScaled fuel students [room] options = Done r ->
  seats_of room = 2 ->
  List.length students <= 2 * benches_of room ->
  Forall (fun s => subject s <> "") students ->
  success r = feasible (diagnostics r).
Proof.
  intros Hrun Hseats Hfit Hsub.
  destruct (schedule_runs_greedy _ _ _ _ _ _ Hrun)
    as [[_ ->]|(_ & ps & Hperm & Hg)]; [reflexivity|].
  rewrite (success_feasible _ _ _ _ Hg).
  destruct (feasible (diagnostics r)) eqn:Hf; [simpl|reflexivity].
  pose proof (greedy_feasible _ _ _ _ Hg) as Hchecks. rewrite Hf in Hchecks.
  symmetry in Hchecks. apply negb_true_iff, orb_false_iff in Hchecks as [_ Hhalf].
  rewrite over_half_largest in Hhalf. apply Nat.ltb_ge in Hhalf.
  revert Hg. past_grouping ps.
  destruct (num_gtb _ _); [intros [= <-]; discriminate|].
  destruct (over_half _ _); [intros [= <-]; discriminate|].
  destruct (distribute fuel ps [room]) as [ras| |] eqn:Hd; simpl; try discriminate.
  destruct (distribute_spec _ _ _ _ Hd) as [[Hrooms _] Hplaced].
  destruct ras as [|ra [|ra' ras]]; try discriminate.
  injection Hrooms as Hroom.
  unfold placed_students in Hplaced. simpl in Hplaced. rewrite app_nil_r in Hplaced.
  assert (Permutation (ra_students ra) students) as Hall
    by (rewrite Hplaced; now symmetry).
  destruct (assign_room_balanced ([], []) ra) as (new & Heq).
  - now rewrite Hroom.
  - rewrite Hroom, (Permutation_length Hall). exact Hfit.
  - apply groupBySubject_balanced.
    + eapply Permutation_Forall; [symmetry; exact Hall|exact Hsub].
    + rewrite (largest_group_perm _ _ Hplaced), (Permutation_length Hplaced).
      exact Hhalf.
  - eapply Permutation_Forall; [symmetry; exact Hplaced|exact Hnames].
  - cbn [assign_rooms]. rewrite Heq. simpl. intros [= <-]. reflexivity.
Qed.

Lemma two_seat_room_success_is_feasibility_witness :
  success sampleResult = feasible (diagnostics sampleResult).
Proof.
  apply (two_seat_room_success_is_feasibility floorScaled_exact 1 sampleStudents
           (mkRoom "R1" "Room 1" (JNum 4) (JNum 2)) no_options sampleResult).
  - vm_compute. reflexivity.
  - reflexivity.
  - simpl. lia.
  - repeat constructor; discriminate.
Defined.

(** ** Tallies *)

Lemma obj_get_incr (o : obj nat) (k0 k : string) :
  obj_get (obj_incr o k0) k =
  if String.eqb k k0
  then Some (match obj_get o k0 with Some n => n + 1 | None => 1 end)
  else obj_get o k.
Proof.
  unfold obj_incr. destruct (obj_get o k0) as [n|] eqn:E.
  - rewrite obj_get_update, E. reflexivity.
  - rewrite (obj_get_add o k0 k 1 E). reflexivity.
Qed.

Lemma obj_incr_keys_NoDup (o : obj nat) (k : string) :
  NoDup (obj_keys o) -> NoDup (obj_keys (obj_incr o k)).
Proof.
  intros H. unfold obj_incr. destruct (obj_get o k) eqn:E.
  - now rewrite obj_keys_update.
  - unfold obj_keys. eapply Permutation_NoDup.
    + symmetry. apply Permutation_map. apply obj_add_perm.
    + simpl. constructor; auto. now apply obj_get_None.
Qed.

Section Tally.

Context {A : Type} (key : A -> string).

Let tally (l : list A) (o : obj nat) : obj nat :=
  fold_left (fun o a => obj_incr o (key a)) l o.

Let occurrences (k : string) (l : list A) : nat :=
  List.length (filter (fun a => String.eqb (key a) k) l).

Lemma tally_get (l : list A) :
  forall (o : obj nat) (k : string),
  obj_get (tally l o) k =
  match obj_get o k with
  | Some n => Some (n + occurrences k l)
  | None => if (occurrences k l =? 0)%nat then None else Some (occurrences k l)
  end.
Proof.
  unfold tally, occurrences.
  induction l as [|a l IH]; intros o k; simpl.
  - destruct (obj_get o k); [f_equal; lia|reflexivity].
  - rewrite IH, obj_get_incr, (String.eqb_sym (key a) k).
    destruct (String.eqb k (key a)) eqn:E.
    + apply String.eqb_eq in E. subst k. simpl.
      destruct (obj_get o (key a)); f_equal; lia.
    + destruct (obj_get o k); reflexivity.
Qed.

Lemma tally_keys_NoDup (l : list A) :
  forall o : obj nat, NoDup (obj_keys o) -> NoDup (obj_keys (tally l o)).
Proof.
  unfold tally. induction l as [|a l IH]; intros o H; simpl; auto.
  apply IH. now apply obj_incr_keys_NoDup.
Qed.

End Tally.

Lemma obj_values (o : obj nat) :
  NoDup (obj_keys o) ->
  map snd o = map (fun k => match obj_get o k with Some n => n | None => 0 end)
                  (obj_keys o).
Proof.
  unfold obj_keys. induction o as [|[k v] o IH]; simpl; auto.
  intros H. inversion H as [|? ? Hnot Hnd]; subst.
  rewrite String.eqb_refl. f_equal. rewrite (IH Hnd).
  apply map_ext_in. intros k' Hk'.
  destruct (String.eqb_spec k' k); [subst; contradiction|reflexivity].
Qed.

(** X13: the subject tally shown after an upload.  When no student has
    a subject that is the name of a member of [Object.prototype] (the
    tally of such a subject is no number), [computeSubjectCounts]
    holds, under each subject, the number of students of that subject;
    the students without a subject are counted under "Unknown", together
    with those whose subject is the word itself; a subject nobody has is
    no key; and the counts add up to the number of students. *)
Theorem subject_tally_counts_students (students : list Student) :
  Forall (fun s => inherited (display_subject s) = false) students ->
  (forall k,
     inherited k = false ->
     obj_get (computeSubjectCounts students) k =
     if (List.length (filter (fun s => String.eqb (display_subject s) k) students) =? 0)%nat
     then None
     else Some (List.length
                  (filter (fun s => String.eqb (display_subject s) k) students))) /\
  obj_get (computeSubjectCounts students) "" = None /\
  list_sum (map snd (computeSubjectCounts students)) = List.length students.
Proof.
  intros _. unfold computeSubjectCounts.
  assert (forall k,
     obj_get (fold_left (fun acc s => obj_incr acc (display_subject s)) students []) k =
     if (List.length (filter (fun s => String.eqb (display_subject s) k) students) =? 0)%nat
     then None
     else Some (List.length
                  (filter (fun s => String.eqb (display_subject s) k) students)))
    as Hget.
  { intros k. now rewrite (tally_get display_subject students [] k). }
  split; [intros k _; exact (Hget k)|]. split.
  - rewrite Hget.
    assert (filter (fun s => String.eqb (display_subject s) "") students = []) as ->;
      [|reflexivity].
    induction students as [|s l IH]; simpl; auto.
    assert (String.eqb (display_subject s) "" = false) as ->.
    { unfold display_subject. destruct (subject s); reflexivity. }
    apply IH. intros k. now rewrite (tally_get display_subject l [] k).
  - pose proof (tally_keys_NoDup display_subject students [] (NoDup_nil _)) as Hnd.
    rewrite (obj_values _ Hnd).
    rewrite <- (class_sizes_add_up display_subject students _ Hnd).
    + f_equal. apply map_ext. intros k. rewrite Hget.
      destruct (List.length _); reflexivity.
    + intros s Hs.
      destruct (in_dec string_dec (display_subject s)
                  (obj_keys (fold_left (fun acc s0 => obj_incr acc (display_subject s0))
                                       students []))) as [Hin|Hout]; auto.
      apply obj_get_None in Hout. rewrite Hget in Hout.
      assert (In s (filter (fun s0 => String.eqb (display_subject s0) (display_subject s))
                      students)) as Hf.
      { apply filter_In. split; auto. apply String.eqb_refl. }
      destruct (filter _ students); [contradiction|discriminate].
Qed.

Lemma subject_tally_counts_students_witness :
  obj_get (computeSubjectCounts unlabelledStudents) "Unknown" =
  Some (List.length
          (filter (fun s => String.eqb (display_subject s) "Unknown") unlabelledStudents)) /\
  list_sum (map snd (computeSubjectCounts unlabelledStudents)) =
  List.length unlabelledStudents.
Proof.
  destruct (subject_tally_counts_students unlabelledStudents) as (Hget & _ & Hsum).
  - repeat constructor.
  - split; [|exact Hsum]. exact (Hget "Unknown" eq_refl).
Defined.

(** X14: the two tallies of a room summary agree.  [subject_counts]
    holds a number under a subject exactly when [subjects] has an entry
    for that subject with that number as its [count]. *)
Theorem summary_tallies_agree (assignments : list Assignment) (rooms : list Room)
  (sm : RoomSummary) (subj : string) (n : nat) :
  In sm (generateRoomSummaries assignments rooms) ->
  obj_get (rs_subject_counts sm) subj = Some n <->
  exists e, In e (rs_subjects sm) /\ se_subject e = subj /\ se_count e = n.
Proof.
  unfold generateRoomSummaries. intros Hsm.
  apply in_map_iff in Hsm as (room & <- & _). simpl.
  set (ras := room_assignments assignments room).
  unfold subject_counts.
  rewrite (tally_get (fun a => subject (student a)) ras [] subj). simpl.
  assert (forall k, se_count (format_subject (subject_ranges ras) k) =
                    List.length (filter (fun a => String.eqb (subject (student a)) k) ras))
    as Hcount.
  { intros k. unfold format_subject. simpl.
    unfold sort_strings. rewrite (Permutation_length (sort_by_perm _ _)).
    unfold subject_ranges.
    rewrite (grouped_list (fun a => subject (student a)) (fun a => roll (student a))).
    simpl. now rewrite length_map. }
  assert (forall k, In k (sort_strings (obj_keys (subject_ranges ras))) <->
                    filter (fun a => String.eqb (subject (student a)) k) ras <> [])
    as Hkeys.
  { intros k. split.
    - intros H. eapply Permutation_in in H; [|apply sort_by_perm].
      unfold subject_ranges in H.
      apply (grouped_keys (fun a => subject (student a)) (fun a => roll (student a)))
        in H as [[]|(a & Ha & E)].
      intros Hnil.
      assert (In a (filter (fun a0 => String.eqb (subject (student a0)) k) ras)) as Hin.
      { apply filter_In. split; auto. now apply String.eqb_eq. }
      rewrite Hnil in Hin. contradiction.
    - intros H. eapply Permutation_in; [symmetry; apply sort_by_perm|].
      unfold subject_ranges.
      apply (grouped_keys (fun a => subject (student a)) (fun a => roll (student a))).
      right.
      destruct (filter (fun a0 => String.eqb (subject (student a0)) k) ras)
        as [|a l] eqn:E; [now elim H|].
      assert (In a (filter (fun a0 => String.eqb (subject (student a0)) k) ras))
        as Hin by (rewrite E; now left).
      apply filter_In in Hin as [Hin Heq]. apply String.eqb_eq in Heq. eauto. }
  split.
  - intros H. exists (format_subject (subject_ranges ras) subj).
    destruct (List.length (filter _ ras) =? 0)%nat eqn:Z; [discriminate|].
    injection H as <-. split; [|split; [reflexivity|apply Hcount]].
    apply in_map, Hkeys. intros E. rewrite E in Z. discriminate.
  - intros (e & He & <- & <-).
    apply in_map_iff in He as (k & <- & Hk).
    apply Hkeys in Hk. rewrite Hcount. cbn [se_subject format_subject].
    destruct (filter _ ras); [now elim Hk|reflexivity].
Qed.

Lemma summary_tallies_agree_witness :
  obj_get (rs_subject_counts exampleSummary) "BBA" = Some 4 <->
  exists e, In e (rs_subjects exampleSummary) /\ se_subject e = "BBA" /\ se_count e = 4.
Proof.
  apply (summary_tallies_agree exampleAssignments sampleRooms exampleSummary "BBA" 4).
  left. reflexivity.
Defined.

(** ** The room lists of the two clients *)

Lemma find_index_some {A : Type} (f : A -> bool) (l : list A) (i : nat) :
  find_index f l = Some i -> exists x, nth_error l i = Some x /\ f x = true.
Proof.
  revert i. induction l as [|y l IH]; intros i; simpl; [discriminate|].
  destruct (f y) eqn:E.
  - intros [= <-]. exists y. auto.
  - destruct (find_index f l) as [j|]; [|discriminate].
    intros [= <-]. now apply IH.
Qed.

Lemma find_index_none {A : Type} (f : A -> bool) (l : list A) :
  find_index f l = None -> forall x, In x l -> f x = false.
Proof.
  induction l as [|y l IH]; simpl; [contradiction|].
  destruct (f y) eqn:E; [discriminate|].
  destruct (find_index f l); [discriminate|].
  intros _ x [<-|Hx]; auto.
Qed.

Lemma submitRoom_ids (rooms : list Room) (room : Room) :
  NoDup (map room_id rooms) -> NoDup (map room_id (submitRoom rooms room)).
Proof.
  intros Hnd. unfold submitRoom. destruct (_ || _)%bool; auto.
  destruct (find_index _ rooms) as [i|] eqn:E.
  - destruct (find_index_some _ _ _ E) as (x & Hx & Heq).
    apply String.eqb_eq in Heq.
    now rewrite (map_list_set room_id rooms i x room Hx (eq_sym Heq)).
  - eapply Permutation_NoDup.
    + apply Permutation_map. apply Permutation_cons_append.
    + simpl. constructor; auto. intros Hin.
      apply in_map_iff in Hin as (x & Heq & Hx).
      apply (find_index_none _ _ E) in Hx. apply String.eqb_neq in Hx. contradiction.
Qed.

Lemma handleRoomRemoval_ids (rooms : list Room) (roomId : string) :
  NoDup (map room_id rooms) -> NoDup (map room_id (handleRoomRemoval rooms roomId)).
Proof.
  unfold handleRoomRemoval. induction rooms as [|r rooms IH]; simpl; auto.
  intros H. inversion H as [|? ? Hnot Hnd]; subst.
  destruct (negb _); simpl; auto. constructor; auto.
  intros Hin. apply Hnot. apply in_map_iff in Hin as (x & Heq & Hx).
  apply filter_In in Hx as [Hx _]. rewrite <- Heq. now apply in_map.
Qed.

(** X15: the room list of the page never holds two rooms under one id.
    The submit handler of the room form replaces the room that carries
    the submitted id and appends otherwise, and removal filters by id; so
    from a list with pairwise distinct ids every sequence of submissions
    and removals leads to a list with pairwise distinct ids. *)
Theorem room_list_keeps_ids_distinct (rooms : list Room) (actions : list RoomAction) :
  NoDup (map room_id rooms) ->
  NoDup (map room_id (fold_left room_action actions rooms)).
Proof.
  revert rooms. induction actions as [|act actions IH]; intros rooms H; simpl; auto.
  apply IH. destruct act; simpl.
  - now apply submitRoom_ids.
  - now apply handleRoomRemoval_ids.
Qed.

Lemma room_list_keeps_ids_distinct_witness :
  NoDup (map room_id
           (fold_left room_action
              [ SubmitRoom (mkRoom "R1" "Room 1" (JNum 10) (JNum 2));
                SubmitRoom (mkRoom "R2" "Room 2" (JNum 10) (JNum 2));
                SubmitRoom (mkRoom "R1" "Hall" (JNum 5) (JNum 3));
                RemoveRoom "R2" ]
              [])).
Proof.
  apply (room_list_keeps_ids_distinct []). simpl. constructor.
Defined.

Lemma filter_index_all {A : Type} (index : nat) (l : list A) :
  forall k, index < k ->
  filter_index (fun _ i => negb (i =? index)%nat) l k = l.
Proof.
  induction l as [|x l IH]; intros k Hk; simpl; auto.
  assert ((k =? index)%nat = false) as -> by (apply Nat.eqb_neq; lia).
  simpl. f_equal. apply IH. lia.
Qed.

Lemma filter_index_drop {A : Type} (index : nat) (l : list A) :
  forall k, k <= index ->
  filter_index (fun _ i => negb (i =? index)%nat) l k
  = firstn (index - k) l ++ skipn (S (index - k)) l.
Proof.
  induction l as [|x l IH]; intros k Hk.
  - now rewrite firstn_nil, skipn_nil.
  - cbn [filter_index]. destruct (k =? index)%nat eqn:E.
    + apply Nat.eqb_eq in E. subst k. rewrite Nat.sub_diag. simpl.
      apply filter_index_all. lia.
    + apply Nat.eqb_neq in E. cbn [negb].
      rewrite IH by lia.
      replace (index - k) with (S (index - (k + 1))) by lia. reflexivity.
Qed.

Lemma added_rooms (n : nat) :
  Nat.iter n handleAddRoom [] =
  map (fun i => mkRoom ("R" ++ show_nat (i + 1)) ("Room " ++ show_nat (i + 1))
                       (JNum 11) (JNum 2))
      (seq 0 n).
Proof.
  induction n as [|n IH]; [reflexivity|].
  rewrite Nat.iter_succ, IH. unfold handleAddRoom.
  rewrite length_map, length_seq, seq_S, map_app. reflexivity.
Qed.

Lemma firstn_seq_min (k : nat) :
  forall a n, firstn k (seq a n) = seq a (Nat.min k n).
Proof.
  induction k as [|k IH]; intros a [|n]; simpl; auto. now rewrite IH.
Qed.

Lemma skipn_seq_rest (k : nat) :
  forall a n, skipn k (seq a n) = seq (a + k) (n - k).
Proof.
  induction k as [|k IH]; intros a n.
  - now rewrite Nat.add_0_r, Nat.sub_0_r.
  - destruct n as [|n]; [reflexivity|].
    cbn [seq skipn]. rewrite IH. cbn [Nat.sub]. f_equal. lia.
Qed.

(** X16: the room list of the React client can come to hold one id
    twice.  [handleAddRoom] names a new room after the length of the
    list, which gives pairwise distinct ids as long as rooms are only
    added; once a room other than the last has been removed, the next
    room added takes the id of the last room. *)
Theorem added_room_repeats_id_after_removal (n index : nat) :
  index + 1 < n ->
  NoDup (map room_id (Nat.iter n handleAddRoom [])) /\
  ~ NoDup (map room_id
             (handleAddRoom (handleRemoveRoom (Nat.iter n handleAddRoom []) index))).
Proof.
  intros Hlt. rewrite added_rooms. split.
  - rewrite map_map. simpl. apply NoDup_map_injective; [|apply seq_NoDup].
    intros x y E. injection E as E. apply show_nat_inj in E. lia.
  - unfold handleRemoveRoom. rewrite filter_index_drop by lia.
    rewrite Nat.sub_0_r, firstn_map, skipn_map, firstn_seq_min, skipn_seq_rest, <- map_app.
    unfold handleAddRoom. rewrite length_map, length_app, !length_seq.
    replace (Nat.min index n + (n - S index) + 1) with n by lia.
    rewrite map_app, map_map. simpl. intros Hnd.
    apply NoDup_remove_2 in Hnd. apply Hnd. rewrite app_nil_r.
    apply in_map_iff. exists (n - 1). split.
    + now replace (n - 1 + 1) with n by lia.
    + apply in_or_app. right. apply in_seq. lia.
Qed.

Lemma added_room_repeats_id_after_removal_witness :
  NoDup (map room_id (Nat.iter 3 handleAddRoom [])) /\
  ~ NoDup (map room_id
             (handleAddRoom (handleRemoveRoom (Nat.iter 3 handleAddRoom []) 0))).
Proof.
  apply (added_room_repeats_id_after_removal 3 0). lia.
Defined.

(** ** Reading the student list *)

Lemma extend_piece_nonempty (c : ascii) (l : list string) : extend_piece c l <> [].
Proof.
  destruct l; discriminate.
Qed.

Lemma split_on_step (sep c : ascii) (s : string) :
  split_on sep (String c s) =
  if Ascii.eqb c sep then EmptyString :: split_on sep s
  else extend_piece c (split_on sep s).
Proof.
  reflexivity.
Qed.

Lemma split_on_nonempty (sep : ascii) (s : string) : split_on sep s <> [].
Proof.
  destruct s as [|c s]; [discriminate|]. rewrite split_on_step.
  destruct (Ascii.eqb c sep); [discriminate|apply extend_piece_nonempty].
Qed.

Lemma split_lines_step (c : ascii) (s : string) :
  split_lines (String c s) =
  if Ascii.eqb c "010" then EmptyString :: split_lines s
  else match s with
       | String c' s' =>
           if Ascii.eqb c "013" && Ascii.eqb c' "010"
           then EmptyString :: split_lines s'
           else extend_piece c (split_lines s)
       | EmptyString => [String c EmptyString]
       end.
Proof.
  reflexivity.
Qed.

Lemma split_lines_nonempty (s : string) : split_lines s <> [].
Proof.
  destruct s as [|c s]; [discriminate|]. rewrite split_lines_step.
  destruct (Ascii.eqb c "010"); [discriminate|].
  destruct s as [|c' s']; [discriminate|].
  destruct (_ && _)%bool; [discriminate|apply extend_piece_nonempty].
Qed.

Lemma trim_end_step (c : ascii) (s : string) :
  trim_end (String c s) =
  match trim_end s with
  | EmptyString => if is_space c then EmptyString else String c EmptyString
  | t => String c t
  end.
Proof.
  reflexivity.
Qed.

Lemma trim_end_idem (s : string) : trim_end (trim_end s) = trim_end s.
Proof.
  induction s as [|c s IH]; [reflexivity|]. rewrite trim_end_step.
  destruct (trim_end s) as [|d t] eqn:E.
  - destruct (is_space c) eqn:Ec; [reflexivity|].
    rewrite trim_end_step. simpl. now rewrite Ec.
  - rewrite trim_end_step, IH. reflexivity.
Qed.

Lemma skip_spaces_idem (s : string) : skip_spaces (skip_spaces s) = skip_spaces s.
Proof.
  induction s as [|c s IH]; simpl; auto.
  destruct (is_space c) eqn:E; auto. simpl. now rewrite E.
Qed.

Lemma skip_spaces_trim_end (s : string) :
  skip_spaces (trim_end s) = trim_end (skip_spaces s).
Proof.
  induction s as [|c s IH]; [reflexivity|]. rewrite trim_end_step.
  cbn [skip_spaces]. destruct (is_space c) eqn:Ec.
  - rewrite <- IH. destruct (trim_end s); [reflexivity|].
    cbn [skip_spaces]. now rewrite Ec.
  - rewrite trim_end_step.
    destruct (trim_end s); cbn [skip_spaces]; now rewrite Ec.
Qed.

Lemma trim_skip_spaces (s : string) : trim (skip_spaces s) = trim s.
Proof.
  unfold trim. now rewrite skip_spaces_idem.
Qed.

Lemma trim_trim_end (s : string) : trim (trim_end s) = trim s.
Proof.
  unfold trim. now rewrite skip_spaces_trim_end, trim_end_idem.
Qed.

Lemma trim_idem (s : string) : trim (trim s) = trim s.
Proof.
  unfold trim at 2. now rewrite trim_trim_end, trim_skip_spaces.
Qed.

Lemma trim_of_trim_end (a b : string) : trim_end a = trim_end b -> trim a = trim b.
Proof.
  unfold trim. rewrite <- !skip_spaces_trim_end. now intros ->.
Qed.

Lemma trim_end_extend (c : ascii) (a b : string) :
  trim_end a = trim_end b -> trim_end (String c a) = trim_end (String c b).
Proof.
  rewrite !trim_end_step. now intros ->.
Qed.

(** Lists of pieces that are the same but for white space at the ends
    of the pieces. *)
Lemma extend_piece_similar (c : ascii) (l1 l2 : list string) :
  Forall2 (fun a b => trim_end a = trim_end b) l1 l2 ->
  Forall2 (fun a b => trim_end a = trim_end b) (extend_piece c l1) (extend_piece c l2).
Proof.
  destruct 1; simpl; constructor; auto. now apply trim_end_extend.
Qed.

Lemma similar_sym (l1 l2 : list string) :
  Forall2 (fun a b => trim_end a = trim_end b) l1 l2 ->
  Forall2 (fun a b => trim_end a = trim_end b) l2 l1.
Proof.
  induction 1; constructor; auto.
Qed.

Lemma similar_trans (l1 l2 l3 : list string) :
  Forall2 (fun a b => trim_end a = trim_end b) l1 l2 ->
  Forall2 (fun a b => trim_end a = trim_end b) l2 l3 ->
  Forall2 (fun a b => trim_end a = trim_end b) l1 l3.
Proof.
  intros H. revert l3. induction H as [|a b l1 l2 Hab _ IH]; intros l3 H3;
    inversion H3; subst; constructor; [congruence|auto].
Qed.

Lemma map_trim_similar (l1 l2 : list string) :
  Forall2 (fun a b => trim_end a = trim_end b) l1 l2 -> map trim l1 = map trim l2.
Proof.
  induction 1 as [|a b l1 l2 Hab _ IH]; simpl; [reflexivity|].
  now rewrite IH, (trim_of_trim_end a b Hab).
Qed.

Section Splitting.

Variable sep : ascii.
Hypothesis sep_no_space : is_space sep = false.

Lemma space_is_not_sep (c : ascii) : is_space c = true -> Ascii.eqb c sep = false.
Proof.
  intros Hc. destruct (Ascii.eqb c sep) eqn:E; [|reflexivity].
  apply Ascii.eqb_eq in E. subst c. congruence.
Qed.

Lemma split_on_trim_end (s : string) :
  Forall2 (fun a b => trim_end a = trim_end b)
          (split_on sep (trim_end s)) (split_on sep s).
Proof.
  induction s as [|c s IH]; [repeat constructor|].
  rewrite trim_end_step, (split_on_step sep c s).
  destruct (trim_end s) as [|d t] eqn:E.
  - change (split_on sep "") with [EmptyString] in IH.
    inversion IH as [|a w la lb Hw Hrest Ea Eb]; subst.
    inversion Hrest; subst. simpl in Hw.
    destruct (is_space c) eqn:Ec.
    + rewrite (space_is_not_sep c Ec). simpl. constructor; [|constructor].
      rewrite trim_end_step, <- Hw, Ec. reflexivity.
    + rewrite split_on_step. destruct (Ascii.eqb c sep).
      * simpl. constructor; [reflexivity|]. constructor; [exact Hw|constructor].
      * simpl. constructor; [|constructor].
        rewrite !trim_end_step, <- Hw. reflexivity.
  - rewrite split_on_step. destruct (Ascii.eqb c sep).
    + constructor; [reflexivity|exact IH].
    + apply extend_piece_similar. exact IH.
Qed.

Lemma split_on_similar (a b : string) :
  trim_end a = trim_end b ->
  Forall2 (fun a b => trim_end a = trim_end b) (split_on sep a) (split_on sep b).
Proof.
  intros H. eapply similar_trans; [apply similar_sym, split_on_trim_end|].
  rewrite H. apply split_on_trim_end.
Qed.

Lemma split_on_skip_spaces (s : string) :
  map trim (split_on sep (skip_spaces s)) = map trim (split_on sep s).
Proof.
  induction s as [|c s IH]; [reflexivity|]. cbn [skip_spaces].
  destruct (is_space c) eqn:Ec; [|reflexivity].
  rewrite IH, split_on_step, (space_is_not_sep c Ec).
  pose proof (split_on_nonempty sep s) as Hne.
  destruct (split_on sep s) as [|w ws]; [now elim Hne|]. simpl. f_equal.
  unfold trim. cbn [skip_spaces]. now rewrite Ec.
Qed.

(** Trimming a line before cutting it up changes no trimmed cell. *)
Lemma cells_of_trimmed (l : string) :
  map trim (split_on sep (trim l)) = map trim (split_on sep l).
Proof.
  change (trim l) with (trim_end (skip_spaces l)).
  rewrite (map_trim_similar _ _ (split_on_trim_end (skip_spaces l))).
  apply split_on_skip_spaces.
Qed.

End Splitting.

(** The lines the page sees are those the server sees, but for a
    carriage return at the end of a line. *)
Lemma lines_similar (t : string) :
  Forall2 (fun a b => trim_end a = trim_end b) (split_lines t) (split_on "010" t).
Proof.
  induction t as [|c s IH]; [repeat constructor|].
  rewrite split_lines_step, split_on_step.
  destruct (Ascii.eqb c "010") eqn:Ec; [constructor; auto|].
  destruct s as [|c' s']; [repeat constructor|].
  destruct (Ascii.eqb c "013" && Ascii.eqb c' "010")%bool eqn:E.
  - apply andb_true_iff in E as [E1 E2].
    apply Ascii.eqb_eq in E1, E2. subst c c'.
    rewrite split_lines_step, split_on_step in IH. simpl in IH.
    inversion IH; subst. rewrite split_on_step. simpl. constructor; auto.
  - now apply extend_piece_similar.
Qed.

Lemma str_truthy_eqb (s : string) : str_truthy s = negb (String.eqb s "").
Proof.
  now destruct s.
Qed.

Lemma parsers_fold (headers : list string) (l1 l2 : list string) :
  Forall2 (fun a b => trim_end a = trim_end b) l1 l2 ->
  forall (records : list Student) (data : list (obj string)),
  map entry_student data = records ->
  map entry_student
    (fold_left
       (fun data l =>
          if String.eqb (trim l) ""
          then data
          else data ++ [csv_entry headers (map trim (split_on "," l))])
       l2 data)
  = fold_left
      (fun records l =>
         let line := trim l in
         if str_truthy line
         then records ++ [entry_student
                            (csv_entry headers (map trim (split_on "," line)))]
         else records)
      l1 records.
Proof.
  induction 1 as [|a b l1 l2 Hab _ IH]; intros records data Hmap; simpl; auto.
  apply IH. rewrite str_truthy_eqb, (trim_of_trim_end a b Hab).
  destruct (String.eqb (trim b) ""); simpl; auto.
  rewrite map_app, Hmap. simpl.
  now rewrite (cells_of_trimmed "," eq_refl b).
Qed.

(** X17: the page and the server read a student file the same way.
    Whenever [parseCsv] accepts a text, the entries that the server's
    [parseCSV] makes of the same text are, read as students, the records
    of [parseCsv]: the carriage returns that only the page strips from
    the line ends and the order of trimming and cutting make no
    difference. *)
Theorem parsers_agree (content : string) (records : list Student) :
  parseCsv content = Parsed records ->
  map entry_student (parseCSV content) = records.
Proof.
  unfold parseCsv, parseCSV.
  destruct (List.length (split_lines (trim content)) <? 2)%nat; [discriminate|].
  destruct (0 <? List.length _)%nat; [discriminate|].
  intros [= <-].
  pose proof (lines_similar (trim content)) as Hlines.
  pose proof (split_lines_nonempty (trim content)) as Hne.
  destruct (split_lines (trim content)) as [|h1 t1]; [now elim Hne|].
  inversion Hlines as [|a b la lb Hh Ht Ea Eb]; subst. simpl.
  assert (map trim (split_on "," b) = map trim (split_on "," h1)) as ->.
  { symmetry. apply map_trim_similar. now apply split_on_similar. }
  now apply parsers_fold.
Qed.

Lemma parsers_agree_witness :
  map entry_student (parseCSV sampleCsv) = sampleCsvStudents.
Proof.
  apply (parsers_agree sampleCsv sampleCsvStudents). vm_compute. reflexivity.
Defined.

(** A string that ends in a character that is no white space. *)
Lemma trim_end_fixed (c : ascii) (s : string) :
  trim_end (String c s) = String c s ->
  (s = EmptyString /\ is_space c = false) \/
  (s <> EmptyString /\ trim_end s = s).
Proof.
  rewrite trim_end_step. destruct (trim_end s) as [|d t] eqn:E.
  - destruct (is_space c); [discriminate|]. intros [= <-]. auto.
  - intros [= <-]. right. split; [discriminate|reflexivity].
Qed.

Lemma last_extend_piece (c : ascii) (l : list string) :
  trim_end (last l "") = last l "" -> last l "" <> "" ->
  trim_end (last (extend_piece c l) "") = last (extend_piece c l) "" /\
  last (extend_piece c l) "" <> "".
Proof.
  destruct l as [|w [|w' ws]]; intros H Hne.
  - now elim Hne.
  - cbn [last extend_piece] in *. rewrite trim_end_step, H.
    destruct w; [now elim Hne|]. split; [reflexivity|discriminate].
  - exact (conj H Hne).
Qed.

Lemma last_line_has_text (t : string) :
  trim_end t = t -> t <> "" ->
  trim_end (last (split_lines t) "") = last (split_lines t) "" /\
  last (split_lines t) "" <> "".
Proof.
  induction t as [|c s IH]; intros H Hne; [now elim Hne|].
  assert (forall l, l <> [] -> last (EmptyString :: l) "" = last l "") as Hlast.
  { intros [|x l] Hl; [now elim Hl|reflexivity]. }
  rewrite split_lines_step.
  destruct (trim_end_fixed c s H) as [[-> Hc]|[Hs Hfix]].
  - destruct (Ascii.eqb c "010") eqn:Ec.
    + apply Ascii.eqb_eq in Ec. subst c. discriminate.
    + simpl. rewrite Hc. split; [reflexivity|discriminate].
  - specialize (IH Hfix Hs).
    destruct (Ascii.eqb c "010").
    + now rewrite Hlast by apply split_lines_nonempty.
    + destruct s as [|c' s']; [now elim Hs|].
      destruct (Ascii.eqb c "013" && Ascii.eqb c' "010")%bool eqn:E.
      * apply andb_true_iff in E as [_ E2]. apply Ascii.eqb_eq in E2. subst c'.
        change (split_lines (String "010" s')) with (EmptyString :: split_lines s') in IH.
        rewrite Hlast in IH by apply split_lines_nonempty.
        now rewrite Hlast by apply split_lines_nonempty.
      * now apply last_extend_piece.
Qed.

Lemma text_survives_trimming (w : string) :
  trim_end w = w -> w <> "" -> trim w <> "".
Proof.
  unfold trim. rewrite <- skip_spaces_trim_end. intros H. rewrite H. revert H.
  induction w as [|c w IH]; intros H Hne; [now elim Hne|].
  cbn [skip_spaces]. destruct (is_space c) eqn:Ec; [|discriminate].
  destruct (trim_end_fixed c w H) as [[_ Hc]|[Hw Hfix]]; [congruence|auto].
Qed.

(** X18: a text that [parseCsv] accepts gives at least one student.  The
    text is trimmed before it is cut into lines, so its last line holds
    some text and becomes a record; the "No students provided" error of
    the engine cannot come from an accepted upload. *)
Theorem accepted_upload_has_students (content : string) (records : list Student) :
  parseCsv content = Parsed records -> records <> [].
Proof.
  unfold parseCsv.
  destruct (List.length (split_lines (trim content)) <? 2)%nat eqn:Hlen;
    [discriminate|].
  destruct (0 <? List.length _)%nat; [discriminate|].
  intros [= <-]. apply Nat.ltb_ge in Hlen.
  assert (trim content <> "") as Hne.
  { intros E. rewrite E in Hlen. simpl in Hlen. lia. }
  assert (trim_end (trim content) = trim content) as Hfix
    by apply trim_end_idem.
  destruct (last_line_has_text _ Hfix Hne) as [Hw Hwne].
  pose proof (text_survives_trimming _ Hw Hwne) as Htext.
  destruct (split_lines (trim content)) as [|h [|l1 ls]];
    try (simpl in Hlen; lia).
  change (last (h :: l1 :: ls) "") with (last (l1 :: ls) "") in Htext.
  cbn [tl hd].
  rewrite (app_removelast_last (l := l1 :: ls) "") by discriminate.
  rewrite fold_left_app. cbn [fold_left].
  destruct (trim (last (l1 :: ls) "")) eqn:E; [now elim Htext|].
  cbn [str_truthy]. intros Hnil. apply app_eq_nil in Hnil as [_ Hnil].
  discriminate.
Qed.

Lemma accepted_upload_has_students_witness : sampleCsvStudents <> [].
Proof.
  apply (accepted_upload_has_students sampleCsv sampleCsvStudents).
  vm_compute. reflexivity.
Defined.

(** ** The cells of an entry *)






(** ** Dealing the students out *)

Lemma prefer_pass_no_preference (students : list Student) :
  Forall (fun s => forall p, preferred_room s = Some p -> p = "") students ->
  forall (ras : list RoomAlloc) (un : list Student),
  fold_left prefer_step students (ras, un) = (ras, un ++ students).
Proof.
  induction 1 as [|s l Hs _ IH]; intros ras un; cbn [fold_left].
  - now rewrite app_nil_r.
  - assert (prefer_step (ras, un) s = (ras, un ++ [s])) as ->.
    { unfold prefer_step. destruct (preferred_room s) as [p|]; [|reflexivity].
      now rewrite (Hs p eq_refl). }
    rewrite IH, <- app_assoc. reflexivity.
Qed.

Lemma next_turn (R q m : nat) :
  m < R ->
  exists q' m', R * q' + m' = R * q + m + 1 /\ m' < R /\ m' = (m + 1) mod R /\
                (forall j, j < R ->
                   q' + (if (j <? m')%nat then 1 else 0)
                   = q + (if (j <? m)%nat then 1 else 0) + (if (j =? m)%nat then 1 else 0)).
Proof.
  intros Hm. destruct (Nat.eq_dec (m + 1) R) as [E|N].
  - exists (q + 1), 0. split; [nia|]. split; [lia|]. split.
    + rewrite E. symmetry. apply Nat.Div0.mod_same.
    + intros j Hj. destruct (Nat.ltb_spec j 0); [lia|].
      destruct (Nat.ltb_spec j m); destruct (Nat.eqb_spec j m); lia.
  - exists q, (m + 1). split; [lia|]. split; [lia|]. split.
    + symmetry. apply Nat.mod_small. lia.
    + intros j Hj. destruct (Nat.ltb_spec j (m + 1));
        destruct (Nat.ltb_spec j m); destruct (Nat.eqb_spec j m); lia.
Qed.

Lemma round_robin_deals (R fuel : nat) (un : list Student) :
  0 < fuel ->
  forall (ras : list RoomAlloc) (q m : nat),
  List.length ras = R -> m < R ->
  (forall j ra, nth_error ras j = Some ra ->
     List.length (ra_students ra) = q + (if (j <? m)%nat then 1 else 0)) ->
  (forall ra, In ra ras ->
     num_ltb (num_of_nat ((R * q + m + List.length un - 1) / R)) (ra_capacity ra) = true) ->
  exists ras' q' m',
    round_robin fuel un ras m = Done ras' /\
    map ra_room ras' = map ra_room ras /\
    R * q' + m' = R * q + m + List.length un /\ m' < R /\
    forall j ra', nth_error ras' j = Some ra' ->
      List.length (ra_students ra') = q' + (if (j <? m')%nat then 1 else 0) /\
      exists ra, nth_error ras j = Some ra /\
        ra_students ra' =
        ra_students ra
        ++ filter_index (fun _ i => (i mod R =? j)%nat) un (R * q + m).
Proof.
  intros Hfuel. induction un as [|s rest IH]; intros ras q m Hlen Hm Hsizes Hcaps.
  - exists ras, q, m. split; [reflexivity|]. split; [reflexivity|].
    split; [simpl; lia|]. split; [exact Hm|].
    intros j ra Hj. split; [now apply Hsizes|].
    exists ra. split; [exact Hj|]. simpl. now rewrite app_nil_r.
  - cbn [round_robin]. destruct fuel as [|fuel]; [lia|]. cbn [skip_full].
    destruct (nth_error ras m) as [ra|] eqn:Hra.
    2:{ apply nth_error_None in Hra. lia. }
    assert (is_full ra = false) as Hfree.
    { pose proof (Hsizes m ra Hra) as Hsize. rewrite Nat.ltb_irrefl in Hsize.
      specialize (Hcaps ra (nth_error_In _ _ Hra)).
      unfold is_full, num_geb. unfold num_ltb, num_of_nat in *.
      destruct (ra_capacity ra) as [cap|]; [|reflexivity].
      apply Z.ltb_lt in Hcaps. apply Z.leb_gt.
      assert (q <= (R * q + m + List.length (s :: rest) - 1) / R) as Hq.
      { cbn [List.length]. apply Nat.div_le_lower_bound; lia. }
      lia. }
    rewrite Hfree. cbn [bind]. rewrite Hra.
    destruct (next_turn R q m Hm) as (q1 & m1 & Hk1 & Hm1 & Hidx & Hturn).
    rewrite Hlen, <- Hidx.
    destruct (IH (list_set ras m (push_student ra s)) q1 m1) as
      (ras' & q' & m' & Hrun & Hrooms & Hk' & Hm' & Hdealt).
    + now rewrite list_set_length.
    + exact Hm1.
    + intros j ra1 Hj.
      assert (j < R) as HjR.
      { rewrite <- Hlen, <- (list_set_length ras m (push_student ra s)).
        apply nth_error_Some. congruence. }
      rewrite (Hturn j HjR). destruct (Nat.eqb_spec j m) as [->|Hne].
      * rewrite nth_error_list_set_same in Hj by lia. injection Hj as <-.
        simpl. rewrite length_app, (Hsizes m ra Hra). simpl. lia.
      * rewrite nth_error_list_set_other in Hj by auto.
        rewrite (Hsizes j ra1 Hj). lia.
    + intros ra1 Hin. apply In_nth_error in Hin as (j & Hj).
      replace (R * q1 + m1 + List.length rest - 1)
        with (R * q + m + List.length (s :: rest) - 1)
        by (cbn [List.length]; lia).
      destruct (Nat.eq_dec j m) as [->|Hne].
      * rewrite nth_error_list_set_same in Hj by lia. injection Hj as <-.
        simpl. apply Hcaps. eapply nth_error_In; eauto.
      * rewrite nth_error_list_set_other in Hj by auto.
        apply Hcaps. eapply nth_error_In; eauto.
    + exists ras', q', m'. split; [exact Hrun|]. split.
      { rewrite Hrooms. now apply (map_list_set ra_room ras m ra). }
      split; [cbn [List.length]; lia|]. split; [exact Hm'|].
      intros j ra' Hj. destruct (Hdealt j ra' Hj) as (Hsize & ra1 & Hj1 & Hst).
      split; [exact Hsize|].
      assert ((R * q + m) mod R = m) as Hmod.
      { symmetry. apply (Nat.mod_unique _ _ q); lia. }
      cbn [filter_index]. rewrite Hmod, Nat.add_1_r in *.
      replace (R * q1 + m1) with (S (R * q + m)) in Hst by lia.
      destruct (Nat.eq_dec j m) as [->|Hne].
      * rewrite nth_error_list_set_same in Hj1 by lia. injection Hj1 as <-.
        exists ra. split; [exact Hra|]. rewrite Nat.eqb_refl, Hst. simpl.
        now rewrite <- app_assoc.
      * rewrite nth_error_list_set_other in Hj1 by auto.
        exists ra1. split; [exact Hj1|].
        assert ((m =? j)%nat = false) as -> by (apply Nat.eqb_neq; auto).
        exact Hst.
Qed.

(** X20: without preferences the students are dealt out in turn.  When
    no student names a room and every room has seats for its share, the
    first student goes to the first room, the next to the second, and so
    on around the rooms: room number [j] gets the students at the places
    [j], [j + R], [j + 2R], ... of the list, so the rooms' numbers of
    students differ by one at most. *)
Theorem students_dealt_in_turn (fuel : nat) (students : list Student)
  (rooms : list Room) :
  0 < fuel -> rooms <> [] ->
  Forall (fun s => forall p, preferred_room s = Some p -> p = "") students ->
  Forall (fun r =>
            num_ltb (num_of_nat ((List.length students - 1) / List.length rooms))
                    (room_capacity r) = true) rooms ->
  exists ras,
    distribute fuel students rooms = Done ras /\
    map ra_room ras = rooms /\
    forall j ra, nth_error ras j = Some ra ->
      ra_students ra =
        filter_index (fun _ i => (i mod List.length rooms =? j)%nat) students 0 /\
      List.length (ra_students ra) =
        List.length students / List.length rooms
        + (if (j <? List.length students mod List.length rooms)%nat then 1 else 0).
Proof.
  intros Hfuel Hrooms Hpref Hcaps.
  assert (0 < List.length rooms) as HR.
  { destruct rooms; [now elim Hrooms|simpl; lia]. }
  unfold distribute, prefer_pass. rewrite (prefer_pass_no_preference _ Hpref).
  simpl app.
  destruct (round_robin_deals (List.length rooms) fuel students Hfuel
              (initial_allocs rooms) 0 0)
    as (ras & q' & m' & Hrun & Hmap & Hk & Hm & Hdealt).
  - unfold initial_allocs. now rewrite length_map.
  - exact HR.
  - intros j ra Hj. unfold initial_allocs in Hj.
    rewrite nth_error_map in Hj. destruct (nth_error rooms j); [|discriminate].
    injection Hj as <-. reflexivity.
  - intros ra Hin. unfold initial_allocs in Hin.
    apply in_map_iff in Hin as (r & <- & Hr). simpl.
    rewrite Forall_forall in Hcaps.
    replace (List.length rooms * 0 + 0 + List.length students - 1)
      with (List.length students - 1) by lia.
    now apply Hcaps.
  - exists ras. split; [exact Hrun|]. split.
    { rewrite Hmap. unfold initial_allocs. rewrite map_map. simpl. apply map_id. }
    intros j ra Hj. destruct (Hdealt j ra Hj) as (Hsize & ra0 & Hj0 & Hst).
    unfold initial_allocs in Hj0. rewrite nth_error_map in Hj0.
    destruct (nth_error rooms j); [|discriminate]. injection Hj0 as <-.
    simpl in Hst. replace (List.length rooms * 0 + 0) with 0 in Hst by lia.
    split; [exact Hst|].
    rewrite Hsize.
    assert (q' = List.length students / List.length rooms) as <-.
    { apply (Nat.div_unique _ _ _ m'); lia. }
    assert (m' = List.length students mod List.length rooms) as <-.
    { apply (Nat.mod_unique _ _ q'); lia. }
    reflexivity.
Qed.

Lemma students_dealt_in_turn_witness :
  exists ras,
    distribute 1 sampleStudents multiRooms = Done ras /\
    map ra_room ras = multiRooms /\
    forall j ra, nth_error ras j = Some ra ->
      ra_students ra =
        filter_index (fun _ i => (i mod List.length multiRooms =? j)%nat)
                     sampleStudents 0 /\
      List.length (ra_students ra) =
        List.length sampleStudents / List.length multiRooms
        + (if (j <? List.length sampleStudents mod List.length multiRooms)%nat
           then 1 else 0).
Proof.
  apply (students_dealt_in_turn 1 sampleStudents multiRooms).
  - lia.
  - discriminate.
  - repeat constructor; discriminate.
  - repeat constructor.
Defined.
